(** * Yelp expert finding: the user-attribute table pipeline

    A shallow embedding of the record utilities of [utilities.py]
    ([join_dictionaries], [stratified_boolean_sample], [normalize_users]) and
    of the attribute-file readers and writers of [data/data_utilities.py],
    together with the properties the specification states about them.

    The other functions of the two modules follow, with properties read
    off their code: the record transformations
    ([filter_dictionary_by_keys], [make_attribute_boolean],
    [designate_attribute_as_label], [remove_labels]), [average],
    [safe_divide], [print_first_items], [unique_values],
    [smallest_unique_values], [largest_unique_values], [frequencies] and
    [_months_since_year_and_month].  Left out are the functions whose work
    is done by NetworkX, matplotlib, [heapq] or float formatting.

    The sources are Python 2 (they use [iteritems], [itervalues] and list
    concatenation of [dict.items()]), so the embedding follows Python 2:
    - attribute values are Python ints (unbounded, [Z]), Python floats (IEEE
      754 binary64, the kernel's [float]) and byte strings;
    - a raised exception is an [Err] result carrying the exception class;
    - a record is a dictionary from attribute names to values; dictionaries
      compare by contents, so records are [gmap string value];
    - the order in which a dictionary is iterated is not fixed by the
      language: it is a parameter of the functions that iterate one. *)

From Stdlib Require Import ZArith Floats Uint63 Ascii String List Permutation.
From stdpp Require Import base option list gmap strings fin_maps pretty sorting.

Local Open Scope string_scope.
Local Open Scope Z_scope.
Local Open Scope list_scope.

(** ** Exceptions and results *)

(** The exception classes the modelled code can raise. *)
Inductive exn : Set :=
  | KeyError            (* d[k] with k absent *)
  | IndexError          (* l[i] out of range *)
  | TypeError           (* arithmetic on a string *)
  | ValueError          (* unpacking a wrong number of tokens; oversized sample *)
  | ZeroDivisionError   (* x / 0 *)
  | OverflowError       (* int too large to convert to float *)
  | AttributeError      (* None.items() *)
  | IOError.            (* open() of a missing file *)

Inductive result (A : Type) : Type :=
  | Ok (a : A)
  | Err (e : exn).
Arguments Ok {A} a.
Arguments Err {A} e.

#[export] Instance result_ret : MRet result := fun A a => Ok a.
#[export] Instance result_bind : MBind result := fun A B f m =>
  match m with
  | Ok a => f a
  | Err e => Err e
  end.

Definition is_Err {A} (r : result A) : Prop :=
  match r with Ok _ => False | Err _ => True end.

Definition is_Ok {A} (r : result A) : Prop := exists a, r = Ok a.

(** [for x in l: acc = f acc x], stopping at the first exception. *)
Fixpoint foldM {A B} (f : B -> A -> result B) (acc : B) (l : list A) : result B :=
  match l with
  | [] => Ok acc
  | x :: l' => acc' ← f acc x; foldM f acc' l'
  end.

(** [[f x for x in l]], stopping at the first exception. *)
Fixpoint mapM {A B} (f : A -> result B) (l : list A) : result (list B) :=
  match l with
  | [] => Ok []
  | x :: l' => y ← f x; ys ← mapM f l'; Ok (y :: ys)
  end.

(** ** Python values *)

Module PyValue.

(** Python numbers: [int]/[long] (one unbounded type here) and [float]. *)
Inductive num : Set :=
  | NInt (z : Z)
  | NFloat (f : float).

Inductive value : Set :=
  | VNum (n : num)
  | VStr (s : string).

Abbreviation VInt z := (VNum (NInt z)).
Abbreviation VFloat f := (VNum (NFloat f)).

(** [float(z)] for an int: the nearest double, ties to even;
    [OverflowError] when that is not finite.  Below 2^63 the primitive
    conversion rounds; above, the top 63 bits with a sticky last bit are
    rounded and scaled. *)
Definition float_of_Z (z : Z) : result float :=
  let a := Z.abs z in
  let f :=
    if a <? 2 ^ 63 then PrimFloat.of_uint63 (Uint63.of_Z a)
    else
      let sh := Z.log2 a - 62 in
      let m := Z.shiftr a sh in
      let sticky := if Z.land a (Z.ones sh) =? 0 then 0 else 1 in
      Z.ldexp (PrimFloat.of_uint63 (Uint63.of_Z (Z.lor m sticky))) sh in
  if PrimFloat.is_infinity f then Err OverflowError
  else Ok (if z <? 0 then PrimFloat.opp f else f).

(** The exact comparison of an int with a float ([None]: unordered, the
    float is a NaN), as [float_richcompare] does it. *)
Definition Zcompare_float (z : Z) (f : float) : option comparison :=
  match Prim2SF f with
  | S754_nan => None
  | S754_infinity s => Some (if s then Gt else Lt)
  | S754_zero _ => Some (z ?= 0)
  | S754_finite s m e =>
      let v := if s then Zneg m else Zpos m in
      Some (if 0 <=? e then z ?= v * 2 ^ e else z * 2 ^ (- e) ?= v)
  end.

Definition num_ltb (a b : num) : bool :=
  match a, b with
  | NInt x, NInt y => x <? y
  | NFloat x, NFloat y => PrimFloat.ltb x y
  | NInt x, NFloat y =>
      match Zcompare_float x y with Some Lt => true | _ => false end
  | NFloat x, NInt y =>
      match Zcompare_float y x with Some Gt => true | _ => false end
  end.

Definition num_eqb (a b : num) : bool :=
  match a, b with
  | NInt x, NInt y => x =? y
  | NFloat x, NFloat y => PrimFloat.eqb x y
  | NInt x, NFloat y | NFloat y, NInt x =>
      match Zcompare_float x y with Some Eq => true | _ => false end
  end.

(** [a < b].  Python 2 orders values of different kinds too: a number is
    smaller than any string.  Strings compare byte by byte. *)
Definition py_lt (a b : value) : bool :=
  match a, b with
  | VNum x, VNum y => num_ltb x y
  | VStr x, VStr y => String.ltb x y
  | VNum _, VStr _ => true
  | VStr _, VNum _ => false
  end.

(** [a > b]. *)
Definition py_gt (a b : value) : bool := py_lt b a.

(** [a == b]. *)
Definition py_eq (a b : value) : bool :=
  match a, b with
  | VNum x, VNum y => num_eqb x y
  | VStr x, VStr y => String.eqb x y
  | _, _ => false
  end.

(** The builtins [max(acc, v)] and [min(acc, v)] of two arguments: the
    first argument is kept unless the second is strictly beyond it. *)
Definition py_max (acc v : value) : value := if py_gt v acc then v else acc.
Definition py_min (acc v : value) : value := if py_lt v acc then v else acc.

(** [a - b]: ints subtract exactly; with a float operand the other one is
    converted; a string operand is a [TypeError]. *)
Definition py_sub (a b : value) : result num :=
  match a, b with
  | VInt x, VInt y => Ok (NInt (x - y))
  | VFloat x, VFloat y => Ok (NFloat (PrimFloat.sub x y))
  | VInt x, VFloat y => fx ← float_of_Z x; Ok (NFloat (PrimFloat.sub fx y))
  | VFloat x, VInt y => fy ← float_of_Z y; Ok (NFloat (PrimFloat.sub x fy))
  | _, _ => Err TypeError
  end.

(** [float(n)] for a number. *)
Definition py_float (n : num) : result float :=
  match n with
  | NInt z => float_of_Z z
  | NFloat f => Ok f
  end.

(** [x / n] for a float [x]: float division, [ZeroDivisionError] when the
    divisor converts to zero. *)
Definition float_div (x : float) (n : num) : result float :=
  d ← py_float n;
  if PrimFloat.eqb d PrimFloat.zero then Err ZeroDivisionError
  else Ok (PrimFloat.div x d).

End PyValue.
Export PyValue.

#[export] Instance value_inhabited : Inhabited value := populate (VInt 0).

(** ** Records and the object store *)

(** A user record: attribute name to value. *)
Abbreviation record := (gmap string value).

(** [d[k]], a [KeyError] when [k] is absent. *)
Definition getitem (d : record) (k : string) : result value :=
  match d !! k with
  | Some v => Ok v
  | None => Err KeyError
  end.

(** [normalize_users] mutates the dictionaries it is given, so for it the
    records are objects in a store and a list of users is a list of
    references into that store; a reference may occur twice in a list. *)
Abbreviation heap := (list record) (only parsing).

(** [user[attribute] = v] on the object at reference [u]. *)
Definition setattr (h : heap) (u : nat) (attribute : string) (v : value) : heap :=
  alter (fun r : record => <[attribute := v]> r) u h.

(** A loop whose body updates the store and may raise: the store at the
    moment of the exception is kept. *)
Fixpoint for_each {S A} (body : S -> A -> S * result unit) (s : S) (l : list A)
    : S * result unit :=
  match l with
  | [] => (s, Ok tt)
  | x :: l' =>
      match body s x with
      | (s', Ok _) => for_each body s' l'
      | (s', Err e) => (s', Err e)
      end
  end.

(** ** [utilities.py]: normalize_users *)

Section Normalize.

(** [d.iteritems()]: the entries of a dictionary in its iteration order. *)
Variable iteritems : record -> list (string * value).

(** One step of "find extreme values" (lines 106-109). *)
Definition extremes_step (excluded : gset string) (acc : record * record)
    (item : string * value) : result (record * record) :=
  let '(max_user, min_user) := acc in
  let '(attribute, val) := item in
  if decide (attribute ∈ excluded) then Ok acc
  else
    mx ← getitem max_user attribute;
    let max_user := <[attribute := py_max mx val]> max_user in
    mn ← getitem min_user attribute;
    let min_user := <[attribute := py_min mn val]> min_user in
    Ok (max_user, min_user).

(** The right-hand side of line 115:
    [float(value - min_user[attribute]) / (max_user[attribute] - min_user[attribute])]. *)
Definition rescale (max_user min_user : record) (attribute : string) (val : value)
    : result float :=
  mn ← getitem min_user attribute;
  d ← py_sub val mn;
  x ← py_float d;
  mx ← getitem max_user attribute;
  mn' ← getitem min_user attribute;
  r ← py_sub mx mn';
  float_div x r.

(** One step of "normalize users" (lines 113-115) on the user at [u]. *)
Definition normalize_step (excluded : gset string) (max_user min_user : record)
    (u : nat) (h : heap) (item : string * value) : heap * result unit :=
  let '(attribute, val) := item in
  if decide (attribute ∈ excluded) then (h, Ok tt)
  else
    match rescale max_user min_user attribute val with
    | Ok q => (setattr h u attribute (VFloat q), Ok tt)
    | Err e => (h, Err e)
    end.

(** [normalize_users(users, excluded_attributes)] on the store [h]: the
    store afterwards, and the returned list (the argument itself) or the
    exception. *)
Definition normalize_users (h : heap) (users : list nat) (excluded_attributes : list string)
    : heap * result (list nat) :=
  let excluded : gset string := list_to_set excluded_attributes in
  match users with
  | [] => (h, Err IndexError)                        (* users[0] *)
  | u0 :: _ =>
      let max_user : record := (fun _ => VFloat neg_infinity) <$> (h !!! u0) in
      let min_user : record := (fun _ => VFloat infinity) <$> (h !!! u0) in
      match foldM (fun acc u => foldM (extremes_step excluded) acc (iteritems (h !!! u)))
                  (max_user, min_user) users with
      | Err e => (h, Err e)
      | Ok (max_user, min_user) =>
          match for_each (fun h u =>
                            for_each (normalize_step excluded max_user min_user u) h
                                     (iteritems (h !!! u)))
                         h users with
          | (h', Ok _) => (h', Ok users)
          | (h', Err e) => (h', Err e)
          end
      end
  end.

End Normalize.

(** ** [utilities.py]: join_dictionaries *)

(** A dictionary whose keys are values ([pairs_to_join]): its entries in
    the order their keys were first inserted.  Looking a key up compares
    with [==]. *)
Fixpoint dict_contains {V} (d : list (value * V)) (k : value) : bool :=
  match d with
  | [] => false
  | (k', _) :: d' => py_eq k' k || dict_contains d' k
  end.

(** [d[k] = v]: a present key keeps its place (and its key object), a new
    one is added. *)
Fixpoint dict_setitem {V} (d : list (value * V)) (k : value) (v : V) : list (value * V) :=
  match d with
  | [] => [(k, v)]
  | (k', v') :: d' =>
      if py_eq k' k then (k', v) :: d' else (k', v') :: dict_setitem d' k v
  end.

(** [d[k][1] = x] for a present key [k] whose value is a two-element list. *)
Fixpoint dict_set_second {A B} (d : list (value * (A * B))) (k : value) (x : B)
    : list (value * (A * B)) :=
  match d with
  | [] => []
  | (k', (a, b)) :: d' =>
      if py_eq k' k then (k', (a, x)) :: d' else (k', (a, b)) :: dict_set_second d' k x
  end.

(** [dict(items)]: a later entry replaces an earlier one with its key. *)
Definition py_dict (items : list (string * value)) : record :=
  fold_left (fun d kv => <[kv.1 := kv.2]> d) items ∅.

Section Join.

(** [d.items()] of a record, in its iteration order. *)
Variable items : record -> list (string * value).

(** [d.itervalues()] of [pairs_to_join]: its entries, given in insertion
    order, in iteration order. *)
Variable iteration :
  list (value * (record * option record)) -> list (value * (record * option record)).

Definition join_dictionaries (dictionaries_1 dictionaries_2 : list record) (join_key : string)
    : result (list record) :=
  (* line 28 *)
  pairs_to_join ←
    foldM (fun pairs dictionary =>
             k ← getitem dictionary join_key;
             Ok (dict_setitem pairs k (dictionary, None)))
          [] dictionaries_1;
  (* lines 29-31 *)
  pairs_to_join ←
    foldM (fun pairs dictionary =>
             k ← getitem dictionary join_key;
             if dict_contains pairs k
             then k' ← getitem dictionary join_key;
                  Ok (dict_set_second pairs k' (Some dictionary))
             else Ok pairs)
          pairs_to_join dictionaries_2;
  (* lines 33-37 *)
  mapM (fun entry : value * (record * option record) =>
          let '(_, (dictionary_1, dictionary_2)) := entry in
          match dictionary_2 with
          | None => Err AttributeError             (* None.items() *)
          | Some dictionary_2 =>
              Ok (py_dict (items dictionary_1 ++ items dictionary_2))
          end)
       (iteration pairs_to_join).

End Join.

(** ** CPython 2.7's dictionary order

    The iteration order the reference implementation of Python 2 gives a
    dictionary built by insertions only ([dictobject.c]): the entries sit in
    a hash table of 8 slots that is rebuilt larger when two thirds full, and
    are iterated by slot. *)

Module CPython27.

Definition wrap64 (z : Z) : Z := z mod 2 ^ 64.
Definition signed64 (z : Z) : Z :=
  let u := wrap64 z in if u <? 2 ^ 63 then u else u - 2 ^ 64.

(** [string_hash]: the hash of a byte string (no hash randomization). *)
Definition string_hash (s : string) : Z :=
  match s with
  | EmptyString => 0
  | String c _ =>
      let bytes := map (fun a => Z.of_N (N_of_ascii a)) (list_ascii_of_string s) in
      let x := Z.shiftl (Z.of_N (N_of_ascii c)) 7 in
      let x := fold_left (fun x b => Z.lxor (signed64 (1000003 * x)) b) bytes x in
      let x := Z.lxor x (Z.of_nat (String.length s)) in
      if x =? -1 then -2 else x
  end.

(** [long_hash] for an int outside the C long range: the 30-bit digits
    folded from the top with a 64-bit rotation and end-around carry. *)
Fixpoint long_digits (fuel : nat) (a : Z) : list Z :=
  match fuel with
  | O => []
  | S fuel' => if a =? 0 then [] else (a mod 2 ^ 30) :: long_digits fuel' (a / 2 ^ 30)
  end.

Definition long_hash (z : Z) : Z :=
  let a := Z.abs z in
  let digits := rev (long_digits (Z.to_nat (Z.log2 a) + 1) a) in
  let x := fold_left (fun x d =>
                        let x := wrap64 (Z.lor (Z.shiftr x 34) (Z.shiftl x 30)) in
                        let x := wrap64 (x + d) in
                        if x <? d then wrap64 (x + 1) else x)
                     digits 0 in
  let x := signed64 (x * (if z <? 0 then -1 else 1)) in
  if x =? -1 then -2 else x.

Definition int_hash (z : Z) : Z :=
  if (- 2 ^ 63 <=? z) && (z <? 2 ^ 63) then (if z =? -1 then -2 else z)
  else long_hash z.

(** [_Py_HashDouble]. *)
Definition float_hash (f : float) : Z :=
  match Prim2SF f with
  | S754_nan => 0
  | S754_infinity s => if s then -271828 else 314159
  | S754_zero _ => 0
  | S754_finite s m e =>
      let sign := if s then -1 else 1 in
      if (0 <=? e) || (Zpos m mod 2 ^ (- e) =? 0) then
        (* an integral value hashes as the int it equals *)
        int_hash (sign * (if 0 <=? e then Zpos m * 2 ^ e else Zpos m / 2 ^ (- e)))
      else
        (* v = frac * 2^expo with 1/2 <= |frac| < 1; the top 31 bits and the
           next 31 bits of frac, truncated towards zero *)
        let bits := Z.log2 (Zpos m) + 1 in
        let expo := e + bits in
        let top := if 31 <=? bits then Zpos m / 2 ^ (bits - 31) else Zpos m * 2 ^ (31 - bits) in
        let rest := if 31 <=? bits then Zpos m mod 2 ^ (bits - 31) else 0 in
        let low := if 62 <=? bits then rest / 2 ^ (bits - 62) else rest * 2 ^ (62 - bits) in
        let x := signed64 (sign * top + sign * low + signed64 (Z.shiftl expo 15)) in
        if x =? -1 then -2 else x
  end.

Definition py_hash (v : value) : Z :=
  match v with
  | VInt z => int_hash z
  | VFloat f => float_hash f
  | VStr s => string_hash s
  end.

(** The table: [size] slots (a power of two), each empty or holding an
    entry with its hash. *)
Definition table (E : Type) := list (option (Z * E)).

(** The probe sequence of [lookdict] from slot index [i] with [perturb]:
    the first empty slot.  No key is deleted and the table is never full,
    and the sequence reaches every slot within [size + 13] steps, which
    bounds the search. *)
Fixpoint find_slot {E} (fuel : nat) (t : table E) (mask i perturb : Z) : option nat :=
  let slot := Z.to_nat (Z.land i mask) in
  match t !! slot with
  | Some None => Some slot
  | _ =>
      match fuel with
      | O => None
      | S fuel' =>
          find_slot fuel' t mask (wrap64 (Z.shiftl i 2 + i + perturb + 1)) (Z.shiftr perturb 5)
      end
  end.

(** [insertdict_clean]: put a new entry in the first empty slot of its
    probe sequence. *)
Definition insert_clean {E} (t : table E) (h : Z) (e : E) : table E :=
  let mask := Z.of_nat (length t) - 1 in
  match find_slot (length t + 13) t mask (Z.land (wrap64 h) mask) (wrap64 h) with
  | Some slot => <[slot := Some (h, e)]> t
  | None => t
  end.

(** [dictresize(minused)]: the smallest power of two above [minused], at
    least 8; the entries are re-inserted in slot order. *)
Fixpoint new_size (fuel : nat) (size minused : Z) : Z :=
  match fuel with
  | O => size
  | S fuel' => if size <=? minused then new_size fuel' (2 * size) minused else size
  end.

Definition dictresize {E} (t : table E) (minused : Z) : table E :=
  let size := new_size 64 8 minused in
  fold_left (fun t' slot =>
               match slot with
               | Some (h, e) => insert_clean t' h e
               | None => t'
               end)
            t (replicate (Z.to_nat size) None).

(** [PyDict_SetItem] of a key that is not in the table: insert, then grow
    when the table is two thirds full. *)
Definition insert_new {E} (hash : E -> Z) (st : table E * Z) (e : E) : table E * Z :=
  let '(t, used) := st in
  let t := insert_clean t (hash e) e in
  let used := used + 1 in
  if used * 3 >=? Z.of_nat (length t) * 2
  then (dictresize t ((if used >? 50000 then 2 else 4) * used), used)
  else (t, used).

(** The entries of a dictionary, given in insertion order (no key twice),
    in iteration order. *)
Definition build {V} (entries : list (value * V)) : table (value * V) :=
  (fold_left (insert_new (fun kv => py_hash kv.1)) entries (replicate 8 None, 0)).1.

Definition iteration {V} (entries : list (value * V)) : list (value * V) :=
  omap (fun slot : option (Z * (value * V)) => snd <$> slot) (build entries).

End CPython27.

(** ** [utilities.py]: stratified_boolean_sample *)

(** [[x for x in l if cond(x)]] with a condition that may raise. *)
Fixpoint filterM {A} (cond : A -> result bool) (l : list A) : result (list A) :=
  match l with
  | [] => Ok []
  | x :: l' =>
      b ← cond x;
      l'' ← filterM cond l';
      Ok (if b : bool then x :: l'' else l'')
  end.

(** [user[label_name] == n]. *)
Definition label_is (label_name : string) (n : Z) (user : record) : result bool :=
  v ← getitem user label_name; Ok (py_eq v (VInt n)).

Section Sample.

(** The state of the process-wide random generator, and
    [random.sample(population, k)] on it: the sample and the next state,
    or [ValueError] when [k] exceeds the population. *)
Variable rng : Type.
Variable random_sample : rng -> list record -> nat -> result (list record * rng).

Definition stratified_boolean_sample (g : rng) (users : list record) (label_name : string)
    : result ((list record * list record) * rng) :=
  positive_samples ← filterM (label_is label_name 1) users;
  negative_samples ← filterM (label_is label_name 0) users;
  if (length positive_samples <? length negative_samples)%nat
  then
    '(sample, g') ← random_sample g negative_samples (length positive_samples);
    Ok ((positive_samples, sample), g')
  else
    '(sample, g') ← random_sample g positive_samples (length negative_samples);
    Ok ((sample, negative_samples), g').

End Sample.

(** ** Text: lines and whitespace-separated tokens *)

Module PyText.

Definition newline : ascii := "010"%char.

(** The bytes [str.split()] separates on: tab, newline, vertical tab, form
    feed, carriage return and space. *)
Definition is_space (c : ascii) : bool :=
  let n := nat_of_ascii c in
  ((9 <=? n) && (n <=? 13))%nat || (n =? 32)%nat.

Definition snoc (s : string) (c : ascii) : string := s +:+ String c "".

(** [s.split()]: the maximal runs of non-space bytes.  [tok] is the run
    being read. *)
Fixpoint split_from (tok : string) (s : string) : list string :=
  match s with
  | "" => if decide (tok = "") then [] else [tok]
  | String c s' =>
      if is_space c
      then (if decide (tok = "") then split_from "" s' else tok :: split_from "" s')
      else split_from (snoc tok c) s'
  end.

Definition py_split (s : string) : list string := split_from "" s.

(** The lines of a file, as iterating over it yields them: each ends with
    its newline, except a last line that has none. *)
Fixpoint lines_from (cur : string) (s : string) : list string :=
  match s with
  | "" => if decide (cur = "") then [] else [cur]
  | String c s' =>
      if Ascii.eqb c newline then snoc cur c :: lines_from "" s'
      else lines_from (snoc cur c) s'
  end.

Definition py_lines (s : string) : list string := lines_from "" s.

(** [sep.join(l)]. *)
Fixpoint py_join (sep : string) (l : list string) : string :=
  match l with
  | [] => ""
  | [x] => x
  | x :: l' => x +:+ sep +:+ py_join sep l'
  end.

Definition concat_strings (l : list string) : string := fold_right String.append "" l.

End PyText.
Export PyText.

(** ** [data/data_utilities.py]: attribute files *)

(** The files: path to contents. *)
Abbreviation filesystem := (gmap string string).

(** [os.path.join(a, b)] on POSIX. *)
Definition path_join (a b : string) : string :=
  match b with
  | String "/" _ => b
  | _ =>
      if decide (a = "") then b
      else if String.eqb (String.substring (String.length a - 1) 1 a) "/" then a +:+ b
      else a +:+ "/" +:+ b
  end.

(** [open(path)] for reading: the contents, [IOError] when there is no
    such file. *)
Definition open_read (fs : filesystem) (path : string) : result string :=
  match fs !! path with
  | Some content => Ok content
  | None => Err IOError
  end.

Section DataUtilities.

(** [os.path.dirname(__file__)]. *)
Variable THIS_FILE_PATH : string.

(** [str(f)] of a float. *)
Variable float_str : float -> string.

(** [d.iteritems()] of a dictionary with string keys. *)
Variable iteritems : record -> list (string * value).

Definition _raw_data_absolute_path (relative_path : string) : string :=
  path_join THIS_FILE_PATH ("raw_data/" +:+ relative_path).

Definition _processed_data_absolute_path (relative_path : string) : string :=
  path_join THIS_FILE_PATH ("processed_data/" +:+ relative_path).

(** [str(v)]. *)
Definition py_str (v : value) : string :=
  match v with
  | VInt z => pretty z
  | VFloat f => float_str f
  | VStr s => s
  end.

Definition _read_single_user_attribute (fs : filesystem) (input_file_name : string)
    : result record :=
  attribute_file ← open_read fs (_processed_data_absolute_path input_file_name);
  foldM (fun (attribute_for_user : record) user_line =>
           match py_split user_line with
           | [user_ID; attribute_value] =>
               Ok (<[user_ID := VStr attribute_value]> attribute_for_user)
           | _ => Err ValueError               (* unpacking into two names *)
           end)
        ∅ (py_lines attribute_file).

Definition _write_single_user_attribute (fs : filesystem) (attribute_for_user : record)
    (output_file_name : string) : filesystem :=
  let written :=
    map (fun '(user_ID, attribute) => user_ID +:+ " " +:+ py_str attribute +:+ String newline "")
        (iteritems attribute_for_user) in
  <[_processed_data_absolute_path output_file_name := concat_strings written]> fs.

(** The dictionary comprehension of line 141 for one data row. *)
Definition row_record (attributes_set : gset string) (attributes_in_file : list string)
    (user_attribute_values : list string) : result record :=
  foldM (fun (user : record) '(i, attribute_name) =>
           if decide (attribute_name ∈ attributes_set)
           then match user_attribute_values !! i with
                | Some v => Ok (<[attribute_name := VStr v]> user)
                | None => Err IndexError
                end
           else Ok user)
        ∅ (imap (fun i a => (i, a)) attributes_in_file).

Definition _read_multiple_user_attributes (fs : filesystem) (input_file_name : string)
    (attributes : list string) : result (list record) :=
  let attributes_set : gset string := list_to_set attributes in
  attributes_file ← open_read fs (_raw_data_absolute_path input_file_name);
  let file_lines := py_lines attributes_file in
  (* readline() gives the empty string at the end of the file *)
  let attributes_in_file := py_split (hd "" file_lines) in
  mapM (fun user_line => row_record attributes_set attributes_in_file (py_split user_line))
       (tl file_lines).

(** One row of [_write_multiple_user_attributes] (line 164). *)
Definition row_text (attributes : list string) (user : record) : result string :=
  cells ← mapM (fun attribute => v ← getitem user attribute; Ok (py_str v)) attributes;
  Ok (py_join " " cells +:+ String newline "").

(** The text written so far is in the file also when a row raises. *)
Fixpoint write_rows (attributes : list string) (users : list record) (written : string)
    : string * result unit :=
  match users with
  | [] => (written, Ok tt)
  | user :: users' =>
      match row_text attributes user with
      | Ok row => write_rows attributes users' (written +:+ row)
      | Err e => (written, Err e)
      end
  end.

Definition _write_multiple_user_attributes (fs : filesystem) (users : list record)
    (attributes : list string) (output_file_name : string) : filesystem * result unit :=
  let '(written, r) :=
    write_rows attributes users (py_join " " attributes +:+ String newline "") in
  (<[_processed_data_absolute_path output_file_name := written]> fs, r).

End DataUtilities.


(** ** [utilities.py]: the record transformations *)

(** [key in keys] for a list of strings. *)
Definition py_in (key : string) (keys : list string) : bool :=
  existsb (String.eqb key) keys.

(** [1 if v > 0 else 0]. *)
Definition positive_flag (v : value) : Z := if py_gt v (VInt 0) then 1 else 0.

Section Transformations.

(** [d.iteritems()] and [d.items()]: the entries of a record in its
    iteration order. *)
Variable iteritems : record -> list (string * value).
Variable items : record -> list (string * value).

(** [desired_key_set] is computed and never used: the test is made on
    [desired_keys] itself. *)
Definition filter_dictionary_by_keys (dictionary : record) (desired_keys : list string)
    : record :=
  py_dict (List.filter (fun '(key, _) => py_in key desired_keys) (iteritems dictionary)).

Definition make_attribute_boolean (users : list record) (attribute : string)
    : result (list record) :=
  mapM (fun user : record =>
          let user_copy :=
            py_dict (List.filter (fun '(key, _) => negb (String.eqb key attribute))
                                 (iteritems user)) in
          v ← getitem user attribute;
          Ok (<[attribute := VInt (positive_flag v)]> user_copy))
       users.

Definition designate_attribute_as_label (users : list record) (attribute : string)
    : result (list record) :=
  mapM (fun user : record =>
          let user_copy :=
            py_dict (List.filter (fun '(key, _) => negb (String.eqb key attribute))
                                 (iteritems user)) in
          v ← getitem user attribute;
          Ok (<["label" := v]> user_copy))
       users.

Definition remove_labels (users : list record) (label_name : string) : list record :=
  map (fun user : record =>
         py_dict (List.filter (fun '(key, _) => negb (String.eqb key label_name))
                              (items user)))
      users.

End Transformations.

(** ** [utilities.py]: averages and quotients *)

(** [a + b]: ints add exactly; with a float operand the other one is
    converted; strings concatenate; a number and a string are a
    [TypeError]. *)
Definition py_add (a b : value) : result value :=
  match a, b with
  | VInt x, VInt y => Ok (VInt (x + y))
  | VFloat x, VFloat y => Ok (VFloat (PrimFloat.add x y))
  | VInt x, VFloat y => fx ← float_of_Z x; Ok (VFloat (PrimFloat.add fx y))
  | VFloat x, VInt y => fy ← float_of_Z y; Ok (VFloat (PrimFloat.add x fy))
  | VStr x, VStr y => Ok (VStr (x +:+ y))
  | _, _ => Err TypeError
  end.

(** The builtin [sum(values)], which starts from the int [0]. *)
Definition py_sum (values : list value) : result value := foldM py_add (VInt 0) values.

(** [a / b] for a float [b]. *)
Definition div_by_float (a : value) (b : float) : result value :=
  match a with
  | VNum n => x ← py_float n; q ← float_div x (NFloat b); Ok (VFloat q)
  | VStr _ => Err TypeError
  end.

Definition average (values : list value) : result value :=
  if (0 <? length values)%nat
  then s ← py_sum values;
       n ← float_of_Z (Z.of_nat (length values));
       div_by_float s n
  else Ok (VInt 0).

(** [safe_divide(x, y, default_value)] for a number [x]. *)
Definition safe_divide (x : num) (y default_value : value) : result value :=
  if py_gt y (VInt 0)
  then fx ← py_float x;
       match y with
       | VNum n => q ← float_div fx n; Ok (VFloat q)
       | VStr _ => Err TypeError
       end
  else Ok default_value.

(** ** [utilities.py]: distinct values and frequencies *)

(** A slice bound [i] of a list of length [len], as Python clips it. *)
Definition slice_index (len i : Z) : Z :=
  if i <? 0 then Z.max 0 (len + i) else Z.min i len.

(** [l[lo:hi]]; [None] is an omitted bound. *)
Definition py_slice {A} (l : list A) (lo hi : option Z) : list A :=
  let len := Z.of_nat (length l) in
  let start := from_option (slice_index len) 0 lo in
  let stop := from_option (slice_index len) len hi in
  take (Z.to_nat (stop - start)) (drop (Z.to_nat start) l).

(** A set of values, given by its elements in the order they were added;
    an element equal ([==]) to one already there is not added.  (Python
    also finds an object again by identity, which matters for a NaN only:
    the properties below are about ints and strings.) *)
Definition set_add (s : list value) (v : value) : list value :=
  if existsb (fun x => py_eq x v) s then s else s ++ [v].

Definition py_set (values : list value) : list value := fold_left set_add values [].

(** [Counter(values)]: the counts, keyed by value, in the order the values
    were first met ([self[elem] = self.get(elem, 0) + 1] for each one). *)
Fixpoint counter_add (counts : list (value * Z)) (v : value) : list (value * Z) :=
  match counts with
  | [] => [(v, 1)]
  | (k, n) :: counts' =>
      if py_eq k v then (k, n + 1) :: counts' else (k, n) :: counter_add counts' v
  end.

Definition Counter (values : list value) : list (value * Z) :=
  fold_left counter_add values [].

(** [counts[v]]: a missing key counts 0. *)
Fixpoint counter_get (counts : list (value * Z)) (v : value) : Z :=
  match counts with
  | [] => 0
  | (k, n) :: counts' => if py_eq k v then n else counter_get counts' v
  end.

Section Statistics.

(** The order in which a set is iterated, and the builtin [sorted]. *)
Variable set_iteration : list value -> list value.
Variable sorted : list value -> list value.

Definition unique_values (values : list value) : list value :=
  set_iteration (py_set values).

Definition smallest_unique_values (values : list value) (k : Z) : list value :=
  py_slice (sorted (unique_values values)) (Some 0) (Some k).

Definition largest_unique_values (values : list value) (k : Z) : list value :=
  py_slice (sorted (unique_values values)) (Some (- k)) None.

Definition frequencies (values : list value) : list (value * Z) := Counter values.

End Statistics.

(** ** [data/data_utilities.py]: months of membership *)

(** [s.split(sep)] for a separator of one byte: the pieces between the
    separators, empty ones included.  [cur] is the piece being read. *)
Fixpoint split_on (sep : ascii) (cur : string) (s : string) : list string :=
  match s with
  | "" => [cur]
  | String c s' =>
      if Ascii.eqb c sep then cur :: split_on sep "" s'
      else split_on sep (snoc cur c) s'
  end.

Section Dates.

(** [date.today().year] and [date.today().month] when the module was
    loaded. *)
Variables CURRENT_YEAR CURRENT_MONTH : Z.

(** The builtin [int] on a string: the number it denotes, or the
    exception it raises. *)
Variable py_int : string -> result Z.

Definition _months_since_year_and_month (year_month_string : string) : result Z :=
  parts ← mapM py_int (split_on "-" "" year_month_string);
  match parts with
  | [year; month] => Ok (12 * (CURRENT_YEAR - year) - month + CURRENT_MONTH)
  | _ => Err ValueError                  (* unpacking into two names *)
  end.

End Dates.

(** ** [utilities.py]: print_first_items *)

Section Printing.

(** [str(f)] of a float. *)
Variable float_str : float -> string.

(** [print_first_items(values, k)] on the standard output, given by the
    texts of the [print] statements executed so far: the output afterwards
    (what was printed before an exception stays printed), and the
    exception if any.  [xrange(0, k)] is empty for [k <= 0], and takes no
    bound outside a C long (of 64 bits). *)
Definition print_first_items (stdout : list string) (values : list value) (k : Z)
    : list string * result unit :=
  if (k <? - 2 ^ 63) || (2 ^ 63 <=? k) then (stdout, Err OverflowError) else
  match for_each (fun (out : list string) (i : nat) =>
                    match values !! i with
                    | Some v => (out ++ [py_str float_str v], Ok tt)     (* print values[i] *)
                    | None => (out, Err IndexError)
                    end)
                 stdout (seq 0 (Z.to_nat k)) with
  | (out, Ok _) => (out ++ [""], Ok tt)                                  (* print '' *)
  | (out, Err e) => (out, Err e)
  end.

End Printing.

(** * The vocabulary of the properties *)

(** ** Joins *)

(** The keys on which [==] is plain equality: ints and strings, as user
    IDs are.  (A float key equals the int of the same value, and a NaN
    equals nothing.) *)
Definition simple_key (k : value) : Prop :=
  match k with
  | VFloat _ => False
  | _ => True
  end.

(** Every record of [l] has the join key, with an int or string value. *)
Definition keyed (join_key : string) (l : list record) : Prop :=
  Forall (fun r => exists k, r !! join_key = Some k /\ simple_key k) l.

(** The join-key values of the records of a list, in order. *)
Definition join_keys (join_key : string) (l : list record) : list value :=
  omap (fun r : record => r !! join_key) l.

(** [r] is the last record of [l] whose join-key value is [k]. *)
Definition last_with (join_key : string) (l : list record) (k : value) (r : record) : Prop :=
  exists l1 l2, l = l1 ++ r :: l2 /\ r !! join_key = Some k /\
                Forall (fun r' => r' !! join_key ≠ Some k) l2.

(** The record of [l] matching the join-key value [k]: the last one whose
    value is equal to [k], if any ([x0] when there is none). *)
Definition last_match (join_key : string) (l : list record) (k : value)
    (x0 : option record) : option record :=
  fold_left (fun x r =>
               match r !! join_key with
               | Some kr => if py_eq k kr then Some r else x
               | None => x
               end) l x0.

Definition matching (join_key : string) (l : list record) (k : value) : option record :=
  last_match join_key l k None.

(** The merge of a record [a] of the first list with a record [b] of the
    second: the fields of both, with [b]'s value where both have one. *)
Definition merge (a b : record) : record := b ∪ a.

(** The join-key value of a record that has one. *)
Definition key_of (join_key : string) (r : record) : value :=
  default (VInt 0) (r !! join_key).

(** The entry of [pairs_to_join] for a record [a] of the first list once
    the second list [l2] has been scanned, and the record joined from it. *)
Definition join_entry (join_key : string) (l2 : list record) (a : record)
    : value * (record * option record) :=
  (key_of join_key a, (a, matching join_key l2 (key_of join_key a))).

Definition joined (entry : value * (record * option record)) : record :=
  merge entry.2.1 (default ∅ entry.2.2).

(** The record joined from a record [a] of the first list: [a] merged with
    its matching record of the second list [l2]. *)
Definition join_of (join_key : string) (l2 : list record) (a : record) : record :=
  joined (join_entry join_key l2 a).

(** ** Normalization *)

(** The extreme value of attribute [a] over the users of a list, as the
    builtin [f] ([max] or [min]) accumulates it from [init]; a user
    without the attribute is skipped. *)
Definition column (f : value -> value -> value) (init : value)
    (h : list record) (users : list nat) (a : string) : value :=
  fold_left (fun acc u =>
               match (h !!! u : record) !! a with
               | Some v => f acc v
               | None => acc
               end) users init.

Definition column_max := column py_max (VFloat neg_infinity).
Definition column_min := column py_min (VFloat infinity).

(** [float(value - min) / (max - min)]. *)
Definition quotient (val mn mx : value) : result float :=
  d ← py_sub val mn;
  x ← py_float d;
  r ← py_sub mx mn;
  float_div x r.

(** A record after normalization with respect to the users of [h]. *)
Definition normalized_record (excluded : gset string) (h : list record) (users : list nat)
    (r : record) : record :=
  map_imap (fun a v =>
              Some (if decide (a ∈ excluded) then v
                    else match quotient v (column_min h users a) (column_max h users a) with
                         | Ok q => VFloat q
                         | Err _ => v
                         end)) r.


(** One accumulation step on an entry of [max_user] or [min_user]. *)
Definition bump (f : value -> value -> value) (excluded : gset string) (a : string)
    (acc x : option value) : option value :=
  match acc, x with
  | Some m, Some v => Some (if decide (a ∈ excluded) then m else f m v)
  | _, _ => acc
  end.

(** What the loop of lines 113-115 of [normalize_users] does to one
    user's record, given its entries. *)
Definition rewritten (excluded : gset string) (mx mn : record) (l : list (string * value))
    (r : record) : record :=
  fold_left (fun r kv =>
               if decide (kv.1 ∈ excluded) then r
               else match rescale mx mn kv.1 kv.2 with
                    | Ok q => <[kv.1 := VFloat q]> r
                    | Err _ => r
                    end) l r.

(** ** Sampling *)

(** [user[label_name] == n] for a user that has the label. *)
Definition labelled (label_name : string) (n : Z) (user : record) : bool :=
  match user !! label_name with
  | Some v => py_eq v (VInt n)
  | None => false
  end.

(** ** Attribute files *)

(** A token: a non-empty string without whitespace, the only kind of field
    the two file formats can carry. *)
Fixpoint no_space (s : string) : bool :=
  match s with
  | "" => true
  | String c s' => negb (is_space c) && no_space s'
  end.

Definition token (s : string) : Prop := s ≠ "" /\ no_space s = true.

Fixpoint no_newline (s : string) : bool :=
  match s with
  | "" => true
  | String c s' => negb (Ascii.eqb c newline) && no_newline s'
  end.

(** A record as it comes back from a file: every value is the string
    [str(v)]. *)
Definition rendered (float_str : float -> string) (r : record) : record :=
  (fun v => VStr (py_str float_str v)) <$> r.

(** The cells of the row written for a user. *)
Definition cells (float_str : float -> string) (attributes : list string) (user : record)
    : list string :=
  map (fun a => py_str float_str (user !!! a)) attributes.

(** The text of a file given by its lines. *)
Definition text (lines : list string) : string :=
  concat_strings (map (fun l => l +:+ String newline "") lines).

(** ** Dates *)

(** The number of occurrences of a byte in a string. *)
Fixpoint count_char (c : ascii) (s : string) : nat :=
  match s with
  | "" => 0%nat
  | String c' s' => ((if Ascii.eqb c' c then 1 else 0) + count_char c s')%nat
  end.

(** * Sample data *)

(** Two lists to join on [id]; the second covers the first. *)
Definition sample_A : list record :=
  [ {[ "id" := VInt 2; "x" := VInt 10 ]}; {[ "id" := VInt 1; "x" := VInt 11 ]} ].

Definition sample_B : list record :=
  [ {[ "id" := VInt 1; "y" := VInt 20 ]}; {[ "id" := VInt 2; "y" := VInt 21 ]};
    {[ "id" := VInt 3; "y" := VInt 22 ]} ].

(** A first list with a repeated join-key value. *)
Definition sample_A_repeated : list record :=
  [ {[ "id" := VInt 1; "x" := VInt 10 ]}; {[ "id" := VInt 1; "x" := VInt 11 ]} ].

(** A first list with a repeated join-key value and another value, and a
    second list that has the repeated value only. *)
Definition sample_A_partly_covered : list record :=
  [ {[ "id" := VInt 1; "x" := VInt 10 ]}; {[ "id" := VInt 1; "x" := VInt 11 ]};
    {[ "id" := VInt 2; "x" := VInt 5 ]} ].

Definition sample_B_single : list record := [ {[ "id" := VInt 1; "y" := VInt 20 ]} ].

(** A store of three users, and one whose attribute is constant. *)
Definition sample_store : list record :=
  [ {[ "ID" := VStr "a"; "x" := VInt 0 ]}; {[ "ID" := VStr "b"; "x" := VInt 5 ]};
    {[ "ID" := VStr "c"; "x" := VInt 10 ]} ].

Definition constant_store : list record :=
  [ {[ "x" := VInt 3 ]}; {[ "x" := VInt 3 ]} ].

(** Labelled users, and a sampler that keeps the first [k] elements: one
    of the outcomes [random.sample] can have. *)
Definition labelled_users : list record :=
  [ {[ "ID" := VStr "a"; "label" := VInt 1 ]}; {[ "ID" := VStr "b"; "label" := VInt 0 ]};
    {[ "ID" := VStr "c"; "label" := VInt 0 ]} ].

Definition first_k (g : unit) (population : list record) (k : nat)
    : result (list record * unit) :=
  if (k <=? length population)%nat then Ok (take k population, g) else Err ValueError.

(** A stand-in for [str] on floats (none of the runs below has one). *)
Definition no_float_str (f : float) : string := "0.0".

Definition sample_ratings : record := {[ "u1" := VStr "3.5"; "u2" := VInt 7 ]}.

Definition sample_table : list record :=
  [ {[ "ID" := VStr "a"; "stars" := VInt 4 ]}; {[ "ID" := VStr "b"; "stars" := VInt 5 ]} ].

(** A file system in which the file the reader opens holds the text the
    writer produces for [sample_table]. *)
Definition copied_table : filesystem :=
  {[ "/data/raw_data/t.txt" := text ["ID stars"; "a 4"; "b 5"] ]}.

(** A table whose data row is shorter than its header. *)
Definition short_row_table : filesystem :=
  {[ "/data/raw_data/t.txt" := text ["a b"; "1"] ]}.

(** Users with a signed score. *)
Definition scored_users : list record :=
  [ {[ "ID" := VStr "a"; "score" := VInt (-3) ]}; {[ "ID" := VStr "b"; "score" := VInt 5 ]};
    {[ "ID" := VStr "c"; "score" := VInt 0 ]} ].

(** A store whose second user has an attribute that the first lacks. *)
Definition uneven_store : list record :=
  [ {[ "x" := VInt 1 ]}; {[ "x" := VInt 2; "y" := VInt 3 ]} ].

(** A single-attribute file that names one user twice, and one with a
    line of one token. *)
Definition repeated_ratings : filesystem :=
  {[ "/data/processed_data/r.txt" := text ["u1 3.5"; "u2 7"; "u1 4.0"] ]}.

Definition broken_ratings : filesystem :=
  {[ "/data/processed_data/r.txt" := text ["u1 3.5"; "u2"] ]}.

(** A stand-in for [int] on strings: the value of a non-empty string of
    decimal digits, one of the cases on which the builtin is not in
    doubt. *)
Definition digit_value (c : ascii) : option Z :=
  let n := nat_of_ascii c in
  if ((48 <=? n) && (n <=? 57))%nat then Some (Z.of_nat n - 48) else None.

Fixpoint decimal_from (acc : Z) (s : string) : result Z :=
  match s with
  | "" => Ok acc
  | String c s' =>
      match digit_value c with
      | Some d => decimal_from (10 * acc + d) s'
      | None => Err ValueError
      end
  end.

Definition decimal_int (s : string) : result Z :=
  if decide (s = "") then Err ValueError else decimal_from 0 s.

(** A stand-in for [sorted] on lists of ints. *)
Definition int_of (v : value) : option Z :=
  match v with
  | VInt z => Some z
  | _ => None
  end.

Definition ascending (l : list value) : list value :=
  map (fun z => VInt z) (merge_sort Z.le (omap int_of l)).

(** * Properties *)

(** ** Results and loops *)

Lemma foldM_app {A B} (f : B -> A -> result B) acc l1 l2 :
  foldM f acc (l1 ++ l2) = acc' ← foldM f acc l1; foldM f acc' l2.
Proof.
  revert acc. induction l1 as [|x l1 IH]; intros acc; simpl; [done|].
  destruct (f acc x) as [acc'|e]; simpl; [apply IH | done].
Qed.

Lemma mapM_Ok {A B} (f : A -> result B) (g : A -> B) l :
  Forall (fun x => f x = Ok (g x)) l -> mapM f l = Ok (map g l).
Proof.
  induction 1 as [|x l Hx _ IH]; simpl; [done|]. by rewrite Hx, IH.
Qed.

(** ** Dictionaries keyed by values *)

Lemma py_eq_simple a b : simple_key a -> simple_key b -> py_eq a b = true <-> a = b.
Proof.
  destruct a as [[x|x]|x], b as [[y|y]|y]; simpl; intros Ha Hb;
    try contradiction; try (split; discriminate).
  - rewrite Z.eqb_eq. split; congruence.
  - rewrite String.eqb_eq. split; congruence.
Qed.

Lemma py_eq_refl a : simple_key a -> py_eq a a = true.
Proof. intros Ha. by apply py_eq_simple. Qed.

Lemma py_eq_neq a b : simple_key a -> simple_key b -> a ≠ b -> py_eq a b = false.
Proof.
  intros Ha Hb Hne. destruct (py_eq a b) eqn:E; [|done].
  by apply py_eq_simple in E.
Qed.

Section DictFacts.
Context {V : Type}.
Implicit Types (d : list (value * V)) (k : value) (v : V).

Lemma dict_contains_spec d k :
  simple_key k -> Forall simple_key d.*1 -> dict_contains d k = true <-> k ∈ d.*1.
Proof.
  intros Hk. induction d as [|[k' v'] d IH]; simpl; intros Hd.
  - split; [done | by intros ?%elem_of_nil].
  - apply Forall_cons in Hd as [Hk' Hd]. rewrite orb_true_iff, elem_of_cons, IH by done.
    rewrite py_eq_simple by done.
    split; (intros [?|?]; [left; congruence|by right]).
Qed.

Lemma dict_setitem_new d k v :
  simple_key k -> Forall simple_key d.*1 -> k ∉ d.*1 -> dict_setitem d k v = d ++ [(k, v)].
Proof.
  intros Hk. induction d as [|[k' v'] d IH]; simpl; intros Hd Hnin; [done|].
  apply Forall_cons in Hd as [Hk' Hd]. apply not_elem_of_cons in Hnin as [Hne Hnin].
  rewrite py_eq_neq by done. by rewrite IH.
Qed.

Lemma dict_setitem_keys d k v :
  simple_key k -> Forall simple_key d.*1 ->
  (dict_setitem d k v).*1 = if dict_contains d k then d.*1 else d.*1 ++ [k].
Proof.
  intros Hk. induction d as [|[k' v'] d IH]; simpl; intros Hd; [done|].
  apply Forall_cons in Hd as [Hk' Hd].
  destruct (py_eq k' k) eqn:E; csimpl; [done|].
  rewrite IH by done. by destruct (dict_contains d k).
Qed.

Lemma dict_setitem_elem d k v k' v' :
  simple_key k -> Forall simple_key d.*1 -> NoDup d.*1 ->
  (k', v') ∈ dict_setitem d k v <-> (k' = k ∧ v' = v) ∨ (k' ≠ k ∧ (k', v') ∈ d).
Proof.
  intros Hk. induction d as [|[k0 v0] d IH]; simpl; intros Hd Hnd.
  - rewrite list_elem_of_singleton. split; [naive_solver|].
    intros [[-> ->]|[_ []%elem_of_nil]]; done.
  - apply Forall_cons in Hd as [Hk0 Hd]. apply NoDup_cons in Hnd as [Hnin Hnd].
    destruct (py_eq k0 k) eqn:E.
    + apply py_eq_simple in E as ->; [|done..]. rewrite !elem_of_cons. split.
      * intros [[= -> ->]|Hin]; [by left|]. right. split; [|by right].
        intros ->. apply Hnin. apply list_elem_of_fmap. by exists (k, v').
      * intros [[-> ->]|[Hne [[= -> ->]|Hin]]]; [by left|done|by right].
    + assert (k0 ≠ k) as Hne by (intros ->; by rewrite py_eq_refl in E).
      rewrite !elem_of_cons, IH by done. split.
      * intros [[= -> ->]|[?|[? ?]]]; [right; split; [done|by left]|by left|].
        right; split; [done|by right].
      * intros [?|[? [[= -> ->]|?]]]; [right; by left|by left|]. right; right; done.
Qed.

End DictFacts.

Lemma dict_set_second_map {A B} (d : list (value * (A * B))) k x :
  simple_key k -> Forall simple_key d.*1 -> NoDup d.*1 ->
  dict_set_second d k x
  = map (fun e : value * (A * B) => (e.1, (e.2.1, if py_eq e.1 k then x else e.2.2))) d.
Proof.
  intros Hk. induction d as [|[k' [a b]] d IH]; simpl; intros Hd Hnd; [done|].
  apply Forall_cons in Hd as [Hk' Hd]. apply NoDup_cons in Hnd as [Hnin Hnd].
  destruct (py_eq k' k) eqn:E; simpl.
  - apply py_eq_simple in E as ->; [|done..]. f_equal.
    clear IH. induction d as [|[k1 [a1 b1]] d IH]; simpl; [done|].
    apply Forall_cons in Hd as [Hk1 Hd]. apply NoDup_cons in Hnd as [_ Hnd].
    simpl in Hnin. apply not_elem_of_cons in Hnin as [Hne Hnin].
    rewrite (py_eq_neq k1 k) by done. f_equal. by apply IH.
  - f_equal. by apply IH.
Qed.

(** ** join_dictionaries *)

Lemma py_dict_fold (l : list (string * value)) (m : record) :
  fold_left (fun d kv => <[kv.1 := kv.2]> d) l m = list_to_map (reverse l) ∪ m.
Proof.
  revert m. induction l as [|[k v] l IH]; intros m; simpl.
  - by rewrite (left_id_L ∅ (∪)).
  - rewrite IH, reverse_cons, list_to_map_app. simpl.
    rewrite insert_empty, <-(assoc_L (∪)). f_equal. apply insert_union_singleton_l.
Qed.

Lemma list_to_map_reverse_items (l : list (string * value)) (r : record) :
  l ≡ₚ map_to_list r -> list_to_map (reverse l) = r.
Proof.
  intros Hl. transitivity (list_to_map (map_to_list r) : record);
    [|apply list_to_map_to_list].
  apply list_to_map_proper.
  - rewrite fmap_reverse, reverse_Permutation, Hl. apply NoDup_fst_map_to_list.
  - by rewrite reverse_Permutation.
Qed.

Lemma py_dict_items (l : list (string * value)) (r : record) :
  l ≡ₚ map_to_list r -> py_dict l = r.
Proof.
  intros Hl. unfold py_dict. rewrite py_dict_fold, (right_id_L ∅ (∪)).
  by apply list_to_map_reverse_items.
Qed.

Lemma py_dict_merge (la lb : list (string * value)) (a b : record) :
  la ≡ₚ map_to_list a -> lb ≡ₚ map_to_list b -> py_dict (la ++ lb) = merge a b.
Proof.
  intros Ha Hb. unfold py_dict, merge.
  rewrite fold_left_app, !py_dict_fold, (right_id_L ∅ (∪)).
  by rewrite (list_to_map_reverse_items la a), (list_to_map_reverse_items lb b).
Qed.

Lemma last_with_snoc_same jk l r k :
  r !! jk = Some k -> last_with jk (l ++ [r]) k r.
Proof. intros Hr. exists l, []. by repeat split. Qed.

Lemma last_with_snoc_other jk l r k a :
  r !! jk ≠ Some k -> last_with jk l k a -> last_with jk (l ++ [r]) k a.
Proof.
  intros Hr (l1 & l2 & -> & Ha & Hl2). exists l1, (l2 ++ [r]).
  rewrite <-(assoc_L (++)). repeat split; [done|].
  apply Forall_app. split; [done|]. by apply Forall_singleton.
Qed.

Lemma last_with_elem jk l k r : last_with jk l k r -> r ∈ l /\ r !! jk = Some k.
Proof.
  intros (l1 & l2 & -> & Hr & _). split; [|done].
  apply elem_of_app. right. by left.
Qed.

Lemma last_with_unique jk l k r1 r2 :
  last_with jk l k r1 -> last_with jk l k r2 -> r1 = r2.
Proof.
  revert r1 r2. induction l as [|x l IH] using rev_ind; intros r1 r2.
  - intros (l1 & l2 & Hnil & _). by destruct l1.
  - assert (forall r, last_with jk (l ++ [x]) k r ->
                 (x !! jk = Some k /\ r = x) \/ (x !! jk ≠ Some k /\ last_with jk l k r))
      as Hcases.
    { intros r (l1 & l2 & Heq & Hr & Hl2).
      destruct l2 as [|y l2 _] using rev_ind.
      - apply app_inj_tail in Heq as [-> ->]. by left.
      - rewrite app_comm_cons, (assoc_L (++)) in Heq.
        apply app_inj_tail in Heq as [-> ->].
        apply Forall_app in Hl2 as [Hl2 Hy]. rewrite Forall_singleton in Hy.
        right. split; [done|]. by exists l1, l2. }
    intros [[Hx ->]|[Hx H1]]%Hcases [[Hx' ->]|[Hx' H2]]%Hcases; try done.
    by apply IH.
Qed.

Lemma last_match_snoc jk l r k x0 :
  last_match jk (l ++ [r]) k x0 =
  match r !! jk with
  | Some kr => if py_eq k kr then Some r else last_match jk l k x0
  | None => last_match jk l k x0
  end.
Proof. unfold last_match. by rewrite fold_left_app. Qed.

(** [matching] finds the last record with the key, when the keys are ints
    or strings. *)
Lemma matching_last_with jk l k :
  keyed jk l -> simple_key k ->
  match matching jk l k with
  | Some r => last_with jk l k r
  | None => Forall (fun r => r !! jk ≠ Some k) l
  end.
Proof.
  intros Hl Hk. unfold matching.
  induction l as [|x l IH] using rev_ind; [by constructor|].
  apply Forall_app in Hl as [Hl Hx]. rewrite Forall_singleton in Hx.
  destruct Hx as (kx & Hx & Hkx). rewrite last_match_snoc, Hx.
  destruct (py_eq k kx) eqn:E.
  - apply py_eq_simple in E as ->; [|done..]. by apply last_with_snoc_same.
  - assert (x !! jk ≠ Some k) as Hne.
    { rewrite Hx. intros [= ->]. by rewrite py_eq_refl in E. }
    specialize (IH Hl). destruct (last_match jk l k None).
    + by apply last_with_snoc_other.
    + apply Forall_app. split; [done|]. by apply Forall_singleton.
Qed.

Lemma matching_Some jk l k r :
  keyed jk l -> simple_key k -> matching jk l k = Some r -> last_with jk l k r.
Proof.
  intros Hl Hk Hm. pose proof (matching_last_with jk l k Hl Hk) as H.
  by rewrite Hm in H.
Qed.

Lemma matching_covered jk l k b :
  keyed jk l -> simple_key k -> b ∈ l -> b !! jk = Some k -> is_Some (matching jk l k).
Proof.
  intros Hl Hk Hb Hbk. pose proof (matching_last_with jk l k Hl Hk) as H.
  destruct (matching jk l k); [by eexists|].
  rewrite Forall_forall in H. by destruct (H b Hb).
Qed.

Lemma dict_set_second_absent {A B} (d : list (value * (A * B))) k x :
  dict_contains d k = false -> dict_set_second d k x = d.
Proof.
  induction d as [|[k' [a b]] d IH]; simpl; [done|].
  intros [E Hd]%orb_false_iff. rewrite E. f_equal. by apply IH.
Qed.

Section JoinFacts.

Variable items : record -> list (string * value).
Variable iteration :
  list (value * (record * option record)) -> list (value * (record * option record)).

(** What Python promises of the two iterations: each entry comes once. *)
Hypothesis items_perm : forall r, items r ≡ₚ map_to_list r.
Hypothesis iteration_perm : forall d, NoDup d.*1 -> iteration d ≡ₚ d.

Variable jk : string.

(** Line 28: the dictionary comprehension over the first list. *)
Lemma pairs_to_join_built (A : list record) :
  keyed jk A ->
  exists pairs,
    foldM (fun pairs dictionary =>
             k ← getitem dictionary jk;
             Ok (dict_setitem pairs k (dictionary, None : option record)))
          [] A = Ok pairs
    /\ NoDup pairs.*1 /\ Forall simple_key pairs.*1
    /\ (forall k, k ∈ pairs.*1 <-> k ∈ join_keys jk A)
    /\ (forall k a x, (k, (a, x)) ∈ pairs -> x = None /\ last_with jk A k a)
    /\ (NoDup (join_keys jk A) ->
        pairs = map (fun a => (key_of jk a, (a, None))) A).
Proof.
  induction A as [|a A IH] using rev_ind; intros HA.
  - exists []. simpl. repeat split; try done; try constructor;
      by match goal with H : _ ∈ [] |- _ => apply elem_of_nil in H end.
  - apply Forall_app in HA as [HA Ha]. rewrite Forall_singleton in Ha.
    destruct Ha as (k & Ha & Hk).
    destruct (IH HA) as (pairs & Hrun & Hnd & Hsimple & Hkeys & Hentries & Hexact).
    exists (dict_setitem pairs k (a, None)).
    assert (join_keys jk (A ++ [a]) = join_keys jk A ++ [k]) as Hjk.
    { unfold join_keys. rewrite omap_app. simpl. by rewrite Ha. }
    assert (dict_contains pairs k = false -> k ∉ pairs.*1) as Hfresh.
    { intros E Hin. apply dict_contains_spec in Hin; [congruence|done..]. }
    split; [|split; [|split; [|split; [|split]]]].
    + rewrite foldM_app, Hrun. simpl. unfold getitem. by rewrite Ha.
    + rewrite dict_setitem_keys by done. destruct (dict_contains pairs k) eqn:E; [done|].
      apply NoDup_app. repeat split; [done| |apply NoDup_singleton].
      intros k' Hk' ->%list_elem_of_singleton. by apply Hfresh.
    + rewrite dict_setitem_keys by done. destruct (dict_contains pairs k) eqn:E; [done|].
      apply Forall_app. split; [done|]. by apply Forall_singleton.
    + intros k'. rewrite Hjk, dict_setitem_keys, elem_of_app, list_elem_of_singleton by done.
      destruct (dict_contains pairs k) eqn:E.
      * rewrite Hkeys. split; [by left|]. intros [?| ->]; [done|].
        apply Hkeys. by apply dict_contains_spec.
      * rewrite elem_of_app, list_elem_of_singleton, Hkeys. done.
    + intros k' a' x. rewrite dict_setitem_elem by done.
      intros [[-> [= -> ->]]|[Hne Hin]].
      * split; [done|]. by apply last_with_snoc_same.
      * destruct (Hentries _ _ _ Hin) as [-> Hlast]. split; [done|].
        apply last_with_snoc_other; [|done]. rewrite Ha. congruence.
    + rewrite Hjk. intros [Hnd' [Hnin _]]%NoDup_app.
      rewrite dict_setitem_new; [|done|done|].
      * rewrite map_app, Hexact by done. simpl. unfold key_of. by rewrite Ha.
      * rewrite Hkeys. intros Hin. apply (Hnin k Hin). by left.
Qed.

(** Lines 29-31: the scan of the second list. *)
Lemma pairs_to_join_matched (B : list record) pairs :
  keyed jk B -> NoDup pairs.*1 -> Forall simple_key pairs.*1 ->
  foldM (fun pairs dictionary =>
           k ← getitem dictionary jk;
           if dict_contains pairs k
           then k' ← getitem dictionary jk;
                Ok (dict_set_second pairs k' (Some dictionary))
           else Ok pairs)
        pairs B
  = Ok (map (fun e : value * (record * option record) =>
               (e.1, (e.2.1, last_match jk B e.1 e.2.2))) pairs).
Proof.
  intros HB Hnd Hsimple. induction B as [|b B IH] using rev_ind.
  - simpl. f_equal. induction pairs as [|[k [a x]] pairs IHp]; simpl; [done|].
    apply NoDup_cons in Hnd as [_ Hnd]. apply Forall_cons in Hsimple as [_ Hsimple].
    f_equal. by apply IHp.
  - apply Forall_app in HB as [HB Hb]. rewrite Forall_singleton in Hb.
    destruct Hb as (k & Hb & Hk). rewrite foldM_app, (IH HB). simpl.
    unfold getitem. rewrite Hb. simpl.
    set (pairs' := map _ pairs).
    assert (pairs'.*1 = pairs.*1) as Hkeys.
    { unfold pairs'. rewrite <-list_fmap_compose. by apply list_fmap_ext. }
    assert ((if dict_contains pairs' k
             then Ok (dict_set_second pairs' k (Some b)) else Ok pairs')
            = Ok (dict_set_second pairs' k (Some b))) as ->.
    { destruct (dict_contains pairs' k) eqn:E; [done|].
      by rewrite dict_set_second_absent. }
    rewrite dict_set_second_map by (by rewrite ?Hkeys).
    unfold pairs'. rewrite map_map. apply (f_equal Ok), map_ext.
    intros [k' [a x]]. simpl. by rewrite last_match_snoc, Hb.
Qed.

(** The whole function, for lists whose records have the join key and
    whose second list covers the first. *)
Lemma join_dictionaries_spec (A B : list record) :
  keyed jk A -> keyed jk B ->
  (forall k, k ∈ join_keys jk A -> k ∈ join_keys jk B) ->
  exists pairs,
    join_dictionaries items iteration A B jk = Ok (map joined (iteration pairs))
    /\ NoDup pairs.*1
    /\ (forall k, k ∈ pairs.*1 <-> k ∈ join_keys jk A)
    /\ (forall k a x, (k, (a, x)) ∈ pairs ->
          last_with jk A k a /\ exists b, x = Some b /\ last_with jk B k b)
    /\ (NoDup (join_keys jk A) -> pairs = map (join_entry jk B) A).
Proof.
  intros HA HB Hcover.
  destruct (pairs_to_join_built A HA)
    as (pairs1 & Hrun1 & Hnd & Hsimple & Hkeys & Hentries & Hexact).
  set (attach := fun e : value * (record * option record) =>
                   (e.1, (e.2.1, last_match jk B e.1 e.2.2))).
  assert ((map attach pairs1).*1 = pairs1.*1) as Hsame.
  { rewrite <-list_fmap_compose. by apply list_fmap_ext. }
  assert (forall k a x, (k, (a, x)) ∈ map attach pairs1 ->
            last_with jk A k a /\ exists b, x = Some b /\ last_with jk B k b) as Hall.
  { intros k a x [[k' [a' x']] [[= -> -> ->] Hin]]%list_elem_of_fmap.
    simpl. destruct (Hentries _ _ _ Hin) as [-> Hlast]. split; [done|].
    assert (simple_key k') as Hk'.
    { rewrite Forall_forall in Hsimple. apply Hsimple, list_elem_of_fmap.
      by exists (k', (a', None)). }
    assert (k' ∈ join_keys jk B) as Hin'.
    { apply Hcover, Hkeys, list_elem_of_fmap. by exists (k', (a', None)). }
    apply list_elem_of_omap in Hin' as (b0 & Hb0 & Hb0k).
    destruct (matching_covered jk B k' b0 HB Hk' Hb0 Hb0k) as [b Hb].
    exists b. split; [done|]. by apply matching_Some. }
  exists (map attach pairs1). split; [|split; [|split; [|split]]].
  - unfold join_dictionaries. rewrite Hrun1. simpl.
    rewrite pairs_to_join_matched by done. simpl. apply mapM_Ok.
    apply Forall_forall. intros [k [a x]] Hin.
    rewrite iteration_perm in Hin by (by rewrite Hsame).
    destruct (Hall _ _ _ Hin) as [_ (b & -> & _)].
    unfold joined. simpl. by rewrite (py_dict_merge _ _ a b).
  - by rewrite Hsame.
  - intros k. by rewrite Hsame.
  - done.
  - intros Hnd'. rewrite (Hexact Hnd'), map_map. by apply map_ext.
Qed.

(** The join-key values of the output are the keys of [pairs_to_join], in
    iteration order. *)
Lemma join_keys_joined (l : list (value * (record * option record))) :
  Forall (fun e => exists b, e.2.2 = Some b /\ b !! jk = Some e.1) l ->
  join_keys jk (map joined l) = l.*1.
Proof.
  induction 1 as [|[k [a x]] l (b & Hx & Hb) _ IH]; [done|].
  simpl in *. subst x. unfold join_keys in *. simpl.
  assert (joined (k, (a, Some b)) !! jk = Some k) as ->.
  { unfold joined, merge. simpl. by apply lookup_union_Some_l. }
  csimpl. by rewrite IH.
Qed.

End JoinFacts.

Section JoinClaims.

Variable items : record -> list (string * value).
Variable iteration :
  list (value * (record * option record)) -> list (value * (record * option record)).
Hypothesis items_perm : forall r, items r ≡ₚ map_to_list r.
Hypothesis iteration_perm : forall d, NoDup d.*1 -> iteration d ≡ₚ d.

Lemma join_of_merge jk (B : list record) (a : record) k :
  keyed jk B -> a !! jk = Some k -> simple_key k -> k ∈ join_keys jk B ->
  exists b, last_with jk B k b /\ join_of jk B a = merge a b.
Proof.
  intros HB Ha Hk Hin. apply list_elem_of_omap in Hin as (b0 & Hb0 & Hb0k).
  destruct (matching_covered jk B k b0 HB Hk Hb0 Hb0k) as [b Hb].
  exists b. split; [by apply matching_Some|].
  unfold join_of, joined, join_entry, key_of. simpl. by rewrite Ha; simpl; rewrite Hb.
Qed.

(** With pairwise distinct join-key values in the first list,
    [pairs_to_join] holds one entry per record, inserted in the list's
    order, and the output follows the dictionary's iteration. *)
Lemma join_distinct_spec jk (A B : list record) :
  keyed jk A -> keyed jk B ->
  (forall k, k ∈ join_keys jk A -> k ∈ join_keys jk B) ->
  NoDup (join_keys jk A) ->
  join_dictionaries items iteration A B jk
  = Ok (map joined (iteration (map (join_entry jk B) A)))
  /\ iteration (map (join_entry jk B) A) ≡ₚ map (join_entry jk B) A.
Proof.
  intros HA HB Hcover Hnd.
  destruct (join_dictionaries_spec items iteration items_perm iteration_perm jk A B
              HA HB Hcover) as (pairs & Hrun & Hndp & _ & _ & Hexact).
  rewrite (Hexact Hnd) in Hrun, Hndp. split; [done|]. by apply iteration_perm.
Qed.

Lemma keyed_join_of jk (A B : list record) :
  keyed jk A -> keyed jk B ->
  (forall k, k ∈ join_keys jk A -> k ∈ join_keys jk B) ->
  Forall (fun a => exists k b, a !! jk = Some k /\ last_with jk B k b
                               /\ join_of jk B a = merge a b) A.
Proof.
  intros HA HB Hcover. apply Forall_forall. intros a Ha.
  unfold keyed in HA. rewrite Forall_forall in HA.
  destruct (HA a Ha) as (k & Hak & Hk).
  destruct (join_of_merge jk B a k HB Hak Hk) as (b & Hb & Hj).
  { apply Hcover, list_elem_of_omap. by exists a. }
  by exists k, b.
Qed.

(** C1 (as amended).  When every record of both lists has the join key
    (an int or a string), the second list covers the join-key values of
    the first, and the join-key values of the first list are pairwise
    distinct, [join_dictionaries] returns, for each record of the first
    list, its merge with the matching record of the second list, the second
    list's value winning on a common field (the output is a rearrangement
    of these merges); and joining [{id:1, x:10}] with [{id:1, y:20}] on
    [id] gives [{id:1, x:10, y:20}]. *)
Theorem join_merges_each_record jk (A B : list record) :
  keyed jk A -> keyed jk B ->
  (forall k, k ∈ join_keys jk A -> k ∈ join_keys jk B) ->
  NoDup (join_keys jk A) ->
  (exists out,
     join_dictionaries items iteration A B jk = Ok out
     /\ out ≡ₚ map (join_of jk B) A
     /\ Forall (fun a => exists k b, a !! jk = Some k /\ last_with jk B k b
                                    /\ join_of jk B a = merge a b) A)
  /\ join_dictionaries items iteration
       [ {[ "id" := VInt 1; "x" := VInt 10 ]} ] [ {[ "id" := VInt 1; "y" := VInt 20 ]} ] "id"
     = Ok [ {[ "id" := VInt 1; "x" := VInt 10; "y" := VInt 20 ]} ].
Proof.
  intros HA HB Hcover Hnd. split.
  - destruct (join_distinct_spec jk A B HA HB Hcover Hnd) as [Hrun Hperm].
    eexists. split; [exact Hrun|]. split; [|by apply keyed_join_of].
    rewrite Hperm, map_map. done.
  - set (a := ({[ "id" := VInt 1; "x" := VInt 10 ]} : record)).
    set (b := ({[ "id" := VInt 1; "y" := VInt 20 ]} : record)).
    destruct (join_distinct_spec "id" [a] [b]) as [Hrun Hperm].
    + apply Forall_singleton. by exists (VInt 1).
    + apply Forall_singleton. by exists (VInt 1).
    + done.
    + apply NoDup_singleton.
    + rewrite Hrun. apply Permutation_singleton_r in Hperm. rewrite Hperm.
      by vm_compute.
Qed.

(** C3 (as amended).  Under the hypotheses of C1, the output lists the
    joined records in the order in which the dictionary [pairs_to_join]
    (filled in the first list's order) is iterated: a rearrangement of the
    first list's order, and that order itself when the dictionary iterates
    in insertion order. *)
Theorem join_follows_dictionary_order jk (A B : list record) :
  keyed jk A -> keyed jk B ->
  (forall k, k ∈ join_keys jk A -> k ∈ join_keys jk B) ->
  NoDup (join_keys jk A) ->
  exists out,
    join_dictionaries items iteration A B jk = Ok out
    /\ out = map joined (iteration (map (join_entry jk B) A))
    /\ join_keys jk out ≡ₚ join_keys jk A
    /\ (iteration (map (join_entry jk B) A) = map (join_entry jk B) A ->
        out = map (join_of jk B) A).
Proof.
  intros HA HB Hcover Hnd.
  destruct (join_distinct_spec jk A B HA HB Hcover Hnd) as [Hrun Hperm].
  eexists. split; [exact Hrun|]. split; [done|]. split.
  - assert (Forall (fun e : value * (record * option record) =>
                      exists b, e.2.2 = Some b /\ b !! jk = Some e.1)
                   (map (join_entry jk B) A)) as Hall.
    { apply Forall_forall. intros e [a [-> Ha]]%list_elem_of_fmap.
      unfold keyed in HA. rewrite Forall_forall in HA.
      destruct (HA a Ha) as (k & Hak & Hk).
      assert (k ∈ join_keys jk B) as Hin.
      { apply Hcover, list_elem_of_omap. by exists a. }
      apply list_elem_of_omap in Hin as (b0 & Hb0 & Hb0k).
      destruct (matching_covered jk B k b0 HB Hk Hb0 Hb0k) as [b Hb].
      exists b. unfold join_entry, key_of. rewrite Hak. simpl. split; [done|].
      by apply (last_with_elem jk B k b), matching_Some. }
    rewrite join_keys_joined by (by rewrite Hperm).
    rewrite Hperm. clear Hperm Hrun Hall Hnd Hcover.
    induction HA as [|a A (k & Hak & Hk) _ IH]; [done|].
    unfold join_keys in *. simpl. rewrite Hak. simpl. unfold key_of at 1.
    rewrite Hak. simpl. by rewrite IH.
  - intros ->. by rewrite map_map.
Qed.

(** C9 (as amended).  When every record of both lists has the join key
    (an int or a string) and the second list covers every join-key value
    of the first, not the repeated ones only, [join_dictionaries]
    raises nothing and returns exactly one record per distinct join-key
    value of the first list, joined from the last record of the first list
    with that value (and the last such record of the second list); so a
    first list with a repeated join-key value gives fewer records than it
    has. *)
Theorem join_collapses_duplicates jk (A B : list record) :
  keyed jk A -> keyed jk B ->
  (forall k, k ∈ join_keys jk A -> k ∈ join_keys jk B) ->
  exists out,
    join_dictionaries items iteration A B jk = Ok out
    /\ NoDup (join_keys jk out)
    /\ (forall k, k ∈ join_keys jk out <-> k ∈ join_keys jk A)
    /\ Forall (fun r => exists k a b,
                 last_with jk A k a /\ last_with jk B k b /\ r = merge a b) out
    /\ (¬ NoDup (join_keys jk A) -> (length out < length A)%nat).
Proof.
  intros HA HB Hcover.
  destruct (join_dictionaries_spec items iteration items_perm iteration_perm jk A B
              HA HB Hcover) as (pairs & Hrun & Hnd & Hkeys & Hentries & _).
  pose proof (iteration_perm pairs Hnd) as Hperm.
  assert (Forall (fun e : value * (record * option record) =>
                    exists b, e.2.2 = Some b /\ b !! jk = Some e.1) pairs) as Hall.
  { apply Forall_forall. intros [k [a x]] Hin.
    destruct (Hentries _ _ _ Hin) as [_ (b & -> & Hb)].
    exists b. split; [done|]. by apply (last_with_elem jk B k b). }
  assert (join_keys jk (map joined (iteration pairs)) ≡ₚ pairs.*1) as Hout.
  { rewrite join_keys_joined by (by rewrite Hperm). by rewrite Hperm. }
  eexists. split; [exact Hrun|]. split; [by rewrite Hout|].
  split; [intros k; by rewrite Hout|]. split.
  - apply Forall_forall. intros r [[k [a x]] [-> Hin]]%list_elem_of_fmap.
    rewrite Hperm in Hin. destruct (Hentries _ _ _ Hin) as [Ha (b & -> & Hb)].
    by exists k, a, b.
  - intros Hdup. rewrite length_map, Hperm.
    assert (length (join_keys jk A) = length A) as <-.
    { clear -HA. induction HA as [|a A (k & Hak & _) _ IH]; [done|].
      unfold join_keys in *. simpl. rewrite Hak. simpl. by f_equal. }
    rewrite <-(length_fmap fst pairs).
    destruct (decide (length (join_keys jk A) ≤ length pairs.*1)%nat) as [Hle|]; [|lia].
    destruct Hdup. apply (NoDup_ListNoDup (join_keys jk A)).
    eapply List.NoDup_incl_NoDup; [apply NoDup_ListNoDup, Hnd|exact Hle|].
    intros k Hk. apply list_elem_of_In, Hkeys. by apply list_elem_of_In.
Qed.

End JoinClaims.

(** *** Concrete runs of the join *)

(** Two dictionary orders that satisfy what Python promises: insertion
    order, and its reverse. *)
Lemma map_to_list_items (r : record) : map_to_list r ≡ₚ map_to_list r.
Proof. done. Qed.

Lemma reverse_iteration {V} (d : list (value * V)) : NoDup d.*1 -> reverse d ≡ₚ d.
Proof. intros _. apply reverse_Permutation. Qed.

Lemma insertion_iteration {V} (d : list (value * V)) : NoDup d.*1 -> id d ≡ₚ d.
Proof. done. Qed.

Lemma sample_A_keyed : keyed "id" sample_A.
Proof. repeat constructor; by eexists (VInt _). Qed.

Lemma sample_A_repeated_keyed : keyed "id" sample_A_repeated.
Proof. repeat constructor; by eexists (VInt _). Qed.

Lemma sample_B_keyed : keyed "id" sample_B.
Proof. repeat constructor; by eexists (VInt _). Qed.

Lemma sample_A_keys : join_keys "id" sample_A = [VInt 2; VInt 1].
Proof. reflexivity. Qed.

Lemma sample_A_repeated_keys : join_keys "id" sample_A_repeated = [VInt 1; VInt 1].
Proof. reflexivity. Qed.

Lemma sample_B_keys : join_keys "id" sample_B = [VInt 1; VInt 2; VInt 3].
Proof. reflexivity. Qed.

Lemma sample_B_covers_A k : k ∈ join_keys "id" sample_A -> k ∈ join_keys "id" sample_B.
Proof.
  rewrite sample_A_keys, sample_B_keys. intros Hk.
  repeat (apply elem_of_cons in Hk as [->|Hk]); [..|by apply elem_of_nil in Hk];
    repeat first [by left|right].
Qed.

Lemma sample_B_covers_A_repeated k :
  k ∈ join_keys "id" sample_A_repeated -> k ∈ join_keys "id" sample_B.
Proof.
  rewrite sample_A_repeated_keys, sample_B_keys. intros Hk.
  repeat (apply elem_of_cons in Hk as [->|Hk]); [..|by apply elem_of_nil in Hk];
    repeat first [by left|right].
Qed.

Lemma sample_A_distinct : NoDup (join_keys "id" sample_A).
Proof.
  rewrite sample_A_keys. apply NoDup_cons. split; [|apply NoDup_singleton].
  rewrite list_elem_of_singleton. congruence.
Qed.

Lemma sample_A_repeated_not_distinct : ¬ NoDup (join_keys "id" sample_A_repeated).
Proof.
  rewrite sample_A_repeated_keys. intros [Hnin _]%NoDup_cons.
  apply Hnin. by left.
Qed.

Lemma join_merges_each_record_witness :
  (exists out,
     join_dictionaries map_to_list reverse sample_A sample_B "id" = Ok out
     /\ out ≡ₚ map (join_of "id" sample_B) sample_A
     /\ Forall (fun a => exists k b, a !! "id" = Some k /\ last_with "id" sample_B k b
                                    /\ join_of "id" sample_B a = merge a b) sample_A)
  /\ join_dictionaries map_to_list reverse
       [ {[ "id" := VInt 1; "x" := VInt 10 ]} ] [ {[ "id" := VInt 1; "y" := VInt 20 ]} ] "id"
     = Ok [ {[ "id" := VInt 1; "x" := VInt 10; "y" := VInt 20 ]} ].
Proof.
  exact (join_merges_each_record map_to_list reverse map_to_list_items reverse_iteration
           "id" sample_A sample_B sample_A_keyed sample_B_keyed sample_B_covers_A
           sample_A_distinct).
Defined.

(** C1 as stated fails on a first list with a repeated join-key value:
    the second list covers it, yet the merge of the first record is not in
    the output. *)
Lemma join_repeated_key_drops_a_record :
  (forall k, k ∈ join_keys "id" sample_A_repeated -> k ∈ join_keys "id" sample_B)
  /\ join_dictionaries map_to_list CPython27.iteration sample_A_repeated sample_B "id"
     = Ok [ {[ "id" := VInt 1; "x" := VInt 11; "y" := VInt 20 ]} ]
  /\ merge {[ "id" := VInt 1; "x" := VInt 10 ]} {[ "id" := VInt 1; "y" := VInt 20 ]}
     ∉ [ ({[ "id" := VInt 1; "x" := VInt 11; "y" := VInt 20 ]} : record) ].
Proof.
  split; [exact sample_B_covers_A_repeated|]. split; [by vm_compute|].
  rewrite list_elem_of_singleton. intros H.
  apply (f_equal (fun r : record => r !! "x")) in H. vm_compute in H. congruence.
Qed.

Lemma join_follows_dictionary_order_witness :
  exists out,
    join_dictionaries map_to_list reverse sample_A sample_B "id" = Ok out
    /\ out = map joined (reverse (map (join_entry "id" sample_B) sample_A))
    /\ join_keys "id" out ≡ₚ join_keys "id" sample_A
    /\ (reverse (map (join_entry "id" sample_B) sample_A)
        = map (join_entry "id" sample_B) sample_A ->
        out = map (join_of "id" sample_B) sample_A).
Proof.
  exact (join_follows_dictionary_order map_to_list reverse map_to_list_items
           reverse_iteration "id" sample_A sample_B sample_A_keyed sample_B_keyed
           sample_B_covers_A sample_A_distinct).
Defined.

(** C3 as stated fails under CPython 2.7: the first list has the join-key
    values 2, 1 in that order, and the output has them in the order 1, 2. *)
Lemma join_output_not_in_input_order :
  join_keys "id" sample_A = [VInt 2; VInt 1]
  /\ exists out,
       join_dictionaries map_to_list CPython27.iteration sample_A sample_B "id" = Ok out
       /\ out = [ {[ "id" := VInt 1; "x" := VInt 11; "y" := VInt 20 ]};
                  {[ "id" := VInt 2; "x" := VInt 10; "y" := VInt 21 ]} ]
       /\ join_keys "id" out = [VInt 1; VInt 2].
Proof.
  split; [reflexivity|]. eexists. split; [by vm_compute|]. split; reflexivity.
Qed.

Lemma join_collapses_duplicates_witness :
  exists out,
    join_dictionaries map_to_list reverse sample_A_repeated sample_B "id" = Ok out
    /\ NoDup (join_keys "id" out)
    /\ (forall k, k ∈ join_keys "id" out <-> k ∈ join_keys "id" sample_A_repeated)
    /\ Forall (fun r => exists k a b,
                 last_with "id" sample_A_repeated k a /\ last_with "id" sample_B k b
                 /\ r = merge a b) out
    /\ (¬ NoDup (join_keys "id" sample_A_repeated) ->
        (length out < length sample_A_repeated)%nat).
Proof.
  exact (join_collapses_duplicates map_to_list reverse map_to_list_items
           reverse_iteration "id" sample_A_repeated sample_B sample_A_repeated_keyed
           sample_B_keyed sample_B_covers_A_repeated).
Defined.

(** C9 as stated fails when the second list covers the repeated join-key
    value and not the others: the first list has the values 1, 1, 2, the
    second has 1 only, and the entry of 2 keeps [None] in its second place,
    so that [None.items()] raises [AttributeError], in whichever of the two
    orders the dictionary is iterated. *)
Lemma join_repeated_key_partly_covered_raises :
  join_keys "id" sample_A_partly_covered = [VInt 1; VInt 1; VInt 2]
  /\ join_keys "id" sample_B_single = [VInt 1]
  /\ join_dictionaries map_to_list CPython27.iteration
       sample_A_partly_covered sample_B_single "id" = Err AttributeError
  /\ join_dictionaries map_to_list (fun d => d)
       sample_A_partly_covered sample_B_single "id" = Err AttributeError.
Proof. repeat split; by vm_compute. Qed.

(** ** normalize_users *)

Lemma bump_is_Some f excluded a acc x : is_Some (bump f excluded a acc x) <-> is_Some acc.
Proof. destruct acc, x; simpl; split; intros [? ?]; eauto; done. Qed.

Section NormalizeFacts.

Variable iteritems : record -> list (string * value).
Hypothesis iteritems_perm : forall r, iteritems r ≡ₚ map_to_list r.

Lemma iteritems_NoDup r : NoDup (iteritems r).*1.
Proof. rewrite iteritems_perm. apply NoDup_fst_map_to_list. Qed.

Lemma iteritems_lookup r : (list_to_map (iteritems r) : record) = r.
Proof.
  transitivity (list_to_map (map_to_list r) : record); [|apply list_to_map_to_list].
  apply list_to_map_proper; [apply iteritems_NoDup | apply iteritems_perm].
Qed.

Lemma iteritems_elem r a v : (a, v) ∈ iteritems r <-> r !! a = Some v.
Proof. by rewrite iteritems_perm, elem_of_map_to_list. Qed.

Variable excluded : gset string.

(** The scan of one user's entries (lines 106-109), when it raises
    nothing. *)
Lemma extremes_of_entries (l : list (string * value)) (mx mn mx' mn' : record) :
  NoDup l.*1 ->
  foldM (extremes_step excluded) (mx, mn) l = Ok (mx', mn') ->
  forall a,
    mx' !! a = bump py_max excluded a (mx !! a) ((list_to_map l : record) !! a)
    /\ mn' !! a = bump py_min excluded a (mn !! a) ((list_to_map l : record) !! a).
Proof.
  revert mx mn. induction l as [|[a0 v0] l IH]; intros mx mn Hnd Hrun a.
  - simpl in Hrun. injection Hrun as <- <-. rewrite list_to_map_nil, lookup_empty.
    by destruct (mx !! a), (mn !! a).
  - rewrite fmap_cons in Hnd. cbn [fst] in Hnd.
    apply NoDup_cons in Hnd as [Hnin Hnd]. simpl in Hrun.
    pose proof (not_elem_of_list_to_map_1 (M:=gmap string) l a0 Hnin) as Hnone.
    change (list_to_map ((a0, v0) :: l) : record) with (<[a0 := v0]> (list_to_map l) : record).
    destruct (decide (a0 ∈ excluded)) as [Hex|Hex]; simpl in Hrun.
    + destruct (IH _ _ Hnd Hrun a) as [-> ->].
      destruct (decide (a = a0)) as [->|Hne].
      * rewrite lookup_insert_eq, Hnone. unfold bump.
        destruct (mx !! a0), (mn !! a0); simpl; by rewrite ?decide_True by done.
      * by rewrite lookup_insert_ne.
    + unfold getitem in Hrun.
      destruct (mx !! a0) as [m0|] eqn:Hm0; [|done]. simpl in Hrun.
      destruct (mn !! a0) as [n0|] eqn:Hn0; [|done]. simpl in Hrun.
      destruct (IH _ _ Hnd Hrun a) as [-> ->].
      destruct (decide (a = a0)) as [->|Hne].
      * rewrite !lookup_insert_eq, Hnone, Hm0, Hn0. unfold bump.
        by rewrite !decide_False by done.
      * by rewrite !lookup_insert_ne.
Qed.

Lemma extremes_of_entries_total (l : list (string * value)) (mx mn : record) :
  (forall a v, (a, v) ∈ l -> a ∉ excluded -> is_Some (mx !! a) /\ is_Some (mn !! a)) ->
  is_Ok (foldM (extremes_step excluded) (mx, mn) l).
Proof.
  revert mx mn. induction l as [|[a0 v0] l IH]; intros mx mn Hdom; [by eexists|].
  simpl. destruct (decide (a0 ∈ excluded)) as [Hex|Hex]; simpl.
  - apply IH. intros a v Hin. apply (Hdom a v). by right.
  - destruct (Hdom a0 v0) as [[m0 Hm0] [n0 Hn0]]; [by left|done|].
    unfold getitem. rewrite Hm0. simpl. rewrite Hn0. simpl.
    apply IH. intros a v Hin Ha. destruct (Hdom a v) as [Hx Hn]; [by right|done|].
    destruct (decide (a = a0)) as [->|Hne].
    + rewrite !lookup_insert_eq. by split.
    + by rewrite !lookup_insert_ne.
Qed.

(** The scan of all users (lines 105-109). *)
Lemma extremes_of_users (h : list record) (users : list nat) (mx mn mx' mn' : record) :
  foldM (fun acc u => foldM (extremes_step excluded) acc (iteritems (h !!! u)))
        (mx, mn) users = Ok (mx', mn') ->
  forall a,
    mx' !! a = fold_left (fun o u => bump py_max excluded a o ((h !!! u : record) !! a))
                         users (mx !! a)
    /\ mn' !! a = fold_left (fun o u => bump py_min excluded a o ((h !!! u : record) !! a))
                            users (mn !! a).
Proof.
  revert mx mn. induction users as [|u users IH]; intros mx mn Hrun a.
  - simpl in Hrun. by injection Hrun as <- <-.
  - simpl in Hrun.
    destruct (foldM (extremes_step excluded) (mx, mn) (iteritems (h !!! u)))
      as [[mx1 mn1]|e] eqn:Hu; [|done]. simpl in Hrun.
    destruct (IH _ _ Hrun a) as [-> ->].
    destruct (extremes_of_entries _ _ _ _ _ (iteritems_NoDup _) Hu a) as [-> ->].
    by rewrite iteritems_lookup.
Qed.

Lemma extremes_of_users_total (h : list record) (users : list nat) (mx mn : record) :
  (forall u a, u ∈ users -> is_Some ((h !!! u : record) !! a) -> a ∉ excluded ->
               is_Some (mx !! a) /\ is_Some (mn !! a)) ->
  is_Ok (foldM (fun acc u => foldM (extremes_step excluded) acc (iteritems (h !!! u)))
               (mx, mn) users).
Proof.
  revert mx mn. induction users as [|u users IH]; intros mx mn Hdom; [by eexists|].
  simpl.
  destruct (extremes_of_entries_total (iteritems (h !!! u)) mx mn) as [[mx1 mn1] Hu].
  { intros a v Hin. apply (Hdom u a); [by left|].
    apply iteritems_elem in Hin. by eexists. }
  rewrite Hu. simpl. apply IH. intros u' a Hu' Ha Hex.
  destruct (extremes_of_entries _ _ _ _ _ (iteritems_NoDup _) Hu a) as [-> ->].
  rewrite !bump_is_Some. apply (Hdom u' a); [by right|done..].
Qed.

Lemma column_fold f init (h : list record) (users : list nat) a :
  a ∉ excluded ->
  fold_left (fun o u => bump f excluded a o ((h !!! u : record) !! a)) users (Some init)
  = Some (column f init h users a).
Proof.
  intros Hex. unfold column. revert init.
  induction users as [|u users IH]; intros init; [done|]. simpl.
  destruct ((h !!! u : record) !! a) as [v|]; simpl; [|apply IH].
  rewrite decide_False by done. apply IH.
Qed.

Lemma rescale_quotient (mx mn : record) a v vmx vmn :
  mx !! a = Some vmx -> mn !! a = Some vmn ->
  rescale mx mn a v = quotient v vmn vmx.
Proof.
  unfold rescale, quotient, getitem. intros -> ->. simpl.
  destruct (py_sub v vmn) as [d|]; simpl; [|done].
  by destruct (py_float d).
Qed.

Lemma normalize_entries (mx mn : record) (u : nat) (h : list record) l :
  (forall a v, (a, v) ∈ l -> a ∉ excluded -> is_Ok (rescale mx mn a v)) ->
  for_each (normalize_step excluded mx mn u) h l
  = (alter (rewritten excluded mx mn l) u h, Ok tt).
Proof.
  revert h. induction l as [|[a v] l IH]; intros h Hok; simpl.
  - by rewrite list_alter_id.
  - assert (forall a' v', (a', v') ∈ l -> a' ∉ excluded -> is_Ok (rescale mx mn a' v'))
      as Hok' by (intros a' v' Hin; apply Hok; by right).
    destruct (decide (a ∈ excluded)) as [Hex|Hex].
    + rewrite (IH h Hok'). f_equal. apply list_alter_ext; [|done].
      intros r _. unfold rewritten. simpl. by rewrite decide_True.
    + destruct (Hok a v) as [q Hq]; [by left|done|]. rewrite Hq.
      rewrite (IH _ Hok'). unfold setattr. rewrite list_alter_alter_eq.
      f_equal. apply list_alter_ext; [|done].
      intros r _. unfold rewritten. simpl. by rewrite decide_False, Hq.
Qed.

Lemma rewritten_lookup (mx mn : record) l (r : record) a :
  NoDup l.*1 ->
  (forall a v, (a, v) ∈ l -> a ∉ excluded -> is_Ok (rescale mx mn a v)) ->
  rewritten excluded mx mn l r !! a
  = match (list_to_map l : record) !! a with
    | Some v =>
        if decide (a ∈ excluded) then r !! a
        else match rescale mx mn a v with
             | Ok q => Some (VFloat q)
             | Err _ => r !! a
             end
    | None => r !! a
    end.
Proof.
  revert r. induction l as [|[a0 v0] l IH]; intros r Hnd Hok.
  - by rewrite list_to_map_nil, lookup_empty.
  - rewrite fmap_cons in Hnd. cbn [fst] in Hnd.
    apply NoDup_cons in Hnd as [Hnin Hnd].
    pose proof (not_elem_of_list_to_map_1 (M:=gmap string) l a0 Hnin) as Hnone.
    assert (forall a' v', (a', v') ∈ l -> a' ∉ excluded -> is_Ok (rescale mx mn a' v'))
      as Hok' by (intros a' v' Hin; apply Hok; by right).
    change (list_to_map ((a0, v0) :: l) : record)
      with (<[a0 := v0]> (list_to_map l) : record).
    change (rewritten excluded mx mn ((a0, v0) :: l) r)
      with (rewritten excluded mx mn l
              (if decide (a0 ∈ excluded) then r
               else match rescale mx mn a0 v0 with
                    | Ok q => <[a0 := VFloat q]> r
                    | Err _ => r
                    end)).
    destruct (decide (a0 ∈ excluded)) as [Hex|Hex].
    + rewrite (IH r Hnd Hok'). destruct (decide (a = a0)) as [->|Hne].
      * by rewrite lookup_insert_eq, Hnone, decide_True.
      * by rewrite lookup_insert_ne.
    + destruct (Hok a0 v0) as [q Hq]; [by left|done|]. rewrite Hq.
      rewrite (IH _ Hnd Hok'). destruct (decide (a = a0)) as [->|Hne].
      * by rewrite !lookup_insert_eq, Hnone, decide_False, Hq.
      * by rewrite !lookup_insert_ne.
Qed.

Section AllUsers.

Variable h : list record.
Variable users : list nat.
Variables mx mn : record.

(** [max_user] and [min_user] hold the column extremes, and every
    quotient is defined. *)
Hypothesis extremes_found : forall u a, u ∈ users ->
  is_Some ((h !!! u : record) !! a) -> a ∉ excluded ->
  mx !! a = Some (column_max h users a) /\ mn !! a = Some (column_min h users a).
Hypothesis quotients_defined : forall u a v, u ∈ users ->
  (h !!! u : record) !! a = Some v -> a ∉ excluded ->
  is_Ok (quotient v (column_min h users a) (column_max h users a)).

Lemma rewritten_normalized u :
  u ∈ users ->
  rewritten excluded mx mn (iteritems (h !!! u)) (h !!! u) = normalized_record excluded h users (h !!! u).
Proof.
  intros Hu. apply map_eq. intros a.
  assert (forall a v, (a, v) ∈ iteritems (h !!! u) -> a ∉ excluded ->
                      rescale mx mn a v = quotient v (column_min h users a) (column_max h users a))
    as Hrescale.
  { intros a' v' Hin%iteritems_elem Hex.
    destruct (extremes_found u a' Hu) as [Hmx Hmn]; [by eexists|done|].
    by apply rescale_quotient. }
  rewrite rewritten_lookup.
  - rewrite iteritems_lookup. unfold normalized_record. rewrite map_lookup_imap.
    destruct ((h !!! u : record) !! a) as [v|] eqn:Hv; simpl; [|done].
    destruct (decide (a ∈ excluded)) as [Hex|Hex]; [done|].
    rewrite Hrescale by (by rewrite ?iteritems_elem).
    by destruct (quotients_defined u a v Hu Hv Hex) as [q ->].
  - apply iteritems_NoDup.
  - intros a' v' Hin Hex. rewrite Hrescale by done.
    apply (quotients_defined u); [done| |done]. by apply iteritems_elem.
Qed.

Lemma normalize_all_users (us : list nat) (hc : list record) :
  NoDup us -> (forall u, u ∈ us -> u ∈ users /\ hc !!! u = h !!! u) ->
  for_each (fun hc u => for_each (normalize_step excluded mx mn u) hc (iteritems (hc !!! u)))
           hc us
  = (fold_left (fun h' u => alter (normalized_record excluded h users) u h') us hc, Ok tt).
Proof.
  revert hc. induction us as [|u us IH]; intros hc Hnd Hsame; [done|].
  apply NoDup_cons in Hnd as [Hnin Hnd]. simpl.
  destruct (Hsame u) as [Hu Hhu]; [by left|].
  rewrite normalize_entries.
  - assert (alter (rewritten excluded mx mn (iteritems (hc !!! u))) u hc
            = alter (normalized_record excluded h users) u hc) as ->.
    { apply list_alter_ext; [|done]. intros r Hr.
      apply list_lookup_total_correct in Hr. rewrite <-Hr, Hhu.
      by apply rewritten_normalized. }
    apply IH; [done|]. intros u' Hu'. destruct (Hsame u') as [? <-]; [by right|].
    split; [done|]. apply list_lookup_total_alter_ne. by intros ->.
  - intros a v Hin Hex. rewrite Hhu in Hin. apply iteritems_elem in Hin.
    destruct (extremes_found u a Hu) as [Hmx Hmn]; [by eexists|done|].
    rewrite (rescale_quotient mx mn a v _ _ Hmx Hmn). by apply (quotients_defined u).
Qed.

End AllUsers.

End NormalizeFacts.

(** *** Floats *)










Lemma quotient_string s mn mx : quotient (VStr s) mn mx = Err TypeError.
Proof. done. Qed.

(** *** The normalization claims *)

Lemma for_each_raises {S A} (body : S -> A -> S * result unit) (l : list A) (x : A) s :
  x ∈ l -> (forall s, is_Err (body s x).2) -> is_Err (for_each body s l).2.
Proof.
  intros Hx Hbody. revert s. induction l as [|y l IH]; intros s.
  - by apply elem_of_nil in Hx.
  - simpl. destruct (body s y) as [s' [[]|e]] eqn:Hy; [|done].
    apply elem_of_cons in Hx as [->|Hx]; [|by apply IH].
    specialize (Hbody s). by rewrite Hy in Hbody.
Qed.

Lemma alter_each_lookup {A} (f : A -> A) (users : list nat) (h : list A) (i : nat) :
  NoDup users ->
  fold_left (fun h' u => alter f u h') users h !! i
  = if decide (i ∈ users) then f <$> h !! i else h !! i.
Proof.
  revert h. induction users as [|u users IH]; intros h Hnd; [done|].
  apply NoDup_cons in Hnd as [Hnin Hnd]. simpl. rewrite (IH _ Hnd).
  destruct (decide (i = u)) as [->|Hne].
  - rewrite decide_False, decide_True by (done || by left).
    apply list_lookup_alter_eq.
  - rewrite list_lookup_alter_ne by done.
    destruct (decide (i ∈ users)) as [Hi|Hi].
    + by rewrite decide_True by (by right).
    + rewrite decide_False; [done|]. by intros [?|?]%elem_of_cons.
Qed.

Lemma alter_each_length {A} (f : A -> A) (users : list nat) (h : list A) :
  length (fold_left (fun h' u => alter f u h') users h) = length h.
Proof.
  revert h. induction users as [|u users IH]; intros h; [done|].
  simpl. by rewrite IH, length_alter.
Qed.


Section NormalizeClaims.

Variable iteritems : record -> list (string * value).
Hypothesis iteritems_perm : forall r, iteritems r ≡ₚ map_to_list r.

Lemma normalize_users_nonempty (h : list record) (u0 : nat) (us : list nat)
    (excluded_attributes : list string) :
  normalize_users iteritems h (u0 :: us) excluded_attributes
  = match foldM (fun acc u =>
                   foldM (extremes_step (list_to_set excluded_attributes)) acc
                         (iteritems (h !!! u)))
                ((fun _ => VFloat neg_infinity) <$> (h !!! u0 : record),
                 (fun _ => VFloat infinity) <$> (h !!! u0 : record)) (u0 :: us) with
    | Err e => (h, Err e)
    | Ok (max_user, min_user) =>
        match for_each (fun h u =>
                          for_each (normalize_step (list_to_set excluded_attributes)
                                                   max_user min_user u) h
                                   (iteritems (h !!! u)))
                       h (u0 :: us) with
        | (h', Ok _) => (h', Ok (u0 :: us))
        | (h', Err e) => (h', Err e)
        end
    end.
Proof. reflexivity. Qed.

(** [normalize_users] as a function on the store, when it raises nothing. *)
Lemma normalize_users_closed_form (h : list record) (users : list nat)
    (excluded_attributes : list string) :
  users ≠ [] -> NoDup users ->
  (forall u a, u ∈ users -> is_Some ((h !!! u : record) !! a) ->
               a ∉ excluded_attributes -> is_Some ((h !!! hd 0%nat users : record) !! a)) ->
  (forall u a v, u ∈ users -> (h !!! u : record) !! a = Some v ->
                 a ∉ excluded_attributes ->
                 is_Ok (quotient v (column_min h users a) (column_max h users a))) ->
  normalize_users iteritems h users excluded_attributes
  = (fold_left (fun h' u =>
                  alter (normalized_record (list_to_set excluded_attributes) h users) u h')
               users h,
     Ok users).
Proof.
  intros Hne Hnd Hvocab Hdef.
  destruct users as [|u0 us]; [done|]. clear Hne. simpl in Hvocab.
  rewrite normalize_users_nonempty.
  set (users := u0 :: us) in *.
  set (excluded := list_to_set excluded_attributes : gset string).
  assert (forall a, a ∉ excluded <-> a ∉ excluded_attributes) as Hexcl.
  { intros a. unfold excluded. by rewrite elem_of_list_to_set. }
  set (mx0 := (fun _ => VFloat neg_infinity) <$> (h !!! u0 : record)).
  set (mn0 := (fun _ => VFloat infinity) <$> (h !!! u0 : record)).
  destruct (extremes_of_users_total iteritems iteritems_perm excluded h users mx0 mn0)
    as [[mx mn] Hrun].
  { intros u a Hu Ha Hex. unfold mx0, mn0. rewrite !lookup_fmap, !fmap_is_Some.
    split; apply (Hvocab u a Hu Ha); by apply Hexcl. }
  rewrite Hrun.
  rewrite (normalize_all_users iteritems iteritems_perm excluded h users mx mn);
    [done| | |done|done].
  - intros u a Hu Ha Hex.
    destruct (extremes_of_users iteritems iteritems_perm excluded h users _ _ _ _ Hrun a)
      as [-> ->].
    destruct (Hvocab u a Hu Ha) as [v0 Hv0]; [by apply Hexcl|].
    assert (mx0 !! a = Some (VFloat neg_infinity)) as ->
      by (unfold mx0; by rewrite lookup_fmap, Hv0).
    assert (mn0 !! a = Some (VFloat infinity)) as ->
      by (unfold mn0; by rewrite lookup_fmap, Hv0).
    by rewrite !column_fold.
  - intros u a v Hu Hv Hex. apply (Hdef u a v Hu Hv). by apply Hexcl.
Qed.

(** C6 (as amended).  For a non-empty list of distinct user objects in
    which every attribute outside [excluded_attributes] belongs to the
    first user and has a defined quotient
    [float(value - min) / (max - min)] for every user (so [max] differs
    from [min]), [min] and [max] being taken over that attribute across the
    whole list: [normalize_users] returns its argument, has rewritten each
    such value to that quotient and has left alone the excluded attributes
    and the rest of the store; and a column 0, 5, 10 becomes 0.0, 0.5,
    1.0. *)
Theorem normalize_rescales_each_attribute (h : list record) (users : list nat)
    (excluded_attributes : list string) :
  users ≠ [] -> NoDup users ->
  (forall u a, u ∈ users -> is_Some ((h !!! u : record) !! a) ->
               a ∉ excluded_attributes -> is_Some ((h !!! hd 0%nat users : record) !! a)) ->
  (forall u a v, u ∈ users -> (h !!! u : record) !! a = Some v ->
                 a ∉ excluded_attributes ->
                 is_Ok (quotient v (column_min h users a) (column_max h users a))) ->
  (exists h',
     normalize_users iteritems h users excluded_attributes = (h', Ok users)
     /\ length h' = length h
     /\ (forall i, i ∉ users -> h' !! i = h !! i)
     /\ forall u a, u ∈ users ->
          match (h !!! u : record) !! a with
          | None => (h' !!! u : record) !! a = None
          | Some v =>
              if decide (a ∈ excluded_attributes) then (h' !!! u : record) !! a = Some v
              else exists q,
                quotient v (column_min h users a) (column_max h users a) = Ok q
                /\ (h' !!! u : record) !! a = Some (VFloat q)
          end)
  /\ normalize_users iteritems
       [ {[ "x" := VInt 0 ]}; {[ "x" := VInt 5 ]}; {[ "x" := VInt 10 ]} ] [0; 1; 2]%nat []
     = ([ {[ "x" := VFloat 0 ]}; {[ "x" := VFloat 0.5 ]}; {[ "x" := VFloat 1 ]} ],
        Ok [0; 1; 2]%nat).
Proof.
  intros Hne Hnd Hvocab Hdef. split.
  - eexists. split; [by apply normalize_users_closed_form|].
    split; [apply alter_each_length|]. split.
    + intros i Hi. by rewrite alter_each_lookup, decide_False.
    + intros u a Hu.
      set (N := normalized_record (list_to_set excluded_attributes) h users).
      assert ((fold_left (fun h' u => alter N u h') users h !!! u : record) !! a
              = N (h !!! u) !! a) as ->.
      { rewrite !list_lookup_total_alt, alter_each_lookup, decide_True by done.
        destruct (h !! u) as [r|]; [done|]. simpl. unfold N, normalized_record.
        by rewrite map_lookup_imap, lookup_empty. }
      unfold N, normalized_record. rewrite map_lookup_imap.
      destruct ((h !!! u : record) !! a) as [v|] eqn:Hv; simpl; [|done].
      destruct (decide (a ∈ excluded_attributes)) as [Hex|Hex].
      * rewrite decide_True; [done|]. by apply elem_of_list_to_set.
      * rewrite decide_False by (by rewrite elem_of_list_to_set).
        destruct (Hdef u a v Hu Hv Hex) as [q Hq]. exists q. by rewrite Hq.
  - rewrite normalize_users_closed_form; [by vm_compute|done| | |].
    + apply (bool_decide_unpack _). by vm_compute.
    + intros u a Hu [v Hv] _.
      assert (a = "x") as ->; [|by eexists].
      repeat (apply elem_of_cons in Hu as [->|Hu]);
        [..|by apply elem_of_nil in Hu];
        cbn [lookup_total list_lookup_total] in Hv;
        by apply lookup_singleton_Some in Hv as [<- _].
    + intros u a v Hu Hv _.
      repeat (apply elem_of_cons in Hu as [->|Hu]);
        [..|by apply elem_of_nil in Hu];
        cbn [lookup_total list_lookup_total] in Hv;
        apply lookup_singleton_Some in Hv as [<- <-]; eexists; by vm_compute.
Qed.


(** C10.  On the empty list [normalize_users] raises [IndexError] (from
    [users[0]]) and changes nothing. *)
Theorem normalize_empty_raises (h : list record) (excluded_attributes : list string) :
  normalize_users iteritems h [] excluded_attributes = (h, Err IndexError).
Proof. reflexivity. Qed.

End NormalizeClaims.

(** *** Concrete runs of the normalization *)

Lemma sample_store_users_distinct : NoDup [0; 1; 2]%nat.
Proof. apply (bool_decide_unpack _). by vm_compute. Qed.

Lemma sample_store_users_nonempty : [0; 1; 2]%nat ≠ [].
Proof. done. Qed.

Lemma sample_store_cases (P : nat -> Prop) u :
  u ∈ [0; 1; 2]%nat -> P 0%nat -> P 1%nat -> P 2%nat -> P u.
Proof.
  intros Hu H0 H1 H2.
  repeat (apply elem_of_cons in Hu as [->|Hu]); try done. by apply elem_of_nil in Hu.
Qed.

Lemma sample_store_vocabulary u a :
  u ∈ [0; 1; 2]%nat -> is_Some ((sample_store !!! u : record) !! a) -> a ∉ ["ID"] ->
  is_Some ((sample_store !!! hd 0%nat [0; 1; 2]%nat : record) !! a).
Proof.
  intros Hu [v Hv] _. revert Hv. pattern u. apply (sample_store_cases _ u Hu);
    cbn [lookup_total list_lookup_total sample_store];
    intros Hv; apply lookup_insert_Some in Hv as [[<- _]|[_ [<- _]%lookup_singleton_Some]];
    by eexists.
Qed.

Lemma sample_store_defined u a v :
  u ∈ [0; 1; 2]%nat -> (sample_store !!! u : record) !! a = Some v -> a ∉ ["ID"] ->
  is_Ok (quotient v (column_min sample_store [0; 1; 2]%nat a)
                  (column_max sample_store [0; 1; 2]%nat a)).
Proof.
  intros Hu Hv Hex. revert Hv. pattern u. apply (sample_store_cases _ u Hu);
    cbn [lookup_total list_lookup_total sample_store];
    intros Hv; apply lookup_insert_Some in Hv as [[<- _]|[_ [<- <-]%lookup_singleton_Some]];
    try (destruct Hex; by left); eexists; by vm_compute.
Qed.

Lemma normalize_rescales_each_attribute_witness :
  (exists h',
     normalize_users map_to_list sample_store [0; 1; 2]%nat ["ID"]
     = (h', Ok [0; 1; 2]%nat)
     /\ length h' = length sample_store
     /\ (forall i, i ∉ [0; 1; 2]%nat -> h' !! i = sample_store !! i)
     /\ forall u a, u ∈ [0; 1; 2]%nat ->
          match (sample_store !!! u : record) !! a with
          | None => (h' !!! u : record) !! a = None
          | Some v =>
              if decide (a ∈ ["ID"]) then (h' !!! u : record) !! a = Some v
              else exists q,
                quotient v (column_min sample_store [0; 1; 2]%nat a)
                         (column_max sample_store [0; 1; 2]%nat a) = Ok q
                /\ (h' !!! u : record) !! a = Some (VFloat q)
          end)
  /\ normalize_users map_to_list
       [ {[ "x" := VInt 0 ]}; {[ "x" := VInt 5 ]}; {[ "x" := VInt 10 ]} ] [0; 1; 2]%nat []
     = ([ {[ "x" := VFloat 0 ]}; {[ "x" := VFloat 0.5 ]}; {[ "x" := VFloat 1 ]} ],
        Ok [0; 1; 2]%nat).
Proof.
  exact (normalize_rescales_each_attribute map_to_list map_to_list_items
           sample_store [0; 1; 2]%nat ["ID"] sample_store_users_nonempty
           sample_store_users_distinct sample_store_vocabulary sample_store_defined).
Defined.

(** C6 as stated fails on numeric records with a constant attribute:
    nothing is rewritten, the division raises. *)
Lemma normalize_constant_column_raises :
  normalize_users map_to_list constant_store [0; 1]%nat []
  = (constant_store, Err ZeroDivisionError).
Proof. by vm_compute. Qed.






(** ** stratified_boolean_sample *)

Lemma filterM_labelled label_name n (users : list record) :
  Forall (fun user => is_Some (user !! label_name)) users ->
  filterM (label_is label_name n) users = Ok (List.filter (labelled label_name n) users).
Proof.
  induction 1 as [|user users [v Hv] _ IH]; [done|].
  cbn [filterM List.filter]. rewrite IH.
  unfold label_is, getitem, labelled. by rewrite Hv.
Qed.

Lemma filter_submseteq {A} (f : A -> bool) (l : list A) : List.filter f l ⊆+ l.
Proof.
  induction l as [|x l IH]; simpl; [done|].
  destruct (f x); [by apply submseteq_skip|by apply submseteq_cons].
Qed.

Lemma submseteq_filter_Forall {A} (f : A -> bool) (s l : list A) :
  s ⊆+ List.filter f l -> Forall (fun x => f x = true) s.
Proof.
  intros Hs. apply Forall_forall. intros x Hx.
  assert (x ∈ List.filter f l) as Hin by (by apply (elem_of_submseteq s)).
  apply list_elem_of_In, List.filter_In in Hin. tauto.
Qed.

Section SampleClaims.

Variable rng : Type.
Variable random_sample : rng -> list record -> nat -> result (list record * rng).

(** What [random.sample] promises: [k] elements of the population, none
    taken twice. *)
Hypothesis random_sample_spec : forall g population k,
  (k <= length population)%nat ->
  exists s g', random_sample g population k = Ok (s, g')
               /\ length s = k /\ s ⊆+ population.

(** C8.  When every user has the label attribute (in particular when it
    is 0 or 1 for every user), [stratified_boolean_sample] returns a pair
    of lists, each as long as the smaller of the two classes; the first
    holds users with [label == 1] and the second users with [label == 0],
    each drawn without replacement from the users of its class (so from the
    input); with 3 positive and 7 negative users both lists have 3
    users. *)
Theorem stratified_sample_balanced (g : rng) (users : list record) (label_name : string) :
  Forall (fun user => is_Some (user !! label_name)) users ->
  let positives := List.filter (labelled label_name 1) users in
  let negatives := List.filter (labelled label_name 0) users in
  exists pos neg g',
    stratified_boolean_sample rng random_sample g users label_name = Ok ((pos, neg), g')
    /\ length pos = Nat.min (length positives) (length negatives)
    /\ length neg = Nat.min (length positives) (length negatives)
    /\ pos ⊆+ positives /\ neg ⊆+ negatives
    /\ pos ⊆+ users /\ neg ⊆+ users
    /\ Forall (fun user => labelled label_name 1 user = true) pos
    /\ Forall (fun user => labelled label_name 0 user = true) neg
    /\ (length positives = 3%nat -> length negatives = 7%nat ->
        length pos = 3%nat /\ length neg = 3%nat).
Proof.
  intros Hlabel positives negatives.
  assert (exists pos neg g',
    stratified_boolean_sample rng random_sample g users label_name = Ok ((pos, neg), g')
    /\ length pos = Nat.min (length positives) (length negatives)
    /\ length neg = Nat.min (length positives) (length negatives)
    /\ pos ⊆+ positives /\ neg ⊆+ negatives) as (pos & neg & g' & Hrun & Hp & Hn & Hsp & Hsn).
  { unfold stratified_boolean_sample.
    rewrite !filterM_labelled by done. simpl. fold positives negatives.
    destruct (length positives <? length negatives)%nat eqn:E.
    - apply Nat.ltb_lt in E.
      destruct (random_sample_spec g negatives (length positives))
        as (s & g' & -> & Hlen & Hsub); [lia|].
      exists positives, s, g'. simpl. repeat split; [lia|lia|done|done].
    - apply Nat.ltb_ge in E.
      destruct (random_sample_spec g positives (length negatives))
        as (s & g' & -> & Hlen & Hsub); [lia|].
      exists s, negatives, g'. simpl. repeat split; [lia|lia|done|done]. }
  exists pos, neg, g'. repeat split; try done.
  - etrans; [exact Hsp|apply filter_submseteq].
  - etrans; [exact Hsn|apply filter_submseteq].
  - by apply (submseteq_filter_Forall _ _ users).
  - by apply (submseteq_filter_Forall _ _ users).
  - lia.
  - lia.
Qed.

End SampleClaims.

(** *** A concrete run of the sampling *)

Lemma first_k_spec g (population : list record) k :
  (k <= length population)%nat ->
  exists s g', first_k g population k = Ok (s, g') /\ length s = k /\ s ⊆+ population.
Proof.
  intros Hk. exists (take k population), g. unfold first_k.
  rewrite (proj2 (Nat.leb_le _ _) Hk). repeat split.
  - rewrite length_take. lia.
  - apply sublist_submseteq, sublist_take.
Qed.

Lemma labelled_users_have_label :
  Forall (fun user : record => is_Some (user !! "label")) labelled_users.
Proof. repeat constructor; by eexists. Qed.

Lemma stratified_sample_balanced_witness :
  let positives := List.filter (labelled "label" 1) labelled_users in
  let negatives := List.filter (labelled "label" 0) labelled_users in
  exists pos neg g',
    stratified_boolean_sample unit first_k tt labelled_users "label" = Ok ((pos, neg), g')
    /\ length pos = Nat.min (length positives) (length negatives)
    /\ length neg = Nat.min (length positives) (length negatives)
    /\ pos ⊆+ positives /\ neg ⊆+ negatives
    /\ pos ⊆+ labelled_users /\ neg ⊆+ labelled_users
    /\ Forall (fun user => labelled "label" 1 user = true) pos
    /\ Forall (fun user => labelled "label" 0 user = true) neg
    /\ (length positives = 3%nat -> length negatives = 7%nat ->
        length pos = 3%nat /\ length neg = 3%nat).
Proof.
  exact (stratified_sample_balanced unit first_k first_k_spec tt labelled_users "label"
           labelled_users_have_label).
Defined.

(** ** Attribute files *)

(** *** Lines and tokens *)

Lemma string_app_cons c (s t : string) : String c s +:+ t = String c (s +:+ t).
Proof. reflexivity. Qed.

Lemma string_app_nil_l (t : string) : "" +:+ t = t.
Proof. reflexivity. Qed.

Lemma string_app_assoc (s1 s2 s3 : string) : (s1 +:+ s2) +:+ s3 = s1 +:+ (s2 +:+ s3).
Proof.
  induction s1 as [|c s1 IH]; [done|]. by rewrite !string_app_cons, IH.
Qed.

Lemma string_app_nil_r (s : string) : s +:+ "" = s.
Proof. induction s as [|c s IH]; [done|]. by rewrite string_app_cons, IH. Qed.

Lemma snoc_app (s : string) c (t : string) : snoc s c +:+ t = s +:+ String c t.
Proof. unfold snoc. by rewrite string_app_assoc. Qed.

Lemma string_app_eq_nil (s1 s2 : string) : s1 +:+ s2 = "" -> s1 = "" /\ s2 = "".
Proof. by destruct s1. Qed.

Lemma no_space_app (s1 s2 : string) :
  no_space (s1 +:+ s2) = no_space s1 && no_space s2.
Proof.
  induction s1 as [|c s1 IH]; [done|].
  rewrite string_app_cons. simpl. by rewrite IH, andb_assoc.
Qed.

(** Reading a run of non-space bytes extends the current token. *)
Lemma split_from_run (tok t rest : string) :
  no_space t = true -> split_from tok (t +:+ rest) = split_from (tok +:+ t) rest.
Proof.
  revert tok. induction t as [|c t IH]; intros tok Ht.
  - by rewrite string_app_nil_r.
  - simpl in Ht. apply andb_true_iff in Ht as [Hc Ht].
    apply negb_true_iff in Hc. rewrite string_app_cons. simpl.
    rewrite Hc, (IH _ Ht). by rewrite snoc_app.
Qed.

(** A token followed by a space is split off. *)
Lemma split_token_space (t : string) c (rest : string) :
  token t -> is_space c = true ->
  split_from "" (t +:+ String c rest) = t :: split_from "" rest.
Proof.
  intros [Hne Ht] Hc. rewrite split_from_run by done. simpl. rewrite Hc.
  by rewrite decide_False.
Qed.

Lemma split_space c (rest : string) :
  is_space c = true -> split_from "" (String c rest) = split_from "" rest.
Proof. intros Hc. simpl. by rewrite Hc. Qed.

(** The tokens of [" ".join(cells)] followed by a space and more text. *)
Lemma split_join (cells : list string) c (rest : string) :
  Forall token cells -> is_space c = true ->
  split_from "" (py_join " " cells +:+ String c rest) = cells ++ split_from "" rest.
Proof.
  intros Hcells Hc. induction Hcells as [|x cells Hx Hcells IH].
  - by apply split_space.
  - destruct cells as [|y cells].
    + by apply split_token_space.
    + change (py_join " " (x :: y :: cells)) with (x +:+ " " +:+ py_join " " (y :: cells)).
      rewrite !string_app_assoc, string_app_cons, string_app_nil_l.
      rewrite split_token_space by done. simpl app.
      f_equal. apply IH.
Qed.

Lemma py_split_join_line (cells : list string) :
  Forall token cells -> py_split (py_join " " cells +:+ String newline "") = cells.
Proof.
  intros Hcells. unfold py_split. rewrite split_join by done.
  simpl. by rewrite app_nil_r.
Qed.

Lemma no_newline_app (s1 s2 : string) :
  no_newline (s1 +:+ s2) = no_newline s1 && no_newline s2.
Proof.
  induction s1 as [|c s1 IH]; [done|].
  rewrite string_app_cons. simpl. by rewrite IH, andb_assoc.
Qed.

Lemma no_space_no_newline (s : string) : no_space s = true -> no_newline s = true.
Proof.
  induction s as [|c s IH]; simpl; [done|].
  intros [Hc Hs]%andb_true_iff. rewrite (IH Hs), andb_true_r.
  destruct (Ascii.eqb c newline) eqn:E; [|done].
  apply Ascii.eqb_eq in E. subst c. by vm_compute in Hc.
Qed.

Lemma no_newline_join (cells : list string) :
  Forall token cells -> no_newline (py_join " " cells) = true.
Proof.
  induction 1 as [|x cells [_ Hx] Hcells IH]; [done|].
  destruct cells as [|y cells]; [by apply no_space_no_newline|].
  change (py_join " " (x :: y :: cells)) with (x +:+ " " +:+ py_join " " (y :: cells)).
  rewrite !no_newline_app, IH, (no_space_no_newline _ Hx). done.
Qed.

Lemma lines_from_run (cur t rest : string) :
  no_newline t = true -> lines_from cur (t +:+ rest) = lines_from (cur +:+ t) rest.
Proof.
  revert cur. induction t as [|c t IH]; intros cur Ht.
  - by rewrite string_app_nil_r.
  - simpl in Ht. apply andb_true_iff in Ht as [Hc Ht].
    apply negb_true_iff in Hc. rewrite string_app_cons. simpl.
    rewrite Hc, (IH _ Ht). by rewrite snoc_app.
Qed.

(** The lines of a text made of newline-terminated lines. *)
Lemma py_lines_concat (ls : list string) :
  Forall (fun l => no_newline l = true) ls ->
  py_lines (concat_strings (map (fun l => l +:+ String newline "") ls))
  = map (fun l => l +:+ String newline "") ls.
Proof.
  unfold py_lines. induction 1 as [|l ls Hl _ IH]; [done|].
  simpl. rewrite string_app_assoc, lines_from_run by done.
  rewrite string_app_cons, !string_app_nil_l. cbn [lines_from].
  rewrite Ascii.eqb_refl. unfold snoc. by rewrite IH.
Qed.

(** *** Reading back what was written *)

Lemma token_no_newline (s : string) : token s -> no_newline s = true.
Proof. intros [_ Hs]. by apply no_space_no_newline. Qed.

Lemma fold_insert_lookup (f : string -> value) (l : list string) (acc : record) a :
  fold_left (fun d a => <[a := f a]> d) l acc !! a
  = if decide (a ∈ l) then Some (f a) else acc !! a.
Proof.
  revert acc. induction l as [|a0 l IH]; intros acc; simpl.
  - by destruct (decide (a ∈ [])) as [?%elem_of_nil|].
  - rewrite IH. destruct (decide (a ∈ l)) as [Hin|Hnin].
    + by rewrite decide_True by (by right).
    + destruct (decide (a = a0)) as [->|Hne].
      * by rewrite lookup_insert_eq, decide_True by (by left).
      * rewrite lookup_insert_ne by done. rewrite decide_False; [done|].
        by intros [?|?]%elem_of_cons.
Qed.

Lemma mapM_raises {A B} (f : A -> result B) (l : list A) (x : A) e :
  x ∈ l -> f x = Err e -> (forall y e', f y = Err e' -> e' = e) -> mapM f l = Err e.
Proof.
  intros Hx Hfx Honly. induction l as [|y l IH]; [by apply elem_of_nil in Hx|].
  simpl. destruct (f y) as [b|e'] eqn:Hy.
  - apply elem_of_cons in Hx as [->|Hx]; [congruence|]. simpl. by rewrite IH.
  - simpl. f_equal. by apply (Honly y).
Qed.

Lemma mapM_total {A B} (f : A -> result B) (l : list A) :
  Forall (fun x => is_Ok (f x)) l -> is_Ok (mapM f l).
Proof.
  induction 1 as [|x l [b Hb] _ [bs IH]]; [by eexists|].
  simpl. rewrite Hb, IH. by eexists.
Qed.

Section DataClaims.

Variable THIS_FILE_PATH : string.
Variable float_str : float -> string.
Variable iteritems : record -> list (string * value).
Hypothesis iteritems_perm : forall r, iteritems r ≡ₚ map_to_list r.

Lemma rendered_strings (r : record) :
  (forall a v, r !! a = Some v -> exists s, v = VStr s) -> rendered float_str r = r.
Proof.
  intros Hr. apply map_eq. intros a. unfold rendered. rewrite lookup_fmap.
  destruct (r !! a) as [v|] eqn:Hv; [|done].
  by destruct (Hr a v Hv) as [s ->].
Qed.

(** The dictionary comprehension for one row (line 141), with the position
    of each column given by [j]. *)
Lemma row_record_run (attributes_set : gset string) (vals : list string)
    (g : string -> string) (l : list string) (j : nat -> nat) (acc : record) :
  (forall i a, l !! i = Some a -> a ∈ attributes_set /\ vals !! j i = Some (g a)) ->
  foldM (fun (user : record) '(i, attribute_name) =>
           if decide (attribute_name ∈ attributes_set)
           then match vals !! i with
                | Some v => Ok (<[attribute_name := VStr v]> user)
                | None => Err IndexError
                end
           else Ok user)
        acc (imap (fun i a => (j i, a)) l)
  = Ok (fold_left (fun d a => <[a := VStr (g a)]> d) l acc).
Proof.
  revert j acc. induction l as [|a l IH]; intros j acc Hl; [done|].
  simpl. destruct (Hl 0%nat a) as [Hin Hval]; [done|].
  rewrite decide_True, Hval by done. simpl.
  apply (IH (j ∘ S)). intros i a' Hi. by apply (Hl (S i)).
Qed.

Lemma row_record_cases (attributes_set : gset string) (vals : list string)
    (l : list (nat * string)) (acc : record) :
  forall e,
    foldM (fun (user : record) '(i, attribute_name) =>
             if decide (attribute_name ∈ attributes_set)
             then match vals !! i with
                  | Some v => Ok (<[attribute_name := VStr v]> user)
                  | None => Err IndexError
                  end
             else Ok user)
          acc l = Err e -> e = IndexError.
Proof.
  revert acc. induction l as [|[i a] l IH]; intros acc e; simpl; [done|].
  destruct (decide (a ∈ attributes_set)); simpl; [|by apply IH].
  destruct (vals !! i); simpl; [by apply IH|congruence].
Qed.

Lemma row_record_short (attributes_set : gset string) (vals : list string)
    (l : list (nat * string)) (acc : record) i a :
  (i, a) ∈ l -> a ∈ attributes_set -> (length vals <= i)%nat ->
  foldM (fun (user : record) '(i, attribute_name) =>
           if decide (attribute_name ∈ attributes_set)
           then match vals !! i with
                | Some v => Ok (<[attribute_name := VStr v]> user)
                | None => Err IndexError
                end
           else Ok user)
        acc l = Err IndexError.
Proof.
  intros Hin Ha Hshort. revert acc.
  induction l as [|[i' a'] l IH]; intros acc; [by apply elem_of_nil in Hin|].
  simpl. destruct (decide (a' ∈ attributes_set)) as [Ha'|Ha']; simpl.
  - destruct (vals !! i') as [v|] eqn:Hv; simpl; [|done].
    apply elem_of_cons in Hin as [[= -> ->]|Hin]; [|by apply IH].
    apply lookup_lt_Some in Hv. lia.
  - apply elem_of_cons in Hin as [[= -> ->]|Hin]; [done|by apply IH].
Qed.

Lemma row_record_long (attributes_set : gset string) (vals : list string)
    (l : list (nat * string)) (acc : record) :
  (forall i a, (i, a) ∈ l -> a ∈ attributes_set -> (i < length vals)%nat) ->
  is_Ok (foldM (fun (user : record) '(i, attribute_name) =>
                  if decide (attribute_name ∈ attributes_set)
                  then match vals !! i with
                       | Some v => Ok (<[attribute_name := VStr v]> user)
                       | None => Err IndexError
                       end
                  else Ok user)
               acc l).
Proof.
  revert acc. induction l as [|[i a] l IH]; intros acc Hl; [by eexists|].
  assert (forall i' a', (i', a') ∈ l -> a' ∈ attributes_set -> (i' < length vals)%nat)
    as Hl' by (intros i' a' Hin; apply Hl; by right).
  simpl. destruct (decide (a ∈ attributes_set)) as [Ha|Ha]; simpl; [|by apply IH].
  destruct (lookup_lt_is_Some_2 vals i) as [v ->]; [apply (Hl i a); [by left|done]|].
  simpl. by apply IH.
Qed.

Lemma imap_pair_elem (l : list string) i a :
  (i, a) ∈ imap (fun i a => (i, a)) l <-> l !! i = Some a.
Proof.
  rewrite list_elem_of_lookup. split.
  - intros [k Hk]. rewrite list_lookup_imap in Hk.
    destruct (l !! k) as [a'|] eqn:Hk'; simpl in Hk; [|done]. by injection Hk as <- <-.
  - intros Hi. exists i. by rewrite list_lookup_imap, Hi.
Qed.

(** The loop of [_read_single_user_attribute] over lines that were written
    from token fields. *)
Lemma read_single_lines (l : list (string * value)) (acc : record) :
  (forall id v, (id, v) ∈ l -> token id /\ token (py_str float_str v)) ->
  foldM (fun (attribute_for_user : record) user_line =>
           match py_split user_line with
           | [user_ID; attribute_value] =>
               Ok (<[user_ID := VStr attribute_value]> attribute_for_user)
           | _ => Err ValueError
           end)
        acc
        (map (fun s => s +:+ String newline "")
             (map (fun kv : string * value => kv.1 +:+ " " +:+ py_str float_str kv.2) l))
  = Ok (fold_left (fun d kv => <[kv.1 := kv.2]> d)
                  (map (fun kv : string * value => (kv.1, VStr (py_str float_str kv.2))) l)
                  acc).
Proof.
  revert acc. induction l as [|[id v] l IH]; intros acc Hl; [done|].
  destruct (Hl id v) as [Hid Hv]; [by left|].
  cbn [map foldM fold_left fst snd].
  change (id +:+ " " +:+ py_str float_str v)
    with (py_join " " [id; py_str float_str v]).
  rewrite py_split_join_line
    by (apply Forall_cons; split; [done|]; by apply Forall_singleton).
  simpl. apply IH. intros id' v' Hin. apply Hl. by right.
Qed.

(** C5 (as amended).  For a mapping whose IDs and whose values' string
    forms are tokens (non-empty, without whitespace), reading back the
    file written from it gives the mapping with every value replaced by
    its string form: the mapping itself when its values are such
    strings. *)
Theorem single_attribute_round_trip (fs : filesystem) (M : record) (name : string) :
  (forall id v, M !! id = Some v -> token id /\ token (py_str float_str v)) ->
  _read_single_user_attribute THIS_FILE_PATH
    (_write_single_user_attribute THIS_FILE_PATH float_str iteritems fs M name) name
  = Ok (rendered float_str M)
  /\ ((forall id v, M !! id = Some v -> exists s, v = VStr s) ->
      _read_single_user_attribute THIS_FILE_PATH
        (_write_single_user_attribute THIS_FILE_PATH float_str iteritems fs M name) name
      = Ok M).
Proof.
  intros Htok.
  assert (_read_single_user_attribute THIS_FILE_PATH
            (_write_single_user_attribute THIS_FILE_PATH float_str iteritems fs M name) name
          = Ok (rendered float_str M)) as Hread.
  { unfold _read_single_user_attribute, _write_single_user_attribute, open_read.
    rewrite lookup_insert_eq. simpl.
    assert (forall id v, (id, v) ∈ iteritems M -> token id /\ token (py_str float_str v))
      as Hl.
    { intros id v Hin. apply (Htok id v). rewrite iteritems_perm in Hin.
      by apply elem_of_map_to_list. }
    assert (map (fun '(user_ID, attribute) =>
                   user_ID +:+ " " +:+ py_str float_str attribute +:+ String newline "")
                (iteritems M)
            = map (fun s => s +:+ String newline "")
                  (map (fun kv : string * value =>
                          kv.1 +:+ " " +:+ py_str float_str kv.2) (iteritems M))) as ->.
    { rewrite map_map. apply map_ext. intros [id v]. simpl.
      by rewrite !string_app_assoc. }
    rewrite py_lines_concat.
    - rewrite read_single_lines by done. f_equal.
      apply py_dict_items. unfold rendered.
      rewrite map_to_list_fmap, iteritems_perm.
      generalize (map_to_list M). intros l.
      induction l as [|[id v] l IH]; [done|]. csimpl. by rewrite IH.
    - apply Forall_forall. intros s [[id v] [-> Hin]]%list_elem_of_fmap.
      destruct (Hl id v Hin) as [Hid Hv]. simpl.
      rewrite !no_newline_app.
      by rewrite (token_no_newline id), (token_no_newline (py_str float_str v)). }
  split; [done|]. intros Hstr. by rewrite Hread, rendered_strings.
Qed.

Lemma row_text_run (attributes : list string) (user : record) :
  (forall a, a ∈ attributes -> is_Some (user !! a)) ->
  row_text float_str attributes user
  = Ok (py_join " " (cells float_str attributes user) +:+ String newline "").
Proof.
  intros Hall. unfold row_text, cells.
  rewrite (mapM_Ok _ (fun a => py_str float_str (user !!! a))); [done|].
  apply Forall_forall. intros a Ha. destruct (Hall a Ha) as [v Hv].
  unfold getitem. rewrite Hv. simpl. by rewrite (lookup_total_correct _ _ _ Hv).
Qed.

Lemma write_rows_run (attributes : list string) (users : list record) (written : string) :
  Forall (fun user : record => forall a, a ∈ attributes -> is_Some (user !! a)) users ->
  write_rows float_str attributes users written
  = (written +:+ concat_strings
                   (map (fun s => s +:+ String newline "")
                        (map (fun user => py_join " " (cells float_str attributes user)) users)),
     Ok tt).
Proof.
  intros Hall. revert written.
  induction Hall as [|user users Hu _ IH]; intros written; simpl.
  - by rewrite string_app_nil_r.
  - rewrite row_text_run by done. rewrite IH. by rewrite !string_app_assoc.
Qed.

Lemma mapM_map {A B C} (f : B -> result C) (k : A -> B) (l : list A) :
  mapM f (map k l) = mapM (fun x => f (k x)) l.
Proof. induction l as [|x l IH]; simpl; [done|]. by rewrite IH. Qed.

(** A written row is read back as the rendered record. *)
Lemma row_read_back (attributes : list string) (user : record) :
  (forall a, a ∈ attributes ->
             exists v, user !! a = Some v /\ token (py_str float_str v)) ->
  (forall a, is_Some (user !! a) -> a ∈ attributes) ->
  row_record (list_to_set attributes) attributes
    (py_split (py_join " " (cells float_str attributes user) +:+ String newline ""))
  = Ok (rendered float_str user).
Proof.
  intros Hall Hcover.
  rewrite py_split_join_line.
  - unfold row_record.
    rewrite (row_record_run _ _ (fun a => py_str float_str (user !!! a)) attributes
               (fun i => i) ∅).
    + f_equal. apply map_eq. intros a. rewrite fold_insert_lookup.
      unfold rendered. rewrite lookup_fmap.
      destruct (decide (a ∈ attributes)) as [Ha|Ha].
      * destruct (Hall a Ha) as (v & Hv & _). rewrite Hv. simpl.
        by rewrite (lookup_total_correct _ _ _ Hv).
      * rewrite lookup_empty. destruct (user !! a) as [v|] eqn:Hv; [|done].
        destruct Ha. apply Hcover. by eexists.
    + intros i a Hi. split.
      * apply elem_of_list_to_set, list_elem_of_lookup. by exists i.
      * unfold cells. change (map ?f ?l) with (f <$> l).
        by rewrite list_lookup_fmap, Hi.
  - apply Forall_forall. intros s [a [-> Ha]]%list_elem_of_fmap.
    destruct (Hall a Ha) as (v & Hv & Htok).
    by rewrite (lookup_total_correct _ _ _ Hv).
Qed.

(** C2 (as amended).  When the attribute names are tokens, every record
    has exactly the listed attributes and the string form of every value
    is a token, [_write_multiple_user_attributes] raises nothing, and
    [_read_multiple_user_attributes] with the same attribute list, applied
    to a file that holds the text it wrote, returns the original records
    with every value as a string. *)
Theorem multiple_attributes_round_trip (fs fs2 : filesystem) (users : list record)
    (attributes : list string) (name name2 : string) :
  Forall token attributes ->
  Forall (fun user : record =>
            forall a, a ∈ attributes ->
                      exists v, user !! a = Some v /\ token (py_str float_str v)) users ->
  Forall (fun user : record => forall a, is_Some (user !! a) -> a ∈ attributes) users ->
  let written := _write_multiple_user_attributes THIS_FILE_PATH float_str fs users
                   attributes name in
  written.2 = Ok tt
  /\ is_Some (written.1 !! _processed_data_absolute_path THIS_FILE_PATH name)
  /\ (fs2 !! _raw_data_absolute_path THIS_FILE_PATH name2
      = written.1 !! _processed_data_absolute_path THIS_FILE_PATH name ->
      _read_multiple_user_attributes THIS_FILE_PATH fs2 name2 attributes
      = Ok (map (rendered float_str) users)).
Proof.
  intros Hattrs Hall Hcover written.
  assert (Forall (fun user : record => forall a, a ∈ attributes -> is_Some (user !! a)) users)
    as Hpresent.
  { eapply Forall_impl; [exact Hall|]. intros user Hu a Ha.
    destruct (Hu a Ha) as (v & Hv & _). by eexists. }
  unfold written, _write_multiple_user_attributes.
  rewrite write_rows_run by done. simpl.
  rewrite lookup_insert_eq. split; [done|]. split; [by eexists|].
  intros Hfile. unfold _read_multiple_user_attributes, open_read. rewrite Hfile. simpl.
  set (rows := map (fun user => py_join " " (cells float_str attributes user)) users).
  assert ((py_join " " attributes +:+ String newline "")
            +:+ concat_strings (map (fun s => s +:+ String newline "") rows)
          = concat_strings (map (fun s => s +:+ String newline "")
                                (py_join " " attributes :: rows))) as -> by done.
  rewrite py_lines_concat.
  - cbn [map hd tl]. rewrite py_split_join_line by done.
    unfold rows. rewrite !mapM_map. apply mapM_Ok.
    rewrite Forall_forall in Hall, Hcover. apply Forall_forall. intros user Hu.
    apply row_read_back; [by apply Hall|by apply Hcover].
  - apply Forall_cons. split; [by apply no_newline_join|].
    apply Forall_forall. intros s [user [-> Hu]]%list_elem_of_fmap.
    apply no_newline_join. apply Forall_forall.
    intros c [a [-> Ha]]%list_elem_of_fmap.
    rewrite Forall_forall in Hall. destruct (Hall user Hu a Ha) as (v & Hv & Htok).
    by rewrite (lookup_total_correct _ _ _ Hv).
Qed.

(** C4 (as amended).  Reading a table raises [IndexError] as soon as some
    data row has no token at the position of a header attribute that is
    among the requested ones; when every data row has a token at each such
    position the rows are accepted, however short. *)
Theorem read_multiple_short_row (fs : filesystem) (name : string) (attributes : list string)
    (content : string) :
  fs !! _raw_data_absolute_path THIS_FILE_PATH name = Some content ->
  let header := py_split (hd "" (py_lines content)) in
  let rows := tl (py_lines content) in
  ((exists row i a, row ∈ rows /\ header !! i = Some a /\ a ∈ attributes
                    /\ (length (py_split row) <= i)%nat) ->
   _read_multiple_user_attributes THIS_FILE_PATH fs name attributes = Err IndexError)
  /\ ((forall row i a, row ∈ rows -> header !! i = Some a -> a ∈ attributes ->
                       (i < length (py_split row))%nat) ->
      is_Ok (_read_multiple_user_attributes THIS_FILE_PATH fs name attributes)).
Proof.
  intros Hfile header rows.
  unfold _read_multiple_user_attributes, open_read. rewrite Hfile. simpl.
  fold header rows. split.
  - intros (row & i & a & Hrow & Hi & Ha & Hshort).
    apply (mapM_raises _ _ row); [done| |].
    + apply (row_record_short _ _ _ _ i a); [by apply imap_pair_elem| |done].
      by apply elem_of_list_to_set.
    + intros y e. apply row_record_cases.
  - intros Hlong. apply mapM_total, Forall_forall. intros row Hrow.
    apply row_record_long. intros i a Hi%imap_pair_elem Ha%elem_of_list_to_set.
    by apply (Hlong row i a).
Qed.

End DataClaims.

(** *** Concrete runs of the readers and writers *)

Lemma sample_ratings_tokens id v :
  sample_ratings !! id = Some v -> token id /\ token (py_str no_float_str v).
Proof.
  unfold sample_ratings.
  intros [[<- <-]|[_ [<- <-]%lookup_singleton_Some]]%lookup_insert_Some;
    by repeat split.
Qed.

Lemma single_attribute_round_trip_witness :
  _read_single_user_attribute "/data"
    (_write_single_user_attribute "/data" no_float_str map_to_list ∅ sample_ratings "r.txt")
    "r.txt"
  = Ok (rendered no_float_str sample_ratings)
  /\ ((forall id v, sample_ratings !! id = Some v -> exists s, v = VStr s) ->
      _read_single_user_attribute "/data"
        (_write_single_user_attribute "/data" no_float_str map_to_list ∅ sample_ratings
           "r.txt") "r.txt"
      = Ok sample_ratings).
Proof.
  exact (single_attribute_round_trip "/data" no_float_str map_to_list map_to_list_items
           ∅ sample_ratings "r.txt" sample_ratings_tokens).
Defined.

(** C5 as stated fails in two ways: a value with a space makes the line
    unreadable, and a value that is not a string comes back as one. *)
Lemma single_attribute_round_trip_fails :
  _read_single_user_attribute "/data"
    (_write_single_user_attribute "/data" no_float_str map_to_list ∅
       {[ "u1" := VStr "a b" ]} "r.txt") "r.txt"
  = Err ValueError
  /\ _read_single_user_attribute "/data"
       (_write_single_user_attribute "/data" no_float_str map_to_list ∅
          {[ "u1" := VInt 5 ]} "r.txt") "r.txt"
     = Ok {[ "u1" := VStr "5" ]}
  /\ ({[ "u1" := VStr "5" ]} : record) ≠ {[ "u1" := VInt 5 ]}.
Proof.
  split; [by vm_compute|]. split; [by vm_compute|].
  intros H. apply (f_equal (fun r : record => r !! "u1")) in H.
  rewrite !lookup_singleton_eq in H. congruence.
Qed.

Lemma sample_table_attributes : Forall token ["ID"; "stars"].
Proof. repeat (apply Forall_cons; split; [by split|]). apply Forall_nil_2. Qed.

Lemma sample_table_tokens :
  Forall (fun user : record =>
            forall a, a ∈ ["ID"; "stars"] ->
                      exists v, user !! a = Some v /\ token (py_str no_float_str v))
         sample_table.
Proof.
  repeat (apply Forall_cons; split; [|]); [| |apply Forall_nil_2];
    intros a Ha; repeat (apply elem_of_cons in Ha as [->|Ha]);
    try (by apply elem_of_nil in Ha); eexists; (split; [reflexivity|by split]).
Qed.

Lemma sample_table_covered :
  Forall (fun user : record => forall a, is_Some (user !! a) -> a ∈ ["ID"; "stars"])
         sample_table.
Proof.
  repeat (apply Forall_cons; split; [|]); [| |apply Forall_nil_2];
    intros a [v [[<- _]|[_ [<- _]%lookup_singleton_Some]]%lookup_insert_Some];
    set_solver.
Qed.

Lemma copied_table_holds_written :
  copied_table !! _raw_data_absolute_path "/data" "t.txt"
  = (_write_multiple_user_attributes "/data" no_float_str ∅ sample_table
       ["ID"; "stars"] "t.txt").1 !! _processed_data_absolute_path "/data" "t.txt".
Proof. by vm_compute. Qed.

Lemma multiple_attributes_round_trip_witness :
  let written := _write_multiple_user_attributes "/data" no_float_str ∅ sample_table
                   ["ID"; "stars"] "t.txt" in
  written.2 = Ok tt
  /\ is_Some (written.1 !! _processed_data_absolute_path "/data" "t.txt")
  /\ (copied_table !! _raw_data_absolute_path "/data" "t.txt"
      = written.1 !! _processed_data_absolute_path "/data" "t.txt" ->
      _read_multiple_user_attributes "/data" copied_table "t.txt" ["ID"; "stars"]
      = Ok (map (rendered no_float_str) sample_table)).
Proof.
  exact (multiple_attributes_round_trip "/data" no_float_str ∅ copied_table sample_table
           ["ID"; "stars"] "t.txt" "t.txt" sample_table_attributes sample_table_tokens
           sample_table_covered).
Defined.

(** C2 as stated fails: on an empty file system the reader, given the
    name the writer was given, opens [raw_data/t.txt] while the writer
    wrote [processed_data/t.txt], and raises [IOError]; and a value with a
    space is not reproduced even from a file that holds the written text. *)
Lemma multiple_attributes_round_trip_fails :
  _read_multiple_user_attributes "/data"
    (_write_multiple_user_attributes "/data" no_float_str ∅ sample_table
       ["ID"; "stars"] "t.txt").1 "t.txt" ["ID"; "stars"]
  = Err IOError
  /\ (let spaced : list record := [ {[ "name" := VStr "x y" ]} ] in
      let written := _write_multiple_user_attributes "/data" no_float_str
                       {[ "/data/raw_data/n.txt" := text ["name"; "x y"] ]}
                       spaced ["name"] "n.txt" in
      written.2 = Ok tt
      /\ written.1 !! "/data/raw_data/n.txt" = written.1 !! "/data/processed_data/n.txt"
      /\ _read_multiple_user_attributes "/data" written.1 "n.txt" ["name"]
         = Ok [ {[ "name" := VStr "x" ]} ]
      /\ [ ({[ "name" := VStr "x" ]} : record) ] ≠ map (rendered no_float_str) spaced).
Proof.
  split; [by vm_compute|]. cbv zeta. split; [by vm_compute|].
  split; [by vm_compute|]. split; [by vm_compute|].
  intros H. apply (f_equal (fun l : list record => (l !!! 0%nat) !! "name")) in H.
  vm_compute in H. congruence.
Qed.

Lemma short_row_table_file :
  short_row_table !! _raw_data_absolute_path "/data" "t.txt" = Some (text ["a b"; "1"]).
Proof. by vm_compute. Qed.

Lemma read_multiple_short_row_witness :
  let header := py_split (hd "" (py_lines (text ["a b"; "1"]))) in
  let rows := tl (py_lines (text ["a b"; "1"])) in
  ((exists row i a, row ∈ rows /\ header !! i = Some a /\ a ∈ ["b"]
                    /\ (length (py_split row) <= i)%nat) ->
   _read_multiple_user_attributes "/data" short_row_table "t.txt" ["b"] = Err IndexError)
  /\ ((forall row i a, row ∈ rows -> header !! i = Some a -> a ∈ ["b"] ->
                       (i < length (py_split row))%nat) ->
      is_Ok (_read_multiple_user_attributes "/data" short_row_table "t.txt" ["b"])).
Proof.
  exact (read_multiple_short_row "/data" short_row_table "t.txt" ["b"]
           (text ["a b"; "1"]) short_row_table_file).
Defined.

(** C4 as stated fails: the data row has one token, the header two names,
    and the read succeeds because the requested attribute is in the first
    column. *)
Lemma read_multiple_accepts_short_row :
  py_split (hd "" (py_lines (text ["a b"; "1"]))) = ["a"; "b"]
  /\ map py_split (tl (py_lines (text ["a b"; "1"]))) = [["1"]]
  /\ _read_multiple_user_attributes "/data" short_row_table "t.txt" ["a"]
     = Ok [ {[ "a" := VStr "1" ]} ].
Proof. repeat split; by vm_compute. Qed.

(** * Properties of the other functions *)

(** ** The record transformations *)

Lemma py_in_spec (key : string) (keys : list string) : py_in key keys = true <-> key ∈ keys.
Proof.
  unfold py_in. rewrite existsb_exists. split.
  - intros (k & Hk%list_elem_of_In & ->%String.eqb_eq). done.
  - intros Hk. exists key. split; [by apply list_elem_of_In|apply String.eqb_refl].
Qed.

(** A dictionary comprehension that keeps the entries whose key passes a
    test builds the same dictionary whatever the iteration order. *)
Lemma py_dict_filter (P : string -> bool) (l : list (string * value)) (r : record) :
  l ≡ₚ map_to_list r ->
  py_dict (List.filter (fun '(key, _) => P key) l)
  = filter (fun kv : string * value => P kv.1 = true) r.
Proof.
  intros Hl. apply map_eq. intros k. apply option_eq. intros v.
  rewrite map_lookup_filter_Some. unfold py_dict.
  rewrite py_dict_fold, (right_id_L ∅ (∪)).
  assert (NoDup l.*1) as Hnd by (rewrite Hl; apply NoDup_fst_map_to_list).
  assert (NoDup (List.filter (fun '(key, _) => P key) l).*1) as Hnd'.
  { clear Hl. induction l as [|[k0 v0] l IH]; simpl; [constructor|].
    rewrite fmap_cons in Hnd. apply NoDup_cons in Hnd as [Hnin Hnd].
    destruct (P k0); [|by apply IH]. rewrite fmap_cons. apply NoDup_cons. split; [|by apply IH].
    intros [[k1 v1] [Hk Hin]]%list_elem_of_fmap. simpl in Hk. subst k1.
    apply list_elem_of_In, List.filter_In in Hin as [Hin _].
    apply Hnin, list_elem_of_fmap. exists (k0, v1). split; [done|by apply list_elem_of_In]. }
  rewrite <-elem_of_list_to_map by (by rewrite fmap_reverse, reverse_Permutation).
  rewrite elem_of_reverse, list_elem_of_In, List.filter_In, <-list_elem_of_In.
  by rewrite Hl, elem_of_map_to_list.
Qed.

Lemma filter_other_keys (attribute : string) (r : record) :
  filter (fun kv : string * value => negb (String.eqb kv.1 attribute) = true) r
  = delete attribute r.
Proof.
  apply map_eq. intros k. apply option_eq. intros v.
  rewrite map_lookup_filter_Some, lookup_delete_Some. simpl.
  rewrite negb_true_iff, String.eqb_neq. split; intros [? ?]; by split.
Qed.

(** [f > 0] for a float is the comparison of floats. *)
Lemma py_gt_zero_float (f : float) : py_gt (VFloat f) (VInt 0) = PrimFloat.ltb 0 f.
Proof.
  unfold py_gt. simpl. unfold Zcompare_float. rewrite FloatAxioms.ltb_spec.
  change (Prim2SF 0) with (S754_zero false).
  destruct (Prim2SF f) as [s|s| |s m e]; simpl; [done|by destruct s|done|].
  destruct s, (0 <=? e) eqn:He; simpl; try done.
  - apply Z.leb_le in He.
    assert (0 < 2 ^ e) as Hp by (by apply Z.pow_pos_nonneg).
    destruct (2 ^ e) eqn:E; done.
  - apply Z.leb_le in He.
    assert (0 < 2 ^ e) as Hp by (by apply Z.pow_pos_nonneg).
    destruct (2 ^ e) eqn:E; done.
Qed.

Section TransformationFacts.

Variable iteritems : record -> list (string * value).
Variable items : record -> list (string * value).
Hypothesis iteritems_perm : forall r, iteritems r ≡ₚ map_to_list r.
Hypothesis items_perm : forall r, items r ≡ₚ map_to_list r.

Lemma copy_without (attribute : string) (user : record) :
  py_dict (List.filter (fun '(key, _) => negb (String.eqb key attribute)) (iteritems user))
  = delete attribute user.
Proof.
  rewrite (py_dict_filter (fun key => negb (String.eqb key attribute)) _ user) by done.
  apply filter_other_keys.
Qed.

(** X1. [filter_dictionary_by_keys] keeps exactly the entries of the
    dictionary whose key is listed, with their values, whatever the order
    in which the dictionary is iterated. *)
Theorem filter_dictionary_by_keys_lookup (dictionary : record) (desired_keys : list string)
    (key : string) :
  filter_dictionary_by_keys iteritems dictionary desired_keys !! key
  = if decide (key ∈ desired_keys) then dictionary !! key else None.
Proof.
  unfold filter_dictionary_by_keys.
  rewrite (py_dict_filter (fun key => py_in key desired_keys) _ dictionary) by done.
  apply option_eq. intros v. rewrite map_lookup_filter_Some. simpl. rewrite py_in_spec.
  destruct (decide (key ∈ desired_keys)) as [Hin|Hin]; split; try done.
  - by intros [? _].
  - by intros [_ ?].
Qed.

Lemma make_attribute_boolean_run (users : list record) (attribute : string) :
  Forall (fun user : record => is_Some (user !! attribute)) users ->
  make_attribute_boolean iteritems users attribute
  = Ok (map (fun user : record =>
               <[attribute := VInt (positive_flag (user !!! attribute))]> user) users).
Proof.
  intros Hall. unfold make_attribute_boolean. apply mapM_Ok.
  eapply Forall_impl; [exact Hall|]. intros user [v Hv]. simpl.
  unfold getitem. rewrite Hv. simpl.
  by rewrite copy_without, insert_delete_eq, (lookup_total_correct _ _ _ Hv).
Qed.

Lemma mapM_inv {A B} (f : A -> result B) (l : list A) (out : list B) :
  mapM f l = Ok out -> Forall2 (fun x y => f x = Ok y) l out.
Proof.
  revert out. induction l as [|x l IH]; intros out; simpl.
  - intros [= <-]. constructor.
  - destruct (f x) as [y|] eqn:Hx; [|done]. simpl.
    destruct (mapM f l) as [ys|]; [|done]. simpl. intros [= <-].
    constructor; [done|by apply IH].
Qed.

Lemma make_attribute_boolean_inv (users out : list record) (attribute : string) :
  make_attribute_boolean iteritems users attribute = Ok out ->
  Forall (fun user : record => is_Some (user !! attribute)) users.
Proof.
  intros Hrun%mapM_inv. induction Hrun as [|user r users out Hu _ IH]; [constructor|].
  constructor; [|done]. unfold getitem in Hu.
  destruct (user !! attribute); [by eexists|done].
Qed.

(** X2.  When every user has the attribute, [make_attribute_boolean]
    raises nothing and returns one record per user, in the users' order;
    each record agrees with its user on every other attribute and holds,
    for the attribute, the int 1 when the user's value is greater than 0
    and the int 0 otherwise: 1 for an int above 0, for a float above 0 and
    for any string (which Python 2 orders above every number), 0 for a
    NaN. *)
Theorem make_attribute_boolean_spec (users : list record) (attribute : string) :
  Forall (fun user : record => is_Some (user !! attribute)) users ->
  exists out,
    make_attribute_boolean iteritems users attribute = Ok out
    /\ length out = length users
    /\ forall i user, users !! i = Some user ->
         exists r, out !! i = Some r
           /\ (forall key, key ≠ attribute -> r !! key = user !! key)
           /\ match user !! attribute with
              | Some (VInt z) => r !! attribute = Some (VInt (if 0 <? z then 1 else 0))
              | Some (VFloat f) =>
                  r !! attribute = Some (VInt (if PrimFloat.ltb 0 f then 1 else 0))
              | Some (VStr _) => r !! attribute = Some (VInt 1)
              | None => False
              end.
Proof.
  intros Hall. eexists. split; [by apply make_attribute_boolean_run|].
  split; [by rewrite length_map|].
  intros i user Hi. eexists. split.
  { change (map ?f ?l) with (f <$> l). by rewrite list_lookup_fmap, Hi. }
  split; [intros key Hne; by rewrite lookup_insert_ne|].
  rewrite Forall_forall in Hall. destruct (Hall user) as [v Hv].
  { by apply list_elem_of_lookup_2 in Hi. }
  rewrite Hv, lookup_insert_eq, (lookup_total_correct _ _ _ Hv).
  destruct v as [[z|f]|s]; [done| |done].
  by rewrite <-py_gt_zero_float.
Qed.

Lemma make_attribute_boolean_flags (users out : list record) (attribute : string) :
  make_attribute_boolean iteritems users attribute = Ok out ->
  Forall (fun r : record => r !! attribute = Some (VInt 0) \/ r !! attribute = Some (VInt 1))
         out.
Proof.
  intros Hrun. pose proof (make_attribute_boolean_inv _ _ _ Hrun) as Hall.
  rewrite make_attribute_boolean_run in Hrun by done. injection Hrun as <-.
  apply Forall_forall. intros r [user [-> _]]%list_elem_of_fmap.
  rewrite lookup_insert_eq. unfold positive_flag.
  destruct (py_gt _ _); [by right|by left].
Qed.

(** X3.  [make_attribute_boolean] is idempotent: applied to the list it
    returned, with the same attribute, it returns that list again. *)
Theorem make_attribute_boolean_idempotent (users out : list record) (attribute : string) :
  make_attribute_boolean iteritems users attribute = Ok out ->
  make_attribute_boolean iteritems out attribute = Ok out.
Proof.
  intros Hrun. pose proof (make_attribute_boolean_flags _ _ _ Hrun) as Hflags.
  rewrite make_attribute_boolean_run.
  - f_equal. rewrite <-(map_id out) at 2. apply map_ext_Forall.
    eapply Forall_impl; [exact Hflags|]. intros r Hr. simpl.
    apply insert_id. destruct Hr as [Hr|Hr]; by rewrite Hr, (lookup_total_correct _ _ _ Hr).
  - eapply Forall_impl; [exact Hflags|]. intros r [Hr|Hr]; by eexists.
Qed.

Lemma designate_attribute_as_label_run (users : list record) (attribute : string) :
  Forall (fun user : record => is_Some (user !! attribute)) users ->
  designate_attribute_as_label iteritems users attribute
  = Ok (map (fun user : record => <["label" := user !!! attribute]> (delete attribute user))
            users).
Proof.
  intros Hall. unfold designate_attribute_as_label. apply mapM_Ok.
  eapply Forall_impl; [exact Hall|]. intros user [v Hv]. simpl.
  unfold getitem. rewrite Hv. simpl.
  by rewrite copy_without, (lookup_total_correct _ _ _ Hv).
Qed.

Lemma remove_labels_run (users : list record) (label_name : string) :
  remove_labels items users label_name = map (delete label_name) users.
Proof.
  unfold remove_labels. apply map_ext. intros user.
  rewrite (py_dict_filter (fun key => negb (String.eqb key label_name)) _ user) by done.
  apply filter_other_keys.
Qed.

(** X4.  [make_attribute_boolean] and [designate_attribute_as_label]
    raise [KeyError] when some user lacks the attribute, and raise nothing
    when every user has it. *)
Theorem transformations_missing_attribute (users : list record) (attribute : string) :
  (Exists (fun user : record => user !! attribute = None) users ->
   make_attribute_boolean iteritems users attribute = Err KeyError
   /\ designate_attribute_as_label iteritems users attribute = Err KeyError)
  /\ (Forall (fun user : record => is_Some (user !! attribute)) users ->
      is_Ok (make_attribute_boolean iteritems users attribute)
      /\ is_Ok (designate_attribute_as_label iteritems users attribute)).
Proof.
  split.
  - intros (user & Hin & Hnone)%Exists_exists.
    split; apply (mapM_raises _ _ user); try done;
      try (unfold getitem; by rewrite Hnone);
      intros y e; unfold getitem; by destruct (y !! attribute); intros [= <-].
  - intros Hall. split; apply mapM_total; (eapply Forall_impl; [exact Hall|]);
      intros user [v Hv]; unfold getitem; rewrite Hv; by eexists.
Qed.

(** X5.  When every user has the attribute,
    [designate_attribute_as_label] returns one record per user, in the
    users' order; each record holds the user's value of the attribute
    under [label] (replacing a [label] the user had), no longer has the
    attribute under its own name, and agrees with its user on every other
    attribute. *)
Theorem designate_attribute_as_label_spec (users : list record) (attribute : string) :
  Forall (fun user : record => is_Some (user !! attribute)) users ->
  exists out,
    designate_attribute_as_label iteritems users attribute = Ok out
    /\ length out = length users
    /\ forall i user, users !! i = Some user ->
         exists r, out !! i = Some r
           /\ r !! "label" = user !! attribute
           /\ (attribute ≠ "label" -> r !! attribute = None)
           /\ (forall key, key ≠ "label" -> key ≠ attribute -> r !! key = user !! key).
Proof.
  intros Hall. eexists. split; [by apply designate_attribute_as_label_run|].
  split; [by rewrite length_map|].
  intros i user Hi. eexists. split.
  { change (map ?f ?l) with (f <$> l). by rewrite list_lookup_fmap, Hi. }
  rewrite Forall_forall in Hall. destruct (Hall user) as [v Hv].
  { by apply list_elem_of_lookup_2 in Hi. }
  rewrite (lookup_total_correct _ _ _ Hv). split; [by rewrite lookup_insert_eq|]. split.
  - intros Hne. by rewrite lookup_insert_ne, lookup_delete_eq.
  - intros key Hl Ha. by rewrite lookup_insert_ne, lookup_delete_ne.
Qed.

(** X6.  Removing the labels from what [designate_attribute_as_label]
    returned gives the original users without the designated attribute and
    without any [label] they had: nothing else is changed. *)
Theorem remove_labels_after_designate (users out : list record) (attribute : string) :
  designate_attribute_as_label iteritems users attribute = Ok out ->
  remove_labels items out "label"
  = map (fun user : record => delete "label" (delete attribute user)) users.
Proof.
  intros Hrun.
  assert (Forall (fun user : record => is_Some (user !! attribute)) users) as Hall.
  { apply mapM_inv in Hrun. induction Hrun as [|user r us rs Hu _ IH]; constructor; [|done].
    unfold getitem in Hu. destruct (user !! attribute); [by eexists|done]. }
  rewrite designate_attribute_as_label_run in Hrun by done. injection Hrun as <-.
  rewrite remove_labels_run, map_map. apply map_ext. intros user.
  apply delete_insert_eq.
Qed.

(** X7.  [remove_labels] never raises: it returns the users, in order,
    each without the label attribute and otherwise unchanged (a user
    without the label is copied as is), whatever the order in which the
    dictionaries are iterated; removing the labels twice is removing them
    once. *)
Theorem remove_labels_spec (users : list record) (label_name : string) :
  remove_labels items users label_name = map (delete label_name) users
  /\ remove_labels items (remove_labels items users label_name) label_name
     = remove_labels items users label_name.
Proof.
  split; [apply remove_labels_run|].
  rewrite !remove_labels_run, map_map. apply map_ext. intros user.
  apply delete_delete_eq.
Qed.

End TransformationFacts.

(** ** From an attribute to a balanced sample *)

Lemma filter_length_split {A} (f g : A -> bool) (l : list A) :
  (forall x, x ∈ l -> g x = negb (f x)) ->
  (length (List.filter f l) + length (List.filter g l))%nat = length l.
Proof.
  induction l as [|x l IH]; intros Hfg; [done|]. simpl.
  rewrite (Hfg x) by (by left).
  destruct (f x); simpl; rewrite <-IH by (intros y Hy; apply Hfg; by right); lia.
Qed.

Lemma filter_map_length {A B} (f : B -> bool) (k : A -> B) (l : list A) :
  length (List.filter f (map k l)) = length (List.filter (fun x => f (k x)) l).
Proof.
  induction l as [|x l IH]; [done|]. simpl. destruct (f (k x)); simpl; by rewrite IH.
Qed.

Section LabelledSample.

Variable iteritems : record -> list (string * value).
Hypothesis iteritems_perm : forall r, iteritems r ≡ₚ map_to_list r.
Variable rng : Type.
Variable random_sample : rng -> list record -> nat -> result (list record * rng).
Hypothesis random_sample_spec : forall g population k,
  (k <= length population)%nat ->
  exists s g', random_sample g population k = Ok (s, g')
               /\ length s = k /\ s ⊆+ population.

(** X8.  The three steps compose: when every user has the attribute,
    making it boolean, designating it as the label and taking the
    stratified sample raise nothing, and the two samples have the size of
    the smaller class, the classes being the users whose value is greater
    than 0 and all the others: every user falls in one of the two. *)
Theorem boolean_label_gives_balanced_sample (g : rng) (users : list record)
    (attribute : string) :
  Forall (fun user : record => is_Some (user !! attribute)) users ->
  let positives := List.filter (fun user : record => py_gt (user !!! attribute) (VInt 0)) users in
  exists boolean labelled pos neg g',
    make_attribute_boolean iteritems users attribute = Ok boolean
    /\ designate_attribute_as_label iteritems boolean attribute = Ok labelled
    /\ stratified_boolean_sample rng random_sample g labelled "label" = Ok ((pos, neg), g')
    /\ length pos = Nat.min (length positives) (length users - length positives)
    /\ length neg = Nat.min (length positives) (length users - length positives).
Proof.
  intros Hall positives.
  set (label := fun user : record =>
         <["label" := VInt (positive_flag (user !!! attribute))]>
           (delete attribute (<[attribute := VInt (positive_flag (user !!! attribute))]> user))).
  exists (map (fun user : record =>
                 <[attribute := VInt (positive_flag (user !!! attribute))]> user) users),
         (map label users).
  assert (designate_attribute_as_label iteritems
            (map (fun user : record =>
                    <[attribute := VInt (positive_flag (user !!! attribute))]> user) users)
            attribute = Ok (map label users)) as Hlabel.
  { rewrite (designate_attribute_as_label_run iteritems iteritems_perm).
    - rewrite map_map. apply (f_equal Ok), map_ext. intros user. unfold label.
      by rewrite lookup_total_insert_eq.
    - rewrite Forall_forall. intros r [user [-> _]]%list_elem_of_fmap.
      rewrite lookup_insert_eq. by eexists. }
  assert (forall n, List.filter (labelled "label" n) (map label users)
                    = map label (List.filter (fun user : record =>
                                   Z.eqb (positive_flag (user !!! attribute)) n) users))
    as Hfilter.
  { intros n. clear Hall positives Hlabel. induction users as [|user us IH]; [done|]. simpl.
    assert (labelled "label" n (label user) = Z.eqb (positive_flag (user !!! attribute)) n)
      as -> by (unfold labelled, label; by rewrite lookup_insert_eq).
    destruct (Z.eqb _ n); simpl; by rewrite IH. }
  assert (length (List.filter (fun user : record =>
                    Z.eqb (positive_flag (user !!! attribute)) 1) users)
          = length positives) as Hpos.
  { unfold positives. f_equal. apply List.filter_ext. intros user. unfold positive_flag.
    by destruct (py_gt _ _). }
  assert ((length (List.filter (fun user : record =>
                     Z.eqb (positive_flag (user !!! attribute)) 1) users)
           + length (List.filter (fun user : record =>
                       Z.eqb (positive_flag (user !!! attribute)) 0) users))%nat
          = length users) as Hsplit.
  { apply filter_length_split. intros user _. unfold positive_flag.
    by destruct (py_gt _ _). }
  unfold stratified_boolean_sample.
  rewrite !filterM_labelled.
  2,3: rewrite Forall_forall; intros r [user [-> _]]%list_elem_of_fmap;
       unfold label; rewrite lookup_insert_eq; by eexists.
  simpl. rewrite !Hfilter, !length_map.
  set (p := List.filter (fun user : record =>
              Z.eqb (positive_flag (user !!! attribute)) 1) users) in *.
  set (n := List.filter (fun user : record =>
              Z.eqb (positive_flag (user !!! attribute)) 0) users) in *.
  destruct (length p <? length n)%nat eqn:E.
  - apply Nat.ltb_lt in E.
    destruct (random_sample_spec g (map label n) (length p))
      as (s & g' & -> & Hlen & _); [rewrite length_map; lia|].
    exists (map label p), s, g'. simpl. rewrite length_map.
    split; [by apply make_attribute_boolean_run|]. repeat split; [done|lia|lia].
  - apply Nat.ltb_ge in E.
    destruct (random_sample_spec g (map label p) (length n))
      as (s & g' & -> & Hlen & _); [rewrite length_map; lia|].
    exists s, (map label n), g'. simpl. rewrite length_map.
    split; [by apply make_attribute_boolean_run|]. repeat split; [done|lia|lia].
Qed.

End LabelledSample.

(** ** More on join_dictionaries *)

Lemma foldM_raises {A B} (f : B -> A -> result B) (l : list A) (x : A) (e : exn) acc :
  x ∈ l -> (forall acc, f acc x = Err e) ->
  (forall acc y e', f acc y = Err e' -> e' = e) ->
  foldM f acc l = Err e.
Proof.
  intros Hx Hfx Honly. revert acc. induction l as [|y l IH]; intros acc.
  - by apply elem_of_nil in Hx.
  - simpl. destruct (f acc y) as [acc'|e'] eqn:Hy; simpl.
    + apply elem_of_cons in Hx as [->|Hx]; [by rewrite Hfx in Hy|by apply IH].
    + f_equal. by apply (Honly acc y).
Qed.

Lemma foldM_total {A B} (f : B -> A -> result B) (l : list A) acc :
  (forall acc x, x ∈ l -> is_Ok (f acc x)) -> is_Ok (foldM f acc l).
Proof.
  revert acc. induction l as [|x l IH]; intros acc Hok; [by eexists|].
  simpl. destruct (Hok acc x) as [acc' ->]; [by left|]. simpl.
  apply IH. intros acc'' y Hy. apply Hok. by right.
Qed.

Lemma last_match_filter jk (keep : record -> bool) (l : list record) k x0 :
  (forall r kr, r ∈ l -> r !! jk = Some kr -> py_eq k kr = true -> keep r = true) ->
  last_match jk (List.filter keep l) k x0 = last_match jk l k x0.
Proof.
  unfold last_match. revert x0. induction l as [|r l IH]; intros x0 Hkeep; [done|].
  assert (forall r' kr, r' ∈ l -> r' !! jk = Some kr -> py_eq k kr = true -> keep r' = true)
    as Hkeep' by (intros r' kr Hin; apply Hkeep; by right).
  simpl. destruct (keep r) eqn:Hr; simpl; [by apply IH|].
  rewrite IH by done. f_equal.
  destruct (r !! jk) as [kr|] eqn:Hkr; [|done].
  destruct (py_eq k kr) eqn:E; [|done].
  rewrite (Hkeep r kr) in Hr; [done|by left|done..].
Qed.

Section JoinErrors.

Variable items : record -> list (string * value).
Variable iteration :
  list (value * (record * option record)) -> list (value * (record * option record)).
Hypothesis items_perm : forall r, items r ≡ₚ map_to_list r.
Hypothesis iteration_perm : forall d, NoDup d.*1 -> iteration d ≡ₚ d.

(** X9.  When every record of both lists has the join key (an int or a
    string) and some join-key value of the first list occurs nowhere in
    the second, [join_dictionaries] raises [AttributeError]: the entry of
    that value still holds [None], whose [items] is called. *)
Theorem join_uncovered_key_raises jk (A B : list record) (k : value) :
  keyed jk A -> keyed jk B ->
  k ∈ join_keys jk A -> k ∉ join_keys jk B ->
  join_dictionaries items iteration A B jk = Err AttributeError.
Proof.
  intros HA HB Hk Hnk.
  destruct (pairs_to_join_built jk A HA)
    as (pairs1 & Hrun1 & Hnd & Hsimple & Hkeys & Hentries & _).
  unfold join_dictionaries. rewrite Hrun1. simpl.
  rewrite (pairs_to_join_matched jk) by done. simpl.
  set (attach := fun e : value * (record * option record) =>
                   (e.1, (e.2.1, last_match jk B e.1 e.2.2))).
  assert ((map attach pairs1).*1 = pairs1.*1) as Hsame.
  { rewrite <-list_fmap_compose. by apply list_fmap_ext. }
  apply Hkeys in Hk. apply list_elem_of_fmap in Hk as ([k' [a x]] & -> & Hin).
  destruct (Hentries _ _ _ Hin) as [-> _]. simpl in *.
  assert (simple_key k') as Hk'.
  { rewrite Forall_forall in Hsimple. apply Hsimple, list_elem_of_fmap.
    by exists (k', (a, None)). }
  assert (matching jk B k' = None) as Hnone.
  { pose proof (matching_last_with jk B k' HB Hk') as H.
    destruct (matching jk B k') as [b|]; [|done].
    destruct Hnk. apply last_with_elem in H as [Hb Hbk].
    apply list_elem_of_omap. by exists b. }
  apply (mapM_raises _ _ (k', (a, None))).
  - rewrite iteration_perm by (by rewrite Hsame).
    apply list_elem_of_fmap. exists (k', (a, None)). split; [|done].
    unfold attach. simpl. unfold matching in Hnone. by rewrite Hnone.
  - done.
  - intros [k1 [a1 [b1|]]] e; simpl; [done|by intros [= <-]].
Qed.

(** X10.  [join_dictionaries] raises [KeyError] when a record of the
    first list lacks the join key, and also when every record of the first
    list has it and a record of the second list lacks it (even a record
    that would match nothing). *)
Theorem join_missing_key_raises jk (A B : list record) :
  (Exists (fun r : record => r !! jk = None) A ->
   join_dictionaries items iteration A B jk = Err KeyError)
  /\ (Forall (fun r : record => is_Some (r !! jk)) A ->
      Exists (fun r : record => r !! jk = None) B ->
      join_dictionaries items iteration A B jk = Err KeyError).
Proof.
  split.
  - intros (r & Hin & Hnone)%Exists_exists. unfold join_dictionaries.
    rewrite (foldM_raises _ _ r KeyError); [done|done| |].
    + intros acc. unfold getitem. by rewrite Hnone.
    + intros acc y e. unfold getitem. destruct (y !! jk); simpl; [done|by intros [= <-]].
  - intros HA (r & Hin & Hnone)%Exists_exists. unfold join_dictionaries.
    destruct (foldM_total
                (fun pairs dictionary =>
                   k ← getitem dictionary jk;
                   Ok (dict_setitem pairs k (dictionary, None : option record)))
                A []) as [pairs ->].
    { intros acc x Hx. rewrite Forall_forall in HA. destruct (HA x Hx) as [k Hk].
      unfold getitem. rewrite Hk. by eexists. }
    simpl. rewrite (foldM_raises _ _ r KeyError); [done|done| |].
    + intros acc. unfold getitem. by rewrite Hnone.
    + intros acc y e. unfold getitem. destruct (y !! jk); simpl; [|by intros [= <-]].
      destruct (dict_contains acc v); simpl; done.
Qed.

(** X11.  The records of the second list whose join-key value does not
    occur in the first list contribute nothing: dropping any of them from
    the second list leaves the result of [join_dictionaries] unchanged
    (whether a list of records or an exception). *)
Theorem join_ignores_unmatched_records jk (A B : list record) (keep : record -> bool) :
  keyed jk A -> keyed jk B ->
  (forall b k, b ∈ B -> b !! jk = Some k -> k ∈ join_keys jk A -> keep b = true) ->
  join_dictionaries items iteration A (List.filter keep B) jk
  = join_dictionaries items iteration A B jk.
Proof.
  intros HA HB Hkeep.
  assert (keyed jk (List.filter keep B)) as HB'.
  { unfold keyed in *. rewrite Forall_forall in *. intros r Hr. apply HB.
    apply list_elem_of_In, List.filter_In in Hr as [Hr _]. by apply list_elem_of_In. }
  destruct (pairs_to_join_built jk A HA)
    as (pairs1 & Hrun1 & Hnd & Hsimple & Hkeys & Hentries & _).
  unfold join_dictionaries. rewrite Hrun1. simpl.
  rewrite !(pairs_to_join_matched jk) by done. simpl.
  assert (map (fun e : value * (record * option record) =>
                 (e.1, (e.2.1, last_match jk (List.filter keep B) e.1 e.2.2))) pairs1
          = map (fun e : value * (record * option record) =>
                   (e.1, (e.2.1, last_match jk B e.1 e.2.2))) pairs1) as ->; [|done].
  apply map_ext_Forall, Forall_forall. intros [k [a x]] Hin. simpl.
  do 2 f_equal. apply last_match_filter. intros r kr Hr Hkr E.
  apply (Hkeep r kr Hr Hkr).
  assert (simple_key k) as Hk.
  { rewrite Forall_forall in Hsimple. apply Hsimple, list_elem_of_fmap.
    by exists (k, (a, x)). }
  assert (simple_key kr) as Hkr'.
  { unfold keyed in HB. rewrite Forall_forall in HB.
    destruct (HB r Hr) as (kr' & Hkr'' & Hs). congruence. }
  apply py_eq_simple in E; [|done..]. subst kr.
  apply Hkeys, list_elem_of_fmap. by exists (k, (a, x)).
Qed.

End JoinErrors.

(** ** More on normalize_users *)

Section NormalizeErrors.

Variable iteritems : record -> list (string * value).
Hypothesis iteritems_perm : forall r, iteritems r ≡ₚ map_to_list r.
Variable excluded : gset string.

Lemma extremes_step_raises acc item e :
  extremes_step excluded acc item = Err e -> e = KeyError.
Proof.
  destruct acc as [mx mn], item as [a v]. simpl.
  destruct (decide (a ∈ excluded)); [done|]. unfold getitem.
  destruct (mx !! a); simpl; [|by intros [= <-]].
  destruct (mn !! a); simpl; [done|by intros [= <-]].
Qed.

Lemma extremes_raise_only_KeyError (l : list (string * value)) acc e :
  foldM (extremes_step excluded) acc l = Err e -> e = KeyError.
Proof.
  revert acc. induction l as [|item l IH]; intros acc; simpl; [done|].
  destruct (extremes_step excluded acc item) as [acc'|e'] eqn:Hstep; simpl.
  - apply IH.
  - intros [= <-]. by apply (extremes_step_raises acc item).
Qed.

(** An attribute that [max_user] does not have makes the scan of a user
    who has it raise [KeyError]. *)
Lemma extremes_unknown_attribute (l : list (string * value)) (mx mn : record) a v :
  mx !! a = None -> (a, v) ∈ l -> a ∉ excluded ->
  foldM (extremes_step excluded) (mx, mn) l = Err KeyError.
Proof.
  revert mx mn. induction l as [|[a0 v0] l IH]; intros mx mn Hnone Hin Hex.
  - by apply elem_of_nil in Hin.
  - simpl. destruct (decide (a0 ∈ excluded)) as [Hex0|Hex0]; simpl.
    + apply elem_of_cons in Hin as [[= <- <-]|Hin]; [done|by apply IH].
    + unfold getitem. destruct (mx !! a0) as [m0|] eqn:Hm0; simpl; [|done].
      destruct (mn !! a0) as [n0|] eqn:Hn0; simpl; [|done].
      apply elem_of_cons in Hin as [[= <- <-]|Hin]; [congruence|].
      apply IH; [|done..]. rewrite lookup_insert_ne; [done|congruence].
Qed.

Lemma extremes_unknown_attribute_users (h : list record) (users : list nat)
    (mx mn : record) u a v :
  mx !! a = None -> u ∈ users -> (h !!! u : record) !! a = Some v -> a ∉ excluded ->
  foldM (fun acc u => foldM (extremes_step excluded) acc (iteritems (h !!! u)))
        (mx, mn) users = Err KeyError.
Proof.
  intros Hnone Hu Hv Hex. revert mx mn Hnone.
  induction users as [|u' users IH]; intros mx mn Hnone; [by apply elem_of_nil in Hu|].
  simpl.
  destruct (foldM (extremes_step excluded) (mx, mn) (iteritems (h !!! u')))
    as [[mx1 mn1]|e] eqn:Hinner; simpl.
  - apply elem_of_cons in Hu as [->|Hu].
    + rewrite (extremes_unknown_attribute _ mx mn a v) in Hinner; [done|done| |done].
      by apply (iteritems_elem iteritems iteritems_perm).
    + apply IH; [done|].
      destruct (extremes_of_entries excluded _ _ _ _ _
                  (iteritems_NoDup iteritems iteritems_perm _) Hinner a) as [-> _].
      by rewrite Hnone.
  - f_equal. by apply (extremes_raise_only_KeyError _ _ _ Hinner).
Qed.

Lemma normalize_step_other_user (mx mn : record) (u' u : nat) (l : list (string * value))
    (h : list record) :
  u ≠ u' ->
  ((for_each (normalize_step excluded mx mn u') h l).1 !!! u : record) = h !!! u.
Proof.
  intros Hne. revert h. induction l as [|[a v] l IH]; intros h; [done|].
  simpl. destruct (decide (a ∈ excluded)); [apply IH|].
  destruct (rescale mx mn a v) as [q|e]; [|done].
  rewrite IH. unfold setattr. by apply list_lookup_total_alter_ne.
Qed.

Lemma normalize_string_loop (mx mn : record) (users : list nat) (h : list record) u a s :
  u ∈ users -> (h !!! u : record) !! a = Some (VStr s) -> a ∉ excluded ->
  is_Err (for_each (fun hc u' =>
                      for_each (normalize_step excluded mx mn u') hc (iteritems (hc !!! u')))
                   h users).2.
Proof.
  intros Hu Hv Hex. revert h Hv.
  induction users as [|u' users IH]; intros h Hv; [by apply elem_of_nil in Hu|].
  simpl.
  destruct (for_each (normalize_step excluded mx mn u') h (iteritems (h !!! u')))
    as [h1 [[]|e]] eqn:Hinner; [|done].
  destruct (decide (u = u')) as [<-|Hne].
  - pose proof (for_each_raises (normalize_step excluded mx mn u)
                  (iteritems (h !!! u)) (a, VStr s) h) as Hraise.
    rewrite Hinner in Hraise. exfalso. apply Hraise.
    + by apply (iteritems_elem iteritems iteritems_perm).
    + intros hc. simpl. rewrite decide_False by done.
      unfold rescale, getitem. by destruct (mn !! a).
  - apply IH.
    + apply elem_of_cons in Hu as [?|?]; done.
    + pose proof (normalize_step_other_user mx mn u' u (iteritems (h !!! u')) h Hne) as H1.
      rewrite Hinner in H1. simpl in H1. by rewrite H1.
Qed.

End NormalizeErrors.

Section NormalizeErrorClaims.

Variable iteritems : record -> list (string * value).
Hypothesis iteritems_perm : forall r, iteritems r ≡ₚ map_to_list r.

(** X12.  When some user of the list has a string as the value of an
    attribute that is not excluded (a user ID, say), [normalize_users]
    raises an exception: the subtraction of line 115 cannot take a
    string. *)
Theorem normalize_string_attribute_raises (h : list record) (users : list nat)
    (excluded_attributes : list string) (u : nat) (a s : string) :
  u ∈ users -> (h !!! u : record) !! a = Some (VStr s) -> a ∉ excluded_attributes ->
  is_Err (normalize_users iteritems h users excluded_attributes).2.
Proof.
  intros Hu Hv Hex. destruct users as [|u0 us]; [done|].
  rewrite normalize_users_nonempty.
  destruct (foldM _ _ (u0 :: us)) as [[mx mn]|e]; [|done].
  pose proof (normalize_string_loop iteritems iteritems_perm
                (list_to_set excluded_attributes) mx mn (u0 :: us) h u a s Hu Hv) as Hloop.
  destruct (for_each _ h (u0 :: us)) as [h' [[]|e]]; [|done].
  apply Hloop. by rewrite elem_of_list_to_set.
Qed.

(** X13.  When some user of the list has an attribute, not excluded, that
    the first user of the list lacks, [normalize_users] raises [KeyError]
    while looking for the extreme values, before any record is
    rewritten. *)
Theorem normalize_unknown_attribute_raises (h : list record) (users : list nat)
    (excluded_attributes : list string) (u : nat) (a : string) (v : value) :
  u ∈ users -> (h !!! u : record) !! a = Some v -> a ∉ excluded_attributes ->
  (h !!! hd 0%nat users : record) !! a = None ->
  normalize_users iteritems h users excluded_attributes = (h, Err KeyError).
Proof.
  intros Hu Hv Hex Hfirst. destruct users as [|u0 us]; [by apply elem_of_nil in Hu|].
  rewrite normalize_users_nonempty. simpl in Hfirst.
  rewrite (extremes_unknown_attribute_users iteritems iteritems_perm
             (list_to_set excluded_attributes) h (u0 :: us) _ _ u a v); try done.
  - by rewrite lookup_fmap, Hfirst.
  - by rewrite elem_of_list_to_set.
Qed.

End NormalizeErrorClaims.

(** ** More on the attribute files *)

Lemma mapM_related {A B} (f g : A -> result B) (k : B -> B) (l : list A) (out : list B) :
  (forall x y, x ∈ l -> f x = Ok y -> g x = Ok (k y)) ->
  mapM f l = Ok out -> mapM g l = Ok (map k out).
Proof.
  revert out. induction l as [|x l IH]; intros out Hfg; simpl.
  - by intros [= <-].
  - destruct (f x) as [y|] eqn:Hx; [|done]. simpl.
    destruct (mapM f l) as [ys|] eqn:Hl; [|done]. simpl. intros [= <-].
    rewrite (Hfg x y) by (done || by left). simpl.
    rewrite (IH ys); [done| |done]. intros x' y' Hin. apply Hfg. by right.
Qed.

Section DataExtras.

Variable THIS_FILE_PATH : string.
Variable float_str : float -> string.
Variable iteritems : record -> list (string * value).
Hypothesis iteritems_perm : forall r, iteritems r ≡ₚ map_to_list r.

(** The loop of [_read_single_user_attribute] over lines of two tokens. *)
Lemma read_single_rows (lines : list string) :
  Forall (fun line => length (py_split line) = 2%nat) lines ->
  exists M : record,
    foldM (fun (attribute_for_user : record) user_line =>
             match py_split user_line with
             | [user_ID; attribute_value] =>
                 Ok (<[user_ID := VStr attribute_value]> attribute_for_user)
             | _ => Err ValueError
             end)
          ∅ lines = Ok M
    /\ forall id v,
         M !! id = Some v <->
         exists lines1 line lines2 s,
           lines = lines1 ++ line :: lines2 /\ py_split line = [id; s] /\ v = VStr s
           /\ Forall (fun line' => hd "" (py_split line') ≠ id) lines2.
Proof.
  induction lines as [|line lines IH] using rev_ind; intros Hall.
  - exists ∅. split; [done|]. intros id v. rewrite lookup_empty. split; [done|].
    intros (l1 & line & l2 & s & Hnil & _). by destruct l1.
  - apply Forall_app in Hall as [Hall Hline]. rewrite Forall_singleton in Hline.
    destruct (IH Hall) as (M & Hrun & HM).
    destruct (py_split line) as [|id0 [|s0 [|]]] eqn:Hsplit; try done.
    exists (<[id0 := VStr s0]> M). split.
    { rewrite foldM_app, Hrun. simpl. by rewrite Hsplit. }
    intros id v. destruct (decide (id = id0)) as [->|Hne].
    + rewrite lookup_insert_eq. split.
      * intros [= <-]. exists lines, line, [], s0. by repeat split.
      * intros (l1 & line' & l2 & s & Heq & Hs & -> & Hl2).
        destruct l2 as [|x l2 _] using rev_ind.
        -- apply app_inj_tail in Heq as [_ <-]. congruence.
        -- rewrite app_comm_cons, (assoc_L (++)) in Heq.
           apply app_inj_tail in Heq as [_ <-].
           apply Forall_app in Hl2 as [_ Hx]. rewrite Forall_singleton in Hx.
           by rewrite Hsplit in Hx.
    + rewrite lookup_insert_ne by done. rewrite HM. split.
      * intros (l1 & line' & l2 & s & -> & Hs & -> & Hl2).
        exists l1, line', (l2 ++ [line]), s. rewrite <-(assoc_L (++)). repeat split; try done.
        apply Forall_app. split; [done|]. apply Forall_singleton. by rewrite Hsplit.
      * intros (l1 & line' & l2 & s & Heq & Hs & -> & Hl2).
        destruct l2 as [|x l2 _] using rev_ind.
        -- apply app_inj_tail in Heq as [_ <-]. congruence.
        -- rewrite app_comm_cons, (assoc_L (++)) in Heq.
           apply app_inj_tail in Heq as [-> <-].
           apply Forall_app in Hl2 as [Hl2 _]. by exists l1, line', l2, s.
Qed.

(** X14.  On a file whose every line splits into exactly two tokens,
    [_read_single_user_attribute] raises nothing, and the mapping it
    returns gives each user ID the second token, as a string, of the last
    line that starts with this ID: a later line replaces an earlier one,
    and no value is converted to a number. *)
Theorem read_single_last_line_wins (fs : filesystem) (name content : string) :
  fs !! _processed_data_absolute_path THIS_FILE_PATH name = Some content ->
  Forall (fun line => length (py_split line) = 2%nat) (py_lines content) ->
  exists M : record,
    _read_single_user_attribute THIS_FILE_PATH fs name = Ok M
    /\ forall id v,
         M !! id = Some v <->
         exists lines1 line lines2 s,
           py_lines content = lines1 ++ line :: lines2
           /\ py_split line = [id; s] /\ v = VStr s
           /\ Forall (fun line' => hd "" (py_split line') ≠ id) lines2.
Proof.
  intros Hfile Hall. unfold _read_single_user_attribute, open_read. rewrite Hfile. simpl.
  by apply read_single_rows.
Qed.

(** X15.  [_read_single_user_attribute] raises [IOError] when the file
    does not exist, and [ValueError] when some line of the file does not
    split into exactly two tokens (an empty line, a line with one token or
    with three). *)
Theorem read_single_malformed_line (fs : filesystem) (name : string) :
  (fs !! _processed_data_absolute_path THIS_FILE_PATH name = None ->
   _read_single_user_attribute THIS_FILE_PATH fs name = Err IOError)
  /\ (forall content,
        fs !! _processed_data_absolute_path THIS_FILE_PATH name = Some content ->
        Exists (fun line => length (py_split line) ≠ 2%nat) (py_lines content) ->
        _read_single_user_attribute THIS_FILE_PATH fs name = Err ValueError).
Proof.
  unfold _read_single_user_attribute, open_read. split; [by intros ->|].
  intros content -> (line & Hin & Hlen)%Exists_exists. simpl.
  apply (foldM_raises _ _ line); [done| |].
  - intros acc. by destruct (py_split line) as [|id0 [|s0 [|]]].
  - intros acc y e. destruct (py_split y) as [|id0 [|s0 [|]]]; simpl; try done;
      by intros [= <-].
Qed.

Lemma write_rows_app (attributes : list string) (users1 users2 : list record)
    (written : string) :
  Forall (fun user : record => forall a, a ∈ attributes -> is_Some (user !! a)) users1 ->
  write_rows float_str attributes (users1 ++ users2) written
  = write_rows float_str attributes users2
      (written +:+ concat_strings
                     (map (fun s => s +:+ String newline "")
                          (map (fun user => py_join " " (cells float_str attributes user))
                               users1))).
Proof.
  intros Hall. revert written.
  induction Hall as [|user users Hu _ IH]; intros written; simpl.
  - by rewrite string_app_nil_r.
  - rewrite (row_text_run float_str) by done. rewrite IH. by rewrite !string_app_assoc.
Qed.

(** X16.  When every user has every listed attribute,
    [_write_multiple_user_attributes] raises nothing and leaves in the file
    the header line followed by one line per user, in the users' order.
    When such users are followed by a user who lacks a listed attribute, it
    raises [KeyError], and the file holds the header and the lines of the
    users before that one: a truncated table, not the old contents. *)
Theorem write_multiple_rows_and_missing_field (fs : filesystem) (users : list record)
    (attributes : list string) (name : string) :
  Forall (fun user : record => forall a, a ∈ attributes -> is_Some (user !! a)) users ->
  _write_multiple_user_attributes THIS_FILE_PATH float_str fs users attributes name
  = (<[_processed_data_absolute_path THIS_FILE_PATH name :=
         text (py_join " " attributes
               :: map (fun user => py_join " " (cells float_str attributes user)) users)]> fs,
     Ok tt)
  /\ forall user users2,
       (exists a, a ∈ attributes /\ user !! a = None) ->
       _write_multiple_user_attributes THIS_FILE_PATH float_str fs
         (users ++ user :: users2) attributes name
       = (<[_processed_data_absolute_path THIS_FILE_PATH name :=
              text (py_join " " attributes
                    :: map (fun user => py_join " " (cells float_str attributes user))
                           users)]> fs,
          Err KeyError).
Proof.
  intros Hall. split.
  - unfold _write_multiple_user_attributes. by rewrite (write_rows_run float_str).
  - intros user users2 (a & Ha & Hnone). unfold _write_multiple_user_attributes.
    rewrite write_rows_app by done. simpl.
    assert (row_text float_str attributes user = Err KeyError) as ->; [|done].
    unfold row_text. rewrite (mapM_raises _ _ a KeyError); [done|done| |].
    + unfold getitem. by rewrite Hnone.
    + intros y e. unfold getitem. destruct (user !! y); simpl; [done|by intros [= <-]].
Qed.

(** The comprehension of line 141 with fewer requested attributes. *)
Lemma row_record_subset (attributes desired : gset string) (vals : list string)
    (l : list (nat * string)) (acc r : record) :
  desired ⊆ attributes ->
  foldM (fun (user : record) '(i, attribute_name) =>
           if decide (attribute_name ∈ attributes)
           then match vals !! i with
                | Some v => Ok (<[attribute_name := VStr v]> user)
                | None => Err IndexError
                end
           else Ok user)
        acc l = Ok r ->
  foldM (fun (user : record) '(i, attribute_name) =>
           if decide (attribute_name ∈ desired)
           then match vals !! i with
                | Some v => Ok (<[attribute_name := VStr v]> user)
                | None => Err IndexError
                end
           else Ok user)
        (filter (fun kv : string * value => kv.1 ∈ desired) acc) l
  = Ok (filter (fun kv : string * value => kv.1 ∈ desired) r).
Proof.
  intros Hsub. revert acc. induction l as [|[i a] l IH]; intros acc; simpl.
  - by intros [= <-].
  - destruct (decide (a ∈ attributes)) as [Ha|Ha]; simpl.
    + destruct (vals !! i) as [v|]; simpl; [|done]. intros Hrun.
      destruct (decide (a ∈ desired)) as [Hd|Hd]; simpl.
      * rewrite <-(map_filter_insert_True (fun kv : string * value => kv.1 ∈ desired))
          by done. by apply IH.
      * rewrite <-(map_filter_insert_not (fun kv : string * value => kv.1 ∈ desired)
                     acc a (VStr v)) by done. by apply IH.
    + rewrite decide_False by (intros Hd; by apply Ha, Hsub). simpl. apply IH.
Qed.

(** X17.  Asking [_read_multiple_user_attributes] for fewer attributes
    is filtering what it reads: when the read with a list of attributes
    returns users, the read of the same file with attributes taken from
    that list returns the same users, each passed through
    [filter_dictionary_by_keys] with the shorter list. *)
Theorem read_multiple_subset (fs : filesystem) (name : string)
    (attributes desired : list string) (users : list record) :
  (forall a, a ∈ desired -> a ∈ attributes) ->
  _read_multiple_user_attributes THIS_FILE_PATH fs name attributes = Ok users ->
  _read_multiple_user_attributes THIS_FILE_PATH fs name desired
  = Ok (map (fun user => filter_dictionary_by_keys iteritems user desired) users).
Proof.
  intros Hsub. unfold _read_multiple_user_attributes.
  destruct (open_read fs _) as [content|]; [|done]. simpl.
  apply mapM_related. intros line r _ Hrow. unfold row_record in *.
  apply (row_record_subset (list_to_set attributes) (list_to_set desired)) in Hrow.
  - rewrite map_filter_empty in Hrow. rewrite Hrow. f_equal.
    unfold filter_dictionary_by_keys.
    rewrite (py_dict_filter (fun key => py_in key desired) _ r) by done.
    apply map_filter_ext. intros k v _. simpl. by rewrite py_in_spec, elem_of_list_to_set.
  - intros a. rewrite !elem_of_list_to_set. apply Hsub.
Qed.

Lemma row_record_keys (attributes_set : gset string) (vals : list string)
    (l : list (nat * string)) (acc r : record) :
  foldM (fun (user : record) '(i, attribute_name) =>
           if decide (attribute_name ∈ attributes_set)
           then match vals !! i with
                | Some v => Ok (<[attribute_name := VStr v]> user)
                | None => Err IndexError
                end
           else Ok user)
        acc l = Ok r ->
  (forall a, is_Some (r !! a) <-> is_Some (acc !! a) \/ (a ∈ attributes_set /\ a ∈ l.*2))
  /\ (forall a v, r !! a = Some v -> acc !! a = Some v \/ exists s, v = VStr s).
Proof.
  revert acc. induction l as [|[i a0] l IH]; intros acc; simpl.
  - intros [= <-]. split.
    + intros a. split; [by left|]. intros [?|[_ []%elem_of_nil]]. done.
    + intros a v Hv. by left.
  - destruct (decide (a0 ∈ attributes_set)) as [Ha0|Ha0]; simpl.
    + destruct (vals !! i) as [v0|]; simpl; [|done]. intros Hrun.
      destruct (IH _ Hrun) as [Hkeys Hvals]. split.
      * intros a. rewrite Hkeys, elem_of_cons. destruct (decide (a = a0)) as [->|Hne].
        -- rewrite lookup_insert_eq. split; [|by left]. intros _. right. split; [done|by left].
        -- rewrite lookup_insert_ne by done. split.
           ++ intros [?|[? ?]]; [by left|]. right. split; [done|by right].
           ++ intros [?|[? [?|?]]]; [by left|done|]. right. by split.
      * intros a v Hv. destruct (Hvals a v Hv) as [Hacc|?]; [|by right].
        destruct (decide (a = a0)) as [->|Hne].
        -- rewrite lookup_insert_eq in Hacc. injection Hacc as <-. right. by eexists.
        -- rewrite lookup_insert_ne in Hacc by done. by left.
    + intros Hrun. destruct (IH _ Hrun) as [Hkeys Hvals]. split; [|done].
      intros a. rewrite Hkeys, elem_of_cons. split.
      * intros [?|[? ?]]; [by left|]. right. split; [done|by right].
      * intros [?|[? [->|?]]]; [by left|done|]. right. by split.
Qed.

(** X18.  When [_read_multiple_user_attributes] returns, it returns one
    record per line after the first; the attributes of each record are
    exactly the requested attributes that the header line names, and
    every value is a string. *)
Theorem read_multiple_shape (fs : filesystem) (name content : string)
    (attributes : list string) (users : list record) :
  fs !! _raw_data_absolute_path THIS_FILE_PATH name = Some content ->
  _read_multiple_user_attributes THIS_FILE_PATH fs name attributes = Ok users ->
  length users = (length (py_lines content) - 1)%nat
  /\ Forall (fun user : record =>
               (forall a, is_Some (user !! a) <->
                          a ∈ attributes /\ a ∈ py_split (hd "" (py_lines content)))
               /\ (forall a v, user !! a = Some v -> exists s, v = VStr s))
            users.
Proof.
  intros Hfile. unfold _read_multiple_user_attributes, open_read. rewrite Hfile. simpl.
  intros Hrun%mapM_inv. split.
  - rewrite <-(Forall2_length _ _ _ Hrun). destruct (py_lines content); simpl; lia.
  - apply Forall_forall. intros r [i Hi]%list_elem_of_lookup.
    destruct (Forall2_lookup_r _ _ _ _ _ Hrun Hi) as (line & _ & Hrow).
    apply row_record_keys in Hrow as [Hkeys Hvals]. split.
    + intros a. rewrite Hkeys, lookup_empty, elem_of_list_to_set.
      assert ((imap (fun i a => (i, a)) (py_split (hd "" (py_lines content)))).*2
              = py_split (hd "" (py_lines content))) as ->.
      { generalize (py_split (hd "" (py_lines content))). intros l.
        change (imap (fun i a => (i, a)) l) with (imap (fun i a => (id i, a)) l).
        generalize (@id nat). induction l as [|x l IH]; intros j; [done|].
        simpl. f_equal. apply IH. }
      split; [by intros [[? [=]]|?]|by right].
    + intros a v Hv. destruct (Hvals a v Hv) as [Hacc|?]; [|done].
      by rewrite lookup_empty in Hacc.
Qed.

End DataExtras.

(** ** Months of membership *)

Lemma split_on_length (sep : ascii) (cur s : string) :
  length (split_on sep cur s) = S (count_char sep s).
Proof.
  revert cur. induction s as [|c s IH]; intros cur; [done|].
  simpl. destruct (Ascii.eqb c sep); simpl; by rewrite IH.
Qed.

Lemma split_on_run (sep : ascii) (cur t rest : string) :
  count_char sep t = 0%nat ->
  split_on sep cur (t +:+ rest) = split_on sep (cur +:+ t) rest.
Proof.
  revert cur. induction t as [|c t IH]; intros cur Ht.
  - by rewrite string_app_nil_r.
  - simpl in Ht. rewrite string_app_cons. simpl.
    destruct (Ascii.eqb c sep); [done|]. rewrite IH by done. by rewrite snoc_app.
Qed.

Lemma split_on_two (sep : ascii) (a b : string) :
  count_char sep a = 0%nat -> count_char sep b = 0%nat ->
  split_on sep "" (a +:+ String sep b) = [a; b].
Proof.
  intros Ha Hb. rewrite split_on_run by done. simpl. rewrite Ascii.eqb_refl.
  rewrite <-(string_app_nil_r b) at 1. rewrite split_on_run by done. done.
Qed.

Lemma mapM_length {A B} (f : A -> result B) (l : list A) (out : list B) :
  mapM f l = Ok out -> length out = length l.
Proof.
  revert out. induction l as [|x l IH]; intros out; simpl.
  - by intros [= <-].
  - destruct (f x); [|done]. simpl. destruct (mapM f l) as [ys|]; [|done]. simpl.
    intros [= <-]. simpl. by rewrite (IH ys).
Qed.

Section DateClaims.

Variables CURRENT_YEAR CURRENT_MONTH : Z.
Variable py_int : string -> result Z.

(** X19.  For a string made of a year and a month separated by a hyphen
    (neither holding a hyphen) that [int] reads as [y] and [m],
    [_months_since_year_and_month] returns
    [12 * (CURRENT_YEAR - y) - m + CURRENT_MONTH]. *)
Theorem months_since_year_and_month (year month : string) (y m : Z) :
  count_char "-" year = 0%nat -> count_char "-" month = 0%nat ->
  py_int year = Ok y -> py_int month = Ok m ->
  _months_since_year_and_month CURRENT_YEAR CURRENT_MONTH py_int (year +:+ "-" +:+ month)
  = Ok (12 * (CURRENT_YEAR - y) - m + CURRENT_MONTH).
Proof.
  intros Hy Hm Hyear Hmonth. unfold _months_since_year_and_month.
  rewrite string_app_cons, string_app_nil_l, split_on_two by done.
  simpl. rewrite Hyear. simpl. by rewrite Hmonth.
Qed.

(** X20.  [_months_since_year_and_month] raises an exception on every
    string that does not hold exactly one hyphen (it never returns a
    number for one): a date with a day, a date without a separator, a
    negative year. *)
Theorem months_since_needs_one_hyphen (year_month_string : string) :
  count_char "-" year_month_string ≠ 1%nat ->
  is_Err (_months_since_year_and_month CURRENT_YEAR CURRENT_MONTH py_int year_month_string).
Proof.
  intros Hcount. unfold _months_since_year_and_month.
  destruct (mapM py_int _) as [parts|e] eqn:Hparts; [|done]. simpl.
  apply mapM_length in Hparts. rewrite split_on_length in Hparts.
  destruct parts as [|year [|month [|]]]; simpl in *; try done. lia.
Qed.

End DateClaims.

(** ** Rounding to a float never reaches zero *)

Lemma digits2_pos_bound (m : positive) : 2 ^ (Zpos (digits2_pos m) - 1) <= Zpos m.
Proof.
  induction m as [m IH|m IH|]; simpl; [| |done].
  - rewrite Pos2Z.inj_succ, Z.sub_succ_l, Z.pow_succ_r by lia. lia.
  - rewrite Pos2Z.inj_succ, Z.sub_succ_l, Z.pow_succ_r by lia. lia.
Qed.

Lemma shr_1_m (mrs : shr_record) : 0 <= shr_m mrs -> shr_m (shr_1 mrs) = shr_m mrs / 2.
Proof.
  destruct mrs as [m r s]. simpl. intros Hm.
  destruct m as [|[p|p|]|p]; simpl; try done.
  - rewrite Pos2Z.inj_xI. apply (Z.div_unique _ _ _ 1); lia.
  - rewrite Pos2Z.inj_xO. apply (Z.div_unique _ _ _ 0); lia.
Qed.

Lemma shr_iter_m (k : positive) (mrs : shr_record) :
  0 <= shr_m mrs -> shr_m (SpecFloat.iter_pos shr_1 k mrs) = shr_m mrs / 2 ^ Zpos k.
Proof.
  revert mrs. induction k as [k IH|k IH|]; intros mrs Hm; simpl SpecFloat.iter_pos.
  - assert (0 <= shr_m (shr_1 mrs)) as H1 by (rewrite shr_1_m by done; by apply Z.div_pos).
    assert (0 <= shr_m (SpecFloat.iter_pos shr_1 k (shr_1 mrs))) as H2
      by (rewrite IH by done; apply Z.div_pos; lia).
    rewrite IH, IH, shr_1_m, !Z.div_div by lia. f_equal.
    assert (2 ^ Z.pos k~1 = 2 * (2 ^ Z.pos k * 2 ^ Z.pos k)) as ->; [|done].
    rewrite <-Z.pow_add_r, <-Z.pow_succ_r by lia. f_equal. lia.
  - assert (0 <= shr_m (SpecFloat.iter_pos shr_1 k mrs)) as H2
      by (rewrite IH by done; apply Z.div_pos; lia).
    rewrite IH, IH, !Z.div_div by lia. f_equal.
    rewrite <-Z.pow_add_r by lia. f_equal. lia.
  - by apply shr_1_m.
Qed.

Lemma shr_fexp_positive (m e : Z) (l : location) :
  0 < m -> SpecFloat.emin prec emax <= e ->
  0 < shr_m (shr_fexp prec emax m e l).1 /\ SpecFloat.emin prec emax <= (shr_fexp prec emax m e l).2.
Proof.
  intros Hm He. unfold shr_fexp, shr.
  assert (shr_m (shr_record_of_loc m l) = m) as Hrec by (by destruct l as [|[]]).
  destruct (SpecFloat.fexp prec emax (Zdigits2 m + e) - e) as [|k|k] eqn:Hn; simpl;
    [rewrite Hrec; done| |rewrite Hrec; done].
  destruct m as [|p|p]; [done| |done]. simpl in Hn.
  assert (Zpos k = Zpos (digits2_pos p) - prec) as Hk.
  { unfold SpecFloat.fexp, SpecFloat.emin in *. lia. }
  split; [|lia]. rewrite shr_iter_m by (rewrite Hrec; lia). rewrite Hrec.
  apply Z.div_str_pos. split; [lia|].
  pose proof (digits2_pos_bound p) as Hp.
  assert (2 ^ Zpos k <= 2 ^ (Zpos (digits2_pos p) - 1)); [|lia].
  apply Z.pow_le_mono_r; [lia|]. rewrite Hk. unfold prec. lia.
Qed.

Lemma binary_round_aux_nonzero sx (m e : Z) (l : location) s :
  0 < m -> SpecFloat.emin prec emax <= e -> binary_round_aux prec emax sx m e l ≠ S754_zero s.
Proof.
  intros Hm He. unfold binary_round_aux.
  pose proof (shr_fexp_positive m e l Hm He) as [H1 H1e].
  destruct (shr_fexp prec emax m e l) as [mrs' e']. simpl in H1, H1e.
  assert (0 < round_nearest_even (shr_m mrs') (loc_of_shr_record mrs')) as Hr.
  { unfold round_nearest_even. destruct (loc_of_shr_record mrs') as [|[]]; try lia.
    destruct (Z.even (shr_m mrs')); lia. }
  pose proof (shr_fexp_positive _ e' loc_Exact Hr H1e) as [H2 _].
  destruct (shr_fexp prec emax _ e' loc_Exact) as [mrs'' e'']. simpl in H2.
  destruct (shr_m mrs''); [lia| |lia]. by destruct (e'' <=? emax - prec).
Qed.

Lemma binary_round_nonzero sx (m : positive) (e : Z) s :
  SpecFloat.emin prec emax <= e -> binary_round prec emax sx m e ≠ S754_zero s.
Proof.
  intros He. unfold binary_round, shl_align.
  destruct (SpecFloat.fexp prec emax (Zpos (digits2_pos m) + e) - e) eqn:Hn;
    apply binary_round_aux_nonzero; try done.
  unfold SpecFloat.fexp, SpecFloat.emin in *. lia.
Qed.

Lemma SFeqb_zero_false (x : spec_float) :
  (forall s, x ≠ S754_zero s) -> SFeqb x (S754_zero false) = false.
Proof.
  intros Hx. destruct x as [s|s| |s m e]; try done.
  - by destruct (Hx s).
  - by destruct s.
  - by destruct s.
Qed.

Lemma of_uint63_nonzero (z : Z) :
  0 < z < 2 ^ 63 -> PrimFloat.eqb (PrimFloat.of_uint63 (Uint63.of_Z z)) PrimFloat.zero = false.
Proof.
  intros Hz. rewrite FloatAxioms.eqb_spec, FloatAxioms.of_uint63_spec.
  change (Prim2SF PrimFloat.zero) with (S754_zero false).
  rewrite Uint63.of_Z_spec, Z.mod_small by (change wB with (2 ^ 63); lia).
  apply SFeqb_zero_false. intros s. destruct z as [|p|p]; [lia| |lia].
  simpl. apply binary_round_nonzero. by vm_compute.
Qed.

Lemma eqb_opp_zero (f : float) :
  PrimFloat.eqb (- f) PrimFloat.zero = PrimFloat.eqb f PrimFloat.zero.
Proof.
  rewrite !FloatAxioms.eqb_spec, FloatAxioms.opp_spec.
  change (Prim2SF PrimFloat.zero) with (S754_zero false).
  destruct (Prim2SF f) as [s|s| |s m e]; try done; by destruct s.
Qed.

Lemma ldexp_nonzero (f : float) (e : Z) :
  0 <= e -> PrimFloat.eqb f PrimFloat.zero = false -> PrimFloat.eqb (Z.ldexp f e) PrimFloat.zero = false.
Proof.
  intros He. rewrite !FloatAxioms.eqb_spec, Z_ldexp_spec.
  change (Prim2SF PrimFloat.zero) with (S754_zero false).
  pose proof (FloatAxioms.Prim2SF_valid f) as Hvalid.
  destruct (Prim2SF f) as [s|s| |s m ex]; try done. simpl. intros _.
  apply SFeqb_zero_false. intros s'. apply binary_round_nonzero.
  simpl in Hvalid. unfold bounded, canonical_mantissa in Hvalid.
  apply andb_true_iff in Hvalid as [Hc _]. apply Z.eqb_eq in Hc.
  unfold SpecFloat.fexp in Hc. lia.
Qed.

(** The float of a non-zero int is not zero. *)
Lemma float_of_Z_nonzero (z : Z) (f : float) :
  z ≠ 0 -> float_of_Z z = Ok f -> PrimFloat.eqb f PrimFloat.zero = false.
Proof.
  intros Hz. unfold float_of_Z.
  set (a := Z.abs z). assert (0 < a) as Ha by (unfold a; lia).
  set (g := if a <? 2 ^ 63 then _ else _).
  assert (PrimFloat.eqb g PrimFloat.zero = false) as Hg.
  { unfold g. destruct (a <? 2 ^ 63) eqn:E.
    - apply Z.ltb_lt in E. by apply of_uint63_nonzero.
    - apply Z.ltb_ge in E.
      assert (63 <= Z.log2 a) as Hlog by (by apply Z.log2_le_pow2).
      apply ldexp_nonzero; [lia|]. apply of_uint63_nonzero.
      set (sh := Z.log2 a - 62).
      set (sticky := if Z.land a (Z.ones sh) =? 0 then 0 else 1).
      assert (0 <= sticky <= 1) as Hs by (unfold sticky; destruct (_ =? 0); lia).
      destruct (Z.log2_spec a Ha) as [Hlo Hhi].
      assert (2 ^ 62 <= Z.shiftr a sh < 2 ^ 63) as Hm.
      { rewrite Z.shiftr_div_pow2 by lia.
        assert (2 ^ Z.log2 a = 2 ^ 62 * 2 ^ sh) as Hp.
        { rewrite <-Z.pow_add_r by lia. f_equal. lia. }
        assert (2 ^ Z.succ (Z.log2 a) = 2 ^ 63 * 2 ^ sh) as Hp'.
        { rewrite <-Z.pow_add_r by lia. f_equal. lia. }
        assert (0 < 2 ^ sh) by (apply Z.pow_pos_nonneg; lia).
        split.
        - apply Z.div_le_lower_bound; lia.
        - apply Z.div_lt_upper_bound; lia. }
      split.
      + assert (0 <= Z.lor (Z.shiftr a sh) sticky) by (apply Z.lor_nonneg; lia).
        assert (Z.lor (Z.shiftr a sh) sticky ≠ 0); [|lia].
        intros [H0 _]%Z.lor_eq_0_iff. lia.
      + assert (0 <= Z.lor (Z.shiftr a sh) sticky) by (apply Z.lor_nonneg; lia).
        apply Z.log2_lt_pow2.
        * assert (Z.lor (Z.shiftr a sh) sticky ≠ 0); [|lia].
          intros [H0 _]%Z.lor_eq_0_iff. lia.
        * rewrite Z.log2_lor by lia.
          assert (Z.log2 (Z.shiftr a sh) < 63) by (apply Z.log2_lt_pow2; lia).
          assert (Z.log2 sticky <= 0).
          { destruct (decide (sticky = 0)) as [->|]; [done|].
            replace sticky with 1 by lia. done. }
          lia. }
  destruct (is_infinity g); [done|]. intros [= <-].
  destruct (z <? 0); [by rewrite eqb_opp_zero|done].
Qed.

(** ** Averages and quotients *)

Lemma bind_Ok {A B} (a : A) (f : A -> result B) : (Ok a ≫= f) = f a.
Proof. reflexivity. Qed.

Lemma float_of_Z_raises (z : Z) e : float_of_Z z = Err e -> e = OverflowError.
Proof.
  unfold float_of_Z. destruct (is_infinity _); [by intros [= <-]|done].
Qed.

Lemma py_add_raises (a b : value) e :
  py_add a b = Err e -> e = TypeError \/ e = OverflowError.
Proof.
  destruct a as [[x|x]|x], b as [[y|y]|y]; simpl; try done;
    try (intros [= <-]; by left).
  - destruct (float_of_Z x) eqn:E; simpl; [done|].
    intros [= <-]. right. by apply (float_of_Z_raises x).
  - destruct (float_of_Z y) eqn:E; simpl; [done|].
    intros [= <-]. right. by apply (float_of_Z_raises y).
Qed.

Lemma py_sum_raises (values : list value) acc e :
  foldM py_add acc values = Err e -> e = TypeError \/ e = OverflowError.
Proof.
  revert acc. induction values as [|v values IH]; intros acc; simpl; [done|].
  destruct (py_add acc v) as [acc'|e'] eqn:Hadd; simpl; [apply IH|].
  intros [= <-]. by apply (py_add_raises acc v).
Qed.

Lemma py_sum_ints (zs : list Z) (acc : Z) :
  foldM py_add (VInt acc) (map (fun z => VInt z) zs) = Ok (VInt (acc + foldr Z.add 0 zs)).
Proof.
  revert acc. induction zs as [|z zs IH]; intros acc; simpl.
  - by rewrite Z.add_0_r.
  - by rewrite IH, Z.add_assoc.
Qed.

Lemma ltb_zero_nonzero (f : float) : PrimFloat.ltb 0 f = true -> PrimFloat.eqb f PrimFloat.zero = false.
Proof.
  rewrite FloatAxioms.ltb_spec, FloatAxioms.eqb_spec.
  change (Prim2SF PrimFloat.zero) with (S754_zero false).
  change (Prim2SF 0) with (S754_zero false).
  destruct (Prim2SF f) as [s|s| |s m e]; try done; by destruct s.
Qed.

(** X21.  [average] never raises [ZeroDivisionError]; on the empty list
    it returns the int 0 (not a float); and on a non-empty list of ints it
    returns the float of their exact sum divided by the float of their
    number, whenever these two conversions are defined. *)
Theorem average_spec (values : list value) :
  average values ≠ Err ZeroDivisionError
  /\ (values = [] -> average values = Ok (VInt 0))
  /\ (forall zs s n,
        values = map (fun z => VInt z) zs -> zs ≠ [] ->
        float_of_Z (foldr Z.add 0 zs) = Ok s ->
        float_of_Z (Z.of_nat (length zs)) = Ok n ->
        average values = Ok (VFloat (s / n))).
Proof.
  split; [|split].
  - unfold average. destruct values as [|v values]; [done|].
    change (0 <? length (v :: values))%nat with true. cbn iota.
    set (len := Z.of_nat (length (v :: values))).
    assert (len ≠ 0) as Hlen by (unfold len; simpl; lia).
    destruct (py_sum (v :: values)) as [s|e] eqn:Hsum; simpl.
    + destruct (float_of_Z len) as [n|e] eqn:Hn; simpl.
      * pose proof (float_of_Z_nonzero len n Hlen Hn) as Hnz.
        destruct s as [[z|f]|str]; simpl; [| |done].
        -- destruct (float_of_Z z) as [fz|e] eqn:Hz; simpl.
           ++ unfold float_div. simpl. by rewrite Hnz.
           ++ intros [= ->]. by apply float_of_Z_raises in Hz.
        -- unfold float_div. simpl. by rewrite Hnz.
      * intros [= ->]. by apply float_of_Z_raises in Hn.
    + intros [= ->]. by apply py_sum_raises in Hsum as [?|?].
  - by intros ->.
  - intros zs s n -> Hne Hs Hn. unfold average. rewrite length_map.
    destruct zs as [|z zs]; [done|].
    change (0 <? length (z :: zs))%nat with true. cbn iota.
    unfold py_sum. rewrite py_sum_ints, Z.add_0_l, bind_Ok, Hn, bind_Ok.
    unfold div_by_float, py_float. rewrite Hs, bind_Ok. unfold float_div, py_float.
    rewrite bind_Ok, (float_of_Z_nonzero (Z.of_nat (length (z :: zs))) n); [done| |done].
    simpl. lia.
Qed.

(** X22.  [safe_divide] never raises [ZeroDivisionError]; it returns the
    default value not only for a divisor 0 but for every int divisor below
    0 and every float divisor that is not greater than 0 (negative, zero
    or NaN); and for a number greater than 0 it returns the float quotient,
    whenever the conversions to float are defined. *)
Theorem safe_divide_spec (x : num) (y default_value : value) :
  safe_divide x y default_value ≠ Err ZeroDivisionError
  /\ (forall z, y = VInt z -> z <= 0 -> safe_divide x y default_value = Ok default_value)
  /\ (forall f, y = VFloat f -> PrimFloat.ltb 0 f = false ->
                safe_divide x y default_value = Ok default_value)
  /\ (forall n fx fy, y = VNum n -> py_gt y (VInt 0) = true ->
                      py_float x = Ok fx -> py_float n = Ok fy ->
                      safe_divide x y default_value = Ok (VFloat (fx / fy))).
Proof.
  assert (forall n fy, py_gt (VNum n) (VInt 0) = true -> py_float n = Ok fy ->
                       PrimFloat.eqb fy PrimFloat.zero = false) as Hnz.
  { intros [z|f] fy Hpos Hfy; simpl in Hfy.
    - apply (float_of_Z_nonzero z); [|done]. unfold py_gt in Hpos. simpl in Hpos.
      apply Z.ltb_lt in Hpos. lia.
    - injection Hfy as <-. apply ltb_zero_nonzero. by rewrite <-py_gt_zero_float. }
  split; [|split; [|split]].
  - unfold safe_divide. destruct (py_gt y (VInt 0)) eqn:Hpos; [|done].
    destruct (py_float x) as [fx|e] eqn:Hx; simpl.
    + destruct y as [n|s]; [|done]. unfold float_div.
      destruct (py_float n) as [fy|e] eqn:Hy; simpl.
      * by rewrite (Hnz n fy).
      * intros [= ->]. destruct n; [by apply float_of_Z_raises in Hy|done].
    + intros [= ->]. destruct x; [by apply float_of_Z_raises in Hx|done].
  - intros z -> Hz. unfold safe_divide, py_gt. simpl.
    by rewrite (proj2 (Z.ltb_ge 0 z)).
  - intros f -> Hf. unfold safe_divide. by rewrite py_gt_zero_float, Hf.
  - intros n fx fy -> Hpos Hx Hy. unfold safe_divide. rewrite Hpos, Hx. simpl.
    unfold float_div. rewrite Hy. simpl. by rewrite (Hnz n fy).
Qed.

(** ** Distinct values and frequencies *)

Lemma existsb_py_eq (s : list value) (v : value) :
  Forall simple_key s -> simple_key v ->
  existsb (fun x => py_eq x v) s = true <-> v ∈ s.
Proof.
  intros Hs Hv. rewrite existsb_exists. split.
  - intros (x & Hx%list_elem_of_In & E). rewrite Forall_forall in Hs.
    apply py_eq_simple in E; [by subst|by apply Hs|done].
  - intros Hin. exists v. split; [by apply list_elem_of_In|by apply py_eq_refl].
Qed.

Lemma set_add_unfold (s : list value) (v : value) :
  set_add s v = if existsb (fun x => py_eq x v) s then s else s ++ [v].
Proof. reflexivity. Qed.

Lemma py_set_spec (values : list value) :
  Forall simple_key values ->
  NoDup (py_set values) /\ forall v, v ∈ py_set values <-> v ∈ values.
Proof.
  unfold py_set. induction values as [|x values IH] using rev_ind; intros Hall.
  - split; [constructor|done].
  - apply Forall_app in Hall as [Hall Hx]. rewrite Forall_singleton in Hx.
    destruct (IH Hall) as [Hnd Hin]. rewrite fold_left_app. simpl.
    rewrite set_add_unfold.
    assert (Forall simple_key (fold_left set_add values [])) as Hs.
    { apply Forall_forall. intros v Hv%Hin. rewrite Forall_forall in Hall. by apply Hall. }
    destruct (existsb _ _) eqn:E.
    + apply existsb_py_eq in E; [|done..]. split; [done|].
      intros v. rewrite Hin, elem_of_app, list_elem_of_singleton. split; [by left|].
      intros [?| ->]; [done|]. by apply Hin.
    + assert (x ∉ fold_left set_add values []) as Hnin.
      { intros Hx'. apply existsb_py_eq in Hx'; [|done..]. congruence. }
      split.
      * apply NoDup_app. repeat split; [done| |apply NoDup_singleton].
        by intros v Hv ->%list_elem_of_singleton.
      * intros v. by rewrite !elem_of_app, Hin.
Qed.

Lemma py_slice_prefix {A} (l : list A) (k : Z) :
  0 <= k -> py_slice l (Some 0) (Some k) = take (Z.to_nat k) l.
Proof.
  intros Hk. unfold py_slice, slice_index. cbn [from_option].
  change (0 <? 0) with false. cbn iota.
  rewrite (proj2 (Z.ltb_ge k 0)) by lia.
  rewrite (Z.min_l 0), Z.sub_0_r by lia. rewrite drop_0.
  destruct (decide (k <= Z.of_nat (length l))) as [Hle|Hgt].
  - by rewrite Z.min_l by lia.
  - rewrite Z.min_r, Nat2Z.id by lia. rewrite !take_ge; [done|lia|lia].
Qed.

Lemma py_slice_suffix {A} (l : list A) (k : Z) :
  0 <= k ->
  py_slice l (Some (- k)) None
  = if k =? 0 then l else drop (length l - Z.to_nat k) l.
Proof.
  intros Hk. unfold py_slice, slice_index. cbn [from_option].
  destruct (k =? 0) eqn:E.
  - apply Z.eqb_eq in E. subst k. change (- 0 <? 0) with false. cbn iota.
    rewrite Z.min_l, Z.sub_0_r, Nat2Z.id by lia. rewrite drop_0. by rewrite take_ge.
  - apply Z.eqb_neq in E. rewrite (proj2 (Z.ltb_lt (- k) 0)) by lia.
    rewrite take_ge by (rewrite length_drop; lia). f_equal. lia.
Qed.

Lemma ints_of_values (l : list value) :
  (forall v, v ∈ l -> exists z, v = VInt z) -> exists zs, l = map (fun z => VInt z) zs.
Proof.
  induction l as [|v l IH]; intros Hl; [by exists []|].
  destruct IH as [zs ->]; [intros v' Hv'; apply Hl; by right|].
  destruct (Hl v) as [z ->]; [by left|]. by exists (z :: zs).
Qed.

Section StatisticsFacts.

Variable set_iteration : list value -> list value.
Variable sorted : list value -> list value.

(** What Python promises: a set is iterated once over each element, and
    [sorted] puts a list of ints in ascending order. *)
Hypothesis set_iteration_perm : forall s, set_iteration s ≡ₚ s.
Hypothesis sorted_ints : forall zs,
  exists zs', sorted (map (fun z => VInt z) zs) = map (fun z => VInt z) zs'
              /\ zs' ≡ₚ zs /\ StronglySorted Z.le zs'.

(** X23.  On a list of ints and strings, [unique_values] returns a list
    without repetition that has exactly the values of its argument,
    whatever the order in which the set is iterated. *)
Theorem unique_values_spec (values : list value) :
  Forall simple_key values ->
  NoDup (unique_values set_iteration values)
  /\ forall v, v ∈ unique_values set_iteration values <-> v ∈ values.
Proof.
  intros Hall. destruct (py_set_spec values Hall) as [Hnd Hin]. unfold unique_values.
  split; [by rewrite set_iteration_perm|]. intros v. by rewrite set_iteration_perm.
Qed.

Lemma sorted_unique_ints (zs : list Z) :
  exists ds, sorted (unique_values set_iteration (map (fun z => VInt z) zs))
             = map (fun z => VInt z) ds
             /\ StronglySorted Z.lt ds /\ forall z, z ∈ ds <-> z ∈ zs.
Proof.
  assert (Forall simple_key (map (fun z => VInt z) zs)) as Hall.
  { apply Forall_forall. by intros v [z [-> _]]%list_elem_of_fmap. }
  destruct (unique_values_spec _ Hall) as [Hnd Hin].
  destruct (ints_of_values (unique_values set_iteration (map (fun z => VInt z) zs)))
    as [us Hus].
  { intros v Hv%Hin. apply list_elem_of_fmap in Hv as [z [-> _]]. by exists z. }
  rewrite Hus in *. destruct (sorted_ints us) as (ds & -> & Hperm & Hsorted).
  exists ds. split; [done|].
  assert (NoDup us) as Hnd'.
  { by apply (NoDup_fmap_1 (fun z => VInt z)). }
  split.
  - rewrite <-Hperm in Hnd'. clear -Hsorted Hnd'.
    induction Hsorted as [|z ds Hds IH Hz]; [constructor|].
    apply NoDup_cons in Hnd' as [Hnin Hnd']. constructor; [by apply IH|].
    rewrite Forall_forall in *. intros z' Hz'. specialize (Hz z' Hz').
    assert (z ≠ z') by (by intros ->). lia.
  - intros z. rewrite Hperm. split.
    + intros Hz.
      assert (VInt z ∈ map (fun z => VInt z) zs) as Hz'.
      { apply Hin, list_elem_of_fmap. by exists z. }
      by apply list_elem_of_fmap in Hz' as (z' & [= ->] & Hz').
    + intros Hz.
      assert (VInt z ∈ map (fun z => VInt z) us) as Hz'.
      { apply Hin, list_elem_of_fmap. by exists z. }
      by apply list_elem_of_fmap in Hz' as (z' & [= ->] & Hz').
Qed.

(** X24.  On a list of ints and for [k >= 0], [smallest_unique_values]
    returns the first [k] elements (all of them when there are fewer) of
    the strictly ascending list of the distinct values of its argument. *)
Theorem smallest_unique_values_spec (zs : list Z) (k : Z) :
  0 <= k ->
  exists ds,
    smallest_unique_values set_iteration sorted (map (fun z => VInt z) zs) k
    = map (fun z => VInt z) (take (Z.to_nat k) ds)
    /\ StronglySorted Z.lt ds /\ forall z, z ∈ ds <-> z ∈ zs.
Proof.
  intros Hk. destruct (sorted_unique_ints zs) as (ds & Hds & Hsorted & Hin).
  exists ds. split; [|done]. unfold smallest_unique_values.
  rewrite Hds, py_slice_prefix by done.
  change (map ?f ?l) with (f <$> l). by rewrite fmap_take.
Qed.

(** X25.  On a list of ints, [largest_unique_values] returns the last [k]
    elements of the strictly ascending list of the distinct values when
    [k > 0] (all of them when there are fewer), and for [k = 0] it returns
    the whole list of distinct values, not the empty list: [-0] is [0],
    and the slice starts at the beginning. *)
Theorem largest_unique_values_spec (zs : list Z) (k : Z) :
  0 <= k ->
  exists ds,
    largest_unique_values set_iteration sorted (map (fun z => VInt z) zs) k
    = map (fun z => VInt z) (if k =? 0 then ds else drop (length ds - Z.to_nat k) ds)
    /\ StronglySorted Z.lt ds /\ forall z, z ∈ ds <-> z ∈ zs.
Proof.
  intros Hk. destruct (sorted_unique_ints zs) as (ds & Hds & Hsorted & Hin).
  exists ds. split; [|done]. unfold largest_unique_values.
  rewrite Hds, py_slice_suffix by done. destruct (k =? 0); [done|].
  change (map ?f ?l) with (f <$> l). by rewrite fmap_drop, length_fmap.
Qed.

End StatisticsFacts.

Lemma counter_get_add (counts : list (value * Z)) (v w : value) :
  Forall simple_key counts.*1 -> simple_key v -> simple_key w ->
  counter_get (counter_add counts v) w
  = counter_get counts w + (if py_eq v w then 1 else 0).
Proof.
  intros Hc Hv Hw. induction counts as [|[k n] counts IH]; simpl.
  - by destruct (py_eq v w).
  - rewrite fmap_cons in Hc. apply Forall_cons in Hc as [Hk Hc]. simpl in Hk.
    destruct (py_eq k v) eqn:Ekv; simpl.
    + apply py_eq_simple in Ekv; [|done..]. subst k.
      destruct (py_eq v w); lia.
    + destruct (py_eq k w) eqn:Ekw; [|by apply IH].
      apply py_eq_simple in Ekw; [|done..]. subst k.
      destruct (py_eq v w) eqn:Evw; [|lia].
      apply py_eq_simple in Evw; [|done..]. subst v. by rewrite py_eq_refl in Ekv.
Qed.

Lemma counter_add_keys (counts : list (value * Z)) (v : value) :
  (counter_add counts v).*1
  = if existsb (fun k => py_eq k v) counts.*1 then counts.*1 else counts.*1 ++ [v].
Proof.
  induction counts as [|[k n] counts IH]; [done|].
  cbn [counter_add]. rewrite !fmap_cons. cbn [fst existsb].
  destruct (py_eq k v); cbn [orb]; [done|]. rewrite fmap_cons, IH. cbn [fst].
  by destruct (existsb _ _).
Qed.

Lemma counter_add_total (counts : list (value * Z)) (v : value) :
  foldr (fun kn acc => kn.2 + acc) 0 (counter_add counts v)
  = foldr (fun kn acc => kn.2 + acc) 0 counts + 1.
Proof.
  induction counts as [|[k n] counts IH]; simpl; [done|].
  destruct (py_eq k v); simpl; [lia|]. rewrite IH. lia.
Qed.

Lemma Counter_keys (values : list value) : (Counter values).*1 = py_set values.
Proof.
  unfold Counter, py_set. induction values as [|v values IH] using rev_ind; [done|].
  by rewrite !fold_left_app; simpl; rewrite counter_add_keys, IH.
Qed.

(** X26.  On a list of ints and strings, [frequencies] maps each value to
    the number of its occurrences in the list (0 for a value that does not
    occur); its keys are the distinct values of the list, and the counts
    add up to the length of the list. *)
Theorem frequencies_count_occurrences (values : list value) :
  Forall simple_key values ->
  (forall v, simple_key v ->
             counter_get (frequencies values) v
             = Z.of_nat (length (List.filter (fun x => py_eq x v) values)))
  /\ NoDup (frequencies values).*1
  /\ (forall v, v ∈ (frequencies values).*1 <-> v ∈ values)
  /\ foldr (fun kn acc => kn.2 + acc) 0 (frequencies values) = Z.of_nat (length values).
Proof.
  intros Hall. unfold frequencies. rewrite Counter_keys.
  destruct (py_set_spec values Hall) as [Hnd Hin].
  split; [|split; [done|split; [done|]]].
  - intros v Hv. unfold Counter.
    induction values as [|x values IH] using rev_ind; [done|].
    apply Forall_app in Hall as [Hall Hx]. rewrite Forall_singleton in Hx.
    destruct (py_set_spec values Hall) as [Hnd' Hin'].
    rewrite fold_left_app. simpl. rewrite counter_get_add; [|..|done|done].
    + rewrite IH by done. rewrite List.filter_app, length_app. simpl.
      destruct (py_eq x v); simpl; lia.
    + fold (Counter values). rewrite Counter_keys.
      apply Forall_forall. intros k Hk%Hin'. rewrite Forall_forall in Hall. by apply Hall.
  - unfold Counter. clear. induction values as [|x values IH] using rev_ind; [done|].
    rewrite fold_left_app. simpl. rewrite counter_add_total, IH, length_app. simpl. lia.
Qed.

(** ** More on stratified_boolean_sample *)

Lemma filterM_raises {A} (cond : A -> result bool) (l : list A) (x : A) (e : exn) :
  x ∈ l -> cond x = Err e -> (forall y e', cond y = Err e' -> e' = e) ->
  filterM cond l = Err e.
Proof.
  intros Hx Hcx Honly. induction l as [|y l IH]; [by apply elem_of_nil in Hx|].
  simpl. destruct (cond y) as [b|e'] eqn:Hy; simpl.
  - apply elem_of_cons in Hx as [->|Hx]; [congruence|]. by rewrite IH.
  - f_equal. by apply (Honly y).
Qed.

Section SampleErrors.

Variable rng : Type.
Variable random_sample : rng -> list record -> nat -> result (list record * rng).

(** X27.  [stratified_boolean_sample] raises [KeyError] when some user
    lacks the label attribute, whatever [random.sample] would do: no
    sample is drawn. *)
Theorem stratified_sample_missing_label (g : rng) (users : list record)
    (label_name : string) :
  Exists (fun user : record => user !! label_name = None) users ->
  stratified_boolean_sample rng random_sample g users label_name = Err KeyError.
Proof.
  intros (user & Hin & Hnone)%Exists_exists. unfold stratified_boolean_sample.
  rewrite (filterM_raises (label_is label_name 1) users user KeyError); [reflexivity|done| |].
  - unfold label_is, getitem. by rewrite Hnone.
  - intros y e. unfold label_is, getitem.
    destruct (y !! label_name); simpl; [done|by intros [= <-]].
Qed.

End SampleErrors.

(** ** print_first_items *)

Section PrintingFacts.

Variable float_str : float -> string.

Lemma print_loop_within (values : list value) (out : list string) (start n : nat) :
  (start + n <= length values)%nat ->
  for_each (fun (out : list string) (i : nat) =>
              match values !! i with
              | Some v => (out ++ [py_str float_str v], Ok tt)
              | None => (out, Err IndexError)
              end)
           out (seq start n)
  = (out ++ map (py_str float_str) (take n (drop start values)), Ok tt).
Proof.
  revert out start. induction n as [|n IH]; intros out start Hlen.
  - simpl. by rewrite app_nil_r.
  - simpl. destruct (lookup_lt_is_Some_2 values start) as [v Hv]; [lia|].
    rewrite Hv, IH by lia. rewrite (drop_S _ _ _ Hv). simpl.
    by rewrite <-(assoc_L (++)).
Qed.

Lemma print_loop_beyond (values : list value) (out : list string) (start n : nat) :
  (start <= length values < start + n)%nat ->
  for_each (fun (out : list string) (i : nat) =>
              match values !! i with
              | Some v => (out ++ [py_str float_str v], Ok tt)
              | None => (out, Err IndexError)
              end)
           out (seq start n)
  = (out ++ map (py_str float_str) (drop start values), Err IndexError).
Proof.
  revert out start. induction n as [|n IH]; intros out start Hlen; [lia|].
  simpl. destruct (values !! start) as [v|] eqn:Hv.
  - apply lookup_lt_Some in Hv as Hlt. rewrite IH by lia.
    rewrite (drop_S _ _ _ Hv). simpl. by rewrite <-(assoc_L (++)).
  - apply lookup_ge_None in Hv. rewrite drop_ge by lia. simpl. by rewrite app_nil_r.
Qed.

(** X28.  For [k] within a C long, [print_first_items(values, k)] prints
    the first [k] values, one per line, and then an empty line, when the
    list has at least [k] values (for [k <= 0]: the empty line only); when
    the list has fewer than [k] values it prints all of them and raises
    [IndexError], without the empty line.  For [k] outside a C long it
    prints nothing and raises [OverflowError]. *)
Theorem print_first_items_spec (stdout : list string) (values : list value) (k : Z) :
  (- 2 ^ 63 <= k < 2 ^ 63 -> k <= Z.of_nat (length values) ->
   print_first_items float_str stdout values k
   = (stdout ++ map (py_str float_str) (take (Z.to_nat k) values) ++ [""], Ok tt))
  /\ (k < 2 ^ 63 -> Z.of_nat (length values) < k ->
      print_first_items float_str stdout values k
      = (stdout ++ map (py_str float_str) values, Err IndexError))
  /\ (k < - 2 ^ 63 \/ 2 ^ 63 <= k ->
      print_first_items float_str stdout values k = (stdout, Err OverflowError)).
Proof.
  unfold print_first_items. split; [|split].
  - intros Hk Hlen.
    rewrite (proj2 (Z.ltb_ge k (- 2 ^ 63))), (proj2 (Z.leb_gt (2 ^ 63) k)) by lia.
    cbn [orb]. rewrite print_loop_within by (simpl; lia). rewrite drop_0.
    by rewrite <-(assoc_L (++)).
  - intros Hk Hlen.
    rewrite (proj2 (Z.ltb_ge k (- 2 ^ 63))), (proj2 (Z.leb_gt (2 ^ 63) k)) by lia.
    cbn [orb]. rewrite print_loop_beyond by (simpl; lia). by rewrite drop_0.
  - intros [Hk|Hk].
    + by rewrite (proj2 (Z.ltb_lt k (- 2 ^ 63))) by lia.
    + rewrite (proj2 (Z.leb_le (2 ^ 63) k)) by lia. by rewrite orb_true_r.
Qed.

End PrintingFacts.

(** ** Concrete runs of the other functions *)

Lemma scored_users_have_score :
  Forall (fun user : record => is_Some (user !! "score")) scored_users.
Proof. repeat constructor; by eexists. Qed.

Lemma filter_dictionary_by_keys_lookup_witness :
  filter_dictionary_by_keys map_to_list {[ "ID" := VStr "a"; "score" := VInt 5 ]} ["score"]
    !! "score"
  = if decide ("score" ∈ ["score"])
    then ({[ "ID" := VStr "a"; "score" := VInt 5 ]} : record) !! "score" else None.
Proof.
  exact (filter_dictionary_by_keys_lookup map_to_list map_to_list_items
           {[ "ID" := VStr "a"; "score" := VInt 5 ]} ["score"] "score").
Defined.

Lemma make_attribute_boolean_spec_witness :
  exists out,
    make_attribute_boolean map_to_list scored_users "score" = Ok out
    /\ length out = length scored_users
    /\ forall i user, scored_users !! i = Some user ->
         exists r : record, out !! i = Some r
           /\ (forall key, key ≠ "score" -> r !! key = user !! key)
           /\ match user !! "score" with
              | Some (VInt z) => r !! "score" = Some (VInt (if 0 <? z then 1 else 0))
              | Some (VFloat f) =>
                  r !! "score" = Some (VInt (if PrimFloat.ltb 0 f then 1 else 0))
              | Some (VStr _) => r !! "score" = Some (VInt 1)
              | None => False
              end.
Proof.
  exact (make_attribute_boolean_spec map_to_list map_to_list_items scored_users "score"
           scored_users_have_score).
Defined.

Lemma scored_users_lack_stars :
  Exists (fun user : record => user !! "stars" = None) scored_users.
Proof. by apply Exists_cons_hd. Qed.

Lemma transformations_missing_attribute_witness :
  make_attribute_boolean map_to_list scored_users "stars" = Err KeyError
  /\ designate_attribute_as_label map_to_list scored_users "stars" = Err KeyError.
Proof.
  exact (proj1 (transformations_missing_attribute map_to_list scored_users "stars")
           scored_users_lack_stars).
Defined.

Lemma scored_users_boolean :
  make_attribute_boolean map_to_list scored_users "score"
  = Ok [ {[ "ID" := VStr "a"; "score" := VInt 0 ]}; {[ "ID" := VStr "b"; "score" := VInt 1 ]};
         {[ "ID" := VStr "c"; "score" := VInt 0 ]} ].
Proof. by vm_compute. Qed.

Lemma make_attribute_boolean_idempotent_witness :
  make_attribute_boolean map_to_list
    [ {[ "ID" := VStr "a"; "score" := VInt 0 ]}; {[ "ID" := VStr "b"; "score" := VInt 1 ]};
      {[ "ID" := VStr "c"; "score" := VInt 0 ]} ] "score"
  = Ok [ {[ "ID" := VStr "a"; "score" := VInt 0 ]}; {[ "ID" := VStr "b"; "score" := VInt 1 ]};
         {[ "ID" := VStr "c"; "score" := VInt 0 ]} ].
Proof.
  exact (make_attribute_boolean_idempotent map_to_list map_to_list_items scored_users _
           "score" scored_users_boolean).
Defined.

Lemma designate_attribute_as_label_spec_witness :
  exists out,
    designate_attribute_as_label map_to_list scored_users "score" = Ok out
    /\ length out = length scored_users
    /\ forall i user, scored_users !! i = Some user ->
         exists r : record, out !! i = Some r
           /\ r !! "label" = user !! "score"
           /\ ("score" ≠ "label" -> r !! "score" = None)
           /\ (forall key, key ≠ "label" -> key ≠ "score" -> r !! key = user !! key).
Proof.
  exact (designate_attribute_as_label_spec map_to_list map_to_list_items scored_users
           "score" scored_users_have_score).
Defined.

Lemma scored_users_labelled :
  designate_attribute_as_label map_to_list scored_users "score"
  = Ok [ {[ "ID" := VStr "a"; "label" := VInt (-3) ]};
         {[ "ID" := VStr "b"; "label" := VInt 5 ]};
         {[ "ID" := VStr "c"; "label" := VInt 0 ]} ].
Proof. by vm_compute. Qed.

Lemma remove_labels_after_designate_witness :
  remove_labels map_to_list
    [ {[ "ID" := VStr "a"; "label" := VInt (-3) ]}; {[ "ID" := VStr "b"; "label" := VInt 5 ]};
      {[ "ID" := VStr "c"; "label" := VInt 0 ]} ] "label"
  = map (fun user : record => delete "label" (delete "score" user)) scored_users.
Proof.
  exact (remove_labels_after_designate map_to_list map_to_list map_to_list_items
           map_to_list_items scored_users _ "score" scored_users_labelled).
Defined.

Lemma remove_labels_spec_witness :
  remove_labels map_to_list labelled_users "label" = map (delete "label") labelled_users
  /\ remove_labels map_to_list (remove_labels map_to_list labelled_users "label") "label"
     = remove_labels map_to_list labelled_users "label".
Proof.
  exact (remove_labels_spec map_to_list map_to_list_items labelled_users "label").
Defined.

Lemma boolean_label_gives_balanced_sample_witness :
  let positives :=
    List.filter (fun user : record => py_gt (user !!! "score") (VInt 0)) scored_users in
  exists boolean labelled pos neg g',
    make_attribute_boolean map_to_list scored_users "score" = Ok boolean
    /\ designate_attribute_as_label map_to_list boolean "score" = Ok labelled
    /\ stratified_boolean_sample unit first_k tt labelled "label" = Ok ((pos, neg), g')
    /\ length pos = Nat.min (length positives) (length scored_users - length positives)
    /\ length neg = Nat.min (length positives) (length scored_users - length positives).
Proof.
  exact (boolean_label_gives_balanced_sample map_to_list map_to_list_items unit first_k
           first_k_spec tt scored_users "score" scored_users_have_score).
Defined.

(** *** The join *)

Lemma sample_B_has_3 : VInt 3 ∈ join_keys "id" sample_B.
Proof. rewrite sample_B_keys. by do 2 right; left. Qed.

Lemma sample_A_lacks_3 : VInt 3 ∉ join_keys "id" sample_A.
Proof.
  rewrite sample_A_keys. intros H.
  repeat (apply elem_of_cons in H as [[=]|H]). by apply elem_of_nil in H.
Qed.

Lemma join_uncovered_key_raises_witness :
  join_dictionaries map_to_list reverse sample_B sample_A "id" = Err AttributeError.
Proof.
  exact (join_uncovered_key_raises map_to_list reverse reverse_iteration "id"
           sample_B sample_A (VInt 3) sample_B_keyed sample_A_keyed sample_B_has_3
           sample_A_lacks_3).
Defined.

Lemma keyless_record : Exists (fun r : record => r !! "id" = None) [ {[ "x" := VInt 1 ]} ].
Proof. by apply Exists_cons_hd. Qed.

Lemma join_missing_key_raises_witness :
  join_dictionaries map_to_list reverse [ {[ "x" := VInt 1 ]} ] sample_B "id" = Err KeyError.
Proof.
  exact (proj1 (join_missing_key_raises map_to_list reverse "id" [ {[ "x" := VInt 1 ]} ]
                  sample_B) keyless_record).
Defined.

Lemma sample_B_kept (b : record) (k : value) :
  b ∈ sample_B -> b !! "id" = Some k -> k ∈ join_keys "id" sample_A ->
  negb (py_eq (b !!! "id") (VInt 3)) = true.
Proof.
  unfold sample_B. rewrite sample_A_keys. intros Hb Hk Hin.
  repeat (apply elem_of_cons in Hb as [->|Hb]); [done|done| |by apply elem_of_nil in Hb].
  injection Hk as <-. repeat (apply elem_of_cons in Hin as [[=]|Hin]).
  by apply elem_of_nil in Hin.
Qed.

Lemma join_ignores_unmatched_records_witness :
  join_dictionaries map_to_list reverse sample_A
    (List.filter (fun b : record => negb (py_eq (b !!! "id") (VInt 3))) sample_B) "id"
  = join_dictionaries map_to_list reverse sample_A sample_B "id".
Proof.
  exact (join_ignores_unmatched_records map_to_list reverse "id" sample_A sample_B
           (fun b : record => negb (py_eq (b !!! "id") (VInt 3)))
           sample_A_keyed sample_B_keyed sample_B_kept).
Defined.

(** *** The normalization *)

Lemma sample_store_first_user : (0%nat : nat) ∈ [0; 1; 2]%nat.
Proof. by left. Qed.

Lemma sample_store_ID : (sample_store !!! 0%nat : record) !! "ID" = Some (VStr "a").
Proof. done. Qed.

Lemma ID_not_excluded : "ID" ∉ ([] : list string).
Proof. apply not_elem_of_nil. Qed.

Lemma normalize_string_attribute_raises_witness :
  is_Err (normalize_users map_to_list sample_store [0; 1; 2]%nat []).2.
Proof.
  exact (normalize_string_attribute_raises map_to_list map_to_list_items sample_store
           [0; 1; 2]%nat [] 0%nat "ID" "a" sample_store_first_user sample_store_ID
           ID_not_excluded).
Defined.

Lemma uneven_store_second_user : (1%nat : nat) ∈ [0; 1]%nat.
Proof. by right; left. Qed.

Lemma uneven_store_y : (uneven_store !!! 1%nat : record) !! "y" = Some (VInt 3).
Proof. done. Qed.

Lemma y_not_excluded : "y" ∉ ([] : list string).
Proof. apply not_elem_of_nil. Qed.

Lemma uneven_store_first_lacks_y :
  (uneven_store !!! hd 0%nat [0; 1]%nat : record) !! "y" = None.
Proof. done. Qed.

Lemma normalize_unknown_attribute_raises_witness :
  normalize_users map_to_list uneven_store [0; 1]%nat [] = (uneven_store, Err KeyError).
Proof.
  exact (normalize_unknown_attribute_raises map_to_list map_to_list_items uneven_store
           [0; 1]%nat [] 1%nat "y" (VInt 3) uneven_store_second_user uneven_store_y
           y_not_excluded uneven_store_first_lacks_y).
Defined.

(** *** The attribute files *)

Lemma repeated_ratings_file :
  repeated_ratings !! _processed_data_absolute_path "/data" "r.txt"
  = Some (text ["u1 3.5"; "u2 7"; "u1 4.0"]).
Proof. by vm_compute. Qed.

Lemma repeated_ratings_lines :
  Forall (fun line => length (py_split line) = 2%nat)
         (py_lines (text ["u1 3.5"; "u2 7"; "u1 4.0"])).
Proof. vm_compute. by repeat constructor. Qed.

Lemma read_single_last_line_wins_witness :
  exists M : record,
    _read_single_user_attribute "/data" repeated_ratings "r.txt" = Ok M
    /\ forall id v,
         M !! id = Some v <->
         exists lines1 line lines2 s,
           py_lines (text ["u1 3.5"; "u2 7"; "u1 4.0"]) = lines1 ++ line :: lines2
           /\ py_split line = [id; s] /\ v = VStr s
           /\ Forall (fun line' => hd "" (py_split line') ≠ id) lines2.
Proof.
  exact (read_single_last_line_wins "/data" repeated_ratings "r.txt" _
           repeated_ratings_file repeated_ratings_lines).
Defined.

Lemma broken_ratings_file :
  broken_ratings !! _processed_data_absolute_path "/data" "r.txt"
  = Some (text ["u1 3.5"; "u2"]).
Proof. by vm_compute. Qed.

Lemma broken_ratings_line :
  Exists (fun line => length (py_split line) ≠ 2%nat) (py_lines (text ["u1 3.5"; "u2"])).
Proof. apply Exists_cons_tl, Exists_cons_hd. by vm_compute. Qed.

Lemma read_single_malformed_line_witness :
  _read_single_user_attribute "/data" broken_ratings "r.txt" = Err ValueError.
Proof.
  exact (proj2 (read_single_malformed_line "/data" broken_ratings "r.txt") _
           broken_ratings_file broken_ratings_line).
Defined.

Lemma sample_table_complete :
  Forall (fun user : record => forall a, a ∈ ["ID"; "stars"] -> is_Some (user !! a))
         sample_table.
Proof.
  repeat constructor; intros a Ha;
    repeat (apply elem_of_cons in Ha as [->|Ha]); try (by eexists);
    by apply elem_of_nil in Ha.
Qed.

Lemma write_multiple_rows_and_missing_field_witness :
  _write_multiple_user_attributes "/data" no_float_str ∅ sample_table ["ID"; "stars"] "t.txt"
  = (<[_processed_data_absolute_path "/data" "t.txt" :=
         text (py_join " " ["ID"; "stars"]
               :: map (fun user => py_join " " (cells no_float_str ["ID"; "stars"] user))
                      sample_table)]> ∅,
     Ok tt)
  /\ forall user users2,
       (exists a, a ∈ ["ID"; "stars"] /\ user !! a = None) ->
       _write_multiple_user_attributes "/data" no_float_str ∅
         (sample_table ++ user :: users2) ["ID"; "stars"] "t.txt"
       = (<[_processed_data_absolute_path "/data" "t.txt" :=
              text (py_join " " ["ID"; "stars"]
                    :: map (fun user => py_join " " (cells no_float_str ["ID"; "stars"] user))
                           sample_table)]> ∅,
          Err KeyError).
Proof.
  exact (write_multiple_rows_and_missing_field "/data" no_float_str ∅ sample_table
           ["ID"; "stars"] "t.txt" sample_table_complete).
Defined.

Lemma stars_among_all a : a ∈ ["stars"] -> a ∈ ["ID"; "stars"].
Proof. intros ->%list_elem_of_singleton. by right; left. Qed.

Lemma copied_table_read :
  _read_multiple_user_attributes "/data" copied_table "t.txt" ["ID"; "stars"]
  = Ok [ {[ "ID" := VStr "a"; "stars" := VStr "4" ]};
         {[ "ID" := VStr "b"; "stars" := VStr "5" ]} ].
Proof. by vm_compute. Qed.

Lemma read_multiple_subset_witness :
  _read_multiple_user_attributes "/data" copied_table "t.txt" ["stars"]
  = Ok (map (fun user => filter_dictionary_by_keys map_to_list user ["stars"])
            [ {[ "ID" := VStr "a"; "stars" := VStr "4" ]};
              {[ "ID" := VStr "b"; "stars" := VStr "5" ]} ]).
Proof.
  exact (read_multiple_subset "/data" map_to_list map_to_list_items copied_table "t.txt"
           ["ID"; "stars"] ["stars"] _ stars_among_all copied_table_read).
Defined.

Lemma copied_table_file :
  copied_table !! _raw_data_absolute_path "/data" "t.txt"
  = Some (text ["ID stars"; "a 4"; "b 5"]).
Proof. by vm_compute. Qed.

Lemma read_multiple_shape_witness :
  length [ ({[ "ID" := VStr "a"; "stars" := VStr "4" ]} : record);
           {[ "ID" := VStr "b"; "stars" := VStr "5" ]} ]
  = (length (py_lines (text ["ID stars"; "a 4"; "b 5"])) - 1)%nat
  /\ Forall (fun user : record =>
               (forall a, is_Some (user !! a) <->
                          a ∈ ["ID"; "stars"]
                          /\ a ∈ py_split (hd "" (py_lines (text ["ID stars"; "a 4"; "b 5"]))))
               /\ (forall a v, user !! a = Some v -> exists s, v = VStr s))
            [ {[ "ID" := VStr "a"; "stars" := VStr "4" ]};
              {[ "ID" := VStr "b"; "stars" := VStr "5" ]} ].
Proof.
  exact (read_multiple_shape "/data" copied_table "t.txt" _ ["ID"; "stars"] _
           copied_table_file copied_table_read).
Defined.

(** *** Months of membership *)

Lemma months_since_year_and_month_witness :
  _months_since_year_and_month 2020 1 decimal_int ("2015" +:+ "-" +:+ "01")
  = Ok (12 * (2020 - 2015) - 1 + 1).
Proof.
  exact (months_since_year_and_month 2020 1 decimal_int "2015" "01" 2015 1
           eq_refl eq_refl eq_refl eq_refl).
Defined.

Lemma two_hyphens : count_char "-" "2015-01-05" ≠ 1%nat.
Proof. by vm_compute. Qed.

Lemma months_since_needs_one_hyphen_witness :
  is_Err (_months_since_year_and_month 2020 1 decimal_int "2015-01-05").
Proof.
  exact (months_since_needs_one_hyphen 2020 1 decimal_int "2015-01-05" two_hyphens).
Defined.

(** *** Averages, distinct values and frequencies *)

Lemma three_ints_nonempty : [1; 2; 6] ≠ ([] : list Z).
Proof. done. Qed.

Lemma average_spec_witness :
  average [VInt 1; VInt 2; VInt 6] = Ok (VFloat 3).
Proof.
  exact (proj2 (proj2 (average_spec [VInt 1; VInt 2; VInt 6])) [1; 2; 6] 9%float 3%float
           eq_refl three_ints_nonempty eq_refl eq_refl).
Defined.

Lemma safe_divide_spec_witness :
  safe_divide (NInt 1) (VInt (-2)) (VInt 0) = Ok (VInt 0).
Proof.
  exact (proj1 (proj2 (safe_divide_spec (NInt 1) (VInt (-2)) (VInt 0))) (-2) eq_refl
           (Zle_bool_imp_le (-2) 0 eq_refl)).
Defined.

Lemma reverse_set_iteration (s : list value) : reverse s ≡ₚ s.
Proof. apply reverse_Permutation. Qed.

Lemma ascending_ints (zs : list Z) :
  exists zs', ascending (map (fun z => VInt z) zs) = map (fun z => VInt z) zs'
              /\ zs' ≡ₚ zs /\ StronglySorted Z.le zs'.
Proof.
  exists (merge_sort Z.le zs). unfold ascending.
  assert (omap int_of (map (fun z => VInt z) zs) = zs) as Hints.
  { induction zs as [|z zs IH]; [done|].
    change (omap int_of (map (fun z => VInt z) (z :: zs)))
      with (z :: omap int_of (map (fun z => VInt z) zs)).
    by rewrite IH. }
  rewrite Hints. split; [done|]. split; [apply merge_sort_Permutation|].
  apply StronglySorted_merge_sort; apply _.
Qed.

Lemma mixed_values_simple : Forall simple_key [VInt 3; VStr "a"; VInt 3].
Proof. by repeat constructor. Qed.

Lemma unique_values_spec_witness :
  NoDup (unique_values reverse [VInt 3; VStr "a"; VInt 3])
  /\ forall v, v ∈ unique_values reverse [VInt 3; VStr "a"; VInt 3]
               <-> v ∈ [VInt 3; VStr "a"; VInt 3].
Proof.
  exact (unique_values_spec reverse reverse_set_iteration [VInt 3; VStr "a"; VInt 3]
           mixed_values_simple).
Defined.

Lemma smallest_unique_values_spec_witness :
  exists ds,
    smallest_unique_values reverse ascending (map (fun z => VInt z) [5; 1; 5; 3]) 2
    = map (fun z => VInt z) (take (Z.to_nat 2) ds)
    /\ StronglySorted Z.lt ds /\ forall z, z ∈ ds <-> z ∈ [5; 1; 5; 3].
Proof.
  exact (smallest_unique_values_spec reverse ascending reverse_set_iteration ascending_ints
           [5; 1; 5; 3] 2 (Zle_bool_imp_le 0 2 eq_refl)).
Defined.

Lemma largest_unique_values_spec_witness :
  exists ds,
    largest_unique_values reverse ascending (map (fun z => VInt z) [5; 1; 5; 3]) 0
    = map (fun z => VInt z) (if 0 =? 0 then ds else drop (length ds - Z.to_nat 0) ds)
    /\ StronglySorted Z.lt ds /\ forall z, z ∈ ds <-> z ∈ [5; 1; 5; 3].
Proof.
  exact (largest_unique_values_spec reverse ascending reverse_set_iteration ascending_ints
           [5; 1; 5; 3] 0 (Zle_bool_imp_le 0 0 eq_refl)).
Defined.

Lemma frequencies_count_occurrences_witness :
  (forall v, simple_key v ->
             counter_get (frequencies [VInt 3; VStr "a"; VInt 3]) v
             = Z.of_nat (length (List.filter (fun x => py_eq x v)
                                             [VInt 3; VStr "a"; VInt 3])))
  /\ NoDup (frequencies [VInt 3; VStr "a"; VInt 3]).*1
  /\ (forall v, v ∈ (frequencies [VInt 3; VStr "a"; VInt 3]).*1
                <-> v ∈ [VInt 3; VStr "a"; VInt 3])
  /\ foldr (fun kn acc => kn.2 + acc) 0 (frequencies [VInt 3; VStr "a"; VInt 3])
     = Z.of_nat (length [VInt 3; VStr "a"; VInt 3]).
Proof.
  exact (frequencies_count_occurrences [VInt 3; VStr "a"; VInt 3] mixed_values_simple).
Defined.

(** *** Sampling and printing *)

Lemma labelled_users_one_unlabelled :
  Exists (fun user : record => user !! "label" = None)
         (labelled_users ++ [ {[ "ID" := VStr "d" ]} ]).
Proof. apply Exists_app. right. by apply Exists_cons_hd. Qed.

Lemma stratified_sample_missing_label_witness :
  stratified_boolean_sample unit first_k tt (labelled_users ++ [ {[ "ID" := VStr "d" ]} ])
    "label"
  = Err KeyError.
Proof.
  exact (stratified_sample_missing_label unit first_k tt _ "label"
           labelled_users_one_unlabelled).
Defined.

Lemma print_first_items_spec_witness :
  print_first_items no_float_str [] [VInt 7; VStr "a"] 5
  = ([] ++ map (py_str no_float_str) [VInt 7; VStr "a"], Err IndexError).
Proof.
  exact (proj1 (proj2 (print_first_items_spec no_float_str [] [VInt 7; VStr "a"] 5))
           (proj1 (Z.ltb_lt 5 (2 ^ 63)) eq_refl) (proj1 (Z.ltb_lt 2 5) eq_refl)).
Defined.
